(** * pynefs.rpc: ONC RPC transport, client correlation and server dispatch

    A shallow embedding of [src/pynefs/rpc.py] and the properties its
    specification states about it.  Python exceptions are values of [exn],
    a coroutine that reads or writes a stream is a function in the small
    state-and-exception monad [io], dictionaries are [gmap]s and
    [asyncio.Future] objects live in an explicit heap. *)

From Stdlib Require Import ZArith List Lia.
From Stdlib.Strings Require Import Byte.
From stdpp Require Import base option list gmap strings.
Import ListNotations.
Local Open Scope Z_scope.

Abbreviation bytes := (list Byte.byte).

(** ** Exceptions and the state-and-exception monad *)

Inductive exn : Type :=
| KeyError (key : Z)                       (* dict lookup of a missing key *)
| AttributeError (name : string)           (* getattr on a missing attribute *)
| NotImplementedError
| ValueError (msg : string)
| OverlyLarge (total_len frag_len : Z)     (* ValueError("Overly large RPC message! ...") *)
| StructError                              (* struct.error *)
| IncompleteReadError                      (* asyncio.IncompleteReadError *)
| EOFError                                 (* xdrlib: the buffer is exhausted *)
| RuntimeError (msg : string)
| AssertionError
| InvalidStateError                        (* asyncio.InvalidStateError *)
| OSError                                  (* a failed open_connection *)
| OtherException (tag : Z).                (* any other Exception of a codec or handler *)

Inductive result (A : Type) : Type :=
| Ok (a : A)
| Raise (e : exn).
Arguments Ok {A} a.
Arguments Raise {A} e.

Definition io (S A : Type) : Type := S -> result A * S.

Definition ret {S A} (a : A) : io S A := fun s => (Ok a, s).
Definition bind {S A B} (m : io S A) (k : A -> io S B) : io S B :=
  fun s => match m s with
           | (Ok a, s') => k a s'
           | (Raise e, s') => (Raise e, s')
           end.
Definition lift {S A} (r : result A) : io S A := fun s => (r, s).

#[global] Instance io_ret {S} : MRet (io S) := fun A a => ret a.
#[global] Instance io_bind {S} : MBind (io S) := fun A B k m => bind m k.

(** ** [struct.pack("!L", v)] and [struct.unpack("!L", b)] *)

Definition byte_of_Z (z : Z) : Byte.byte :=
  default Byte.x00 (Byte.of_N (Z.to_N (z mod 256))).
Definition Z_of_byte (b : Byte.byte) : Z := Z.of_N (Byte.to_N b).

Definition be32 (v : Z) : bytes :=
  [byte_of_Z (v / 2 ^ 24); byte_of_Z (v / 2 ^ 16); byte_of_Z (v / 2 ^ 8); byte_of_Z v].

Definition struct_pack_L (v : Z) : result bytes :=
  if bool_decide (0 <= v < 2 ^ 32) then Ok (be32 v) else Raise StructError.

Definition struct_unpack_L (b : bytes) : result Z :=
  match b with
  | [b3; b2; b1; b0] =>
      Ok (Z_of_byte b3 * 2 ^ 24 + Z_of_byte b2 * 2 ^ 16 + Z_of_byte b1 * 2 ^ 8 + Z_of_byte b0)
  | _ => Raise StructError
  end.

(** Python's [len]. *)
Definition len {A} (l : list A) : Z := Z.of_nat (length l).

(** ** The stream pair of a TCP connection

    [reader] holds the bytes that reach the [StreamReader] before its end of
    stream and have not been read yet, whether they have arrived or not;
    [reader_eof] is the reader's [_eof]: the end of stream has been received
    ([feed_eof] has run), so that all of [reader] is in the buffer.  [writer]
    holds the bytes handed to the [StreamWriter] so far, and [writer_closing]
    is set by [close] (which also writes the end of stream). *)

Record TCPTransport : Type := mkTransport {
  reader : bytes;
  reader_eof : bool;
  writer : bytes;
  writer_closing : bool
}.

Definition MAX_MSG_BYTES : Z := 100000.

(** [StreamReader.readexactly(n)] on the bytes of the stream: the next [n]
    bytes, or, when the stream ends before them, [IncompleteReadError],
    which is raised once the end of stream has been received and empties
    the buffer. *)
Definition readexactly (n : Z) : io bytes bytes :=
  fun rd =>
    if bool_decide (n < 0) then (Raise (ValueError "readexactly size can not be less than zero"), rd)
    else if bool_decide (len rd < n) then (Raise IncompleteReadError, [])
    else (Ok (take (Z.to_nat n) rd), drop (Z.to_nat n) rd).

(** [StreamReader.feed_eof]: the event loop delivers the end of stream to
    the reader. *)
Definition feed_eof (t : TCPTransport) : TCPTransport :=
  {| reader := reader t; reader_eof := true;
     writer := writer t; writer_closing := writer_closing t |}.

(** [StreamReader.at_eof]: [self._eof and not self._buffer]. *)
Definition at_eof (t : TCPTransport) : bool :=
  reader_eof t && bool_decide (reader t = []).

(** [closed]: [self.reader.at_eof() or self.writer.is_closing()]. *)
Definition closed (t : TCPTransport) : bool :=
  at_eof t || writer_closing t.

(** [close]: write the end of stream, then close the writer unless it is
    closing already. *)
Definition close (t : TCPTransport) : TCPTransport :=
  {| reader := reader t; reader_eof := reader_eof t;
     writer := writer t; writer_closing := true |}.

(** [StreamWriter.write]: refused once the end of stream has been written. *)
Definition writer_write (data : bytes) : io TCPTransport unit :=
  fun t =>
    if writer_closing t then (Raise (RuntimeError "Cannot call write() after write_eof()"), t)
    else (Ok tt, {| reader := reader t; reader_eof := reader_eof t;
                    writer := writer t ++ data; writer_closing := false |}).

(** [write_msg_bytes]: one record-marking fragment, marked as the last.
    The [drain] that follows the write is taken to complete. *)
Definition write_msg_bytes (msg : bytes) : io TCPTransport unit :=
  hdr ← lift (struct_pack_L (Z.lor (len msg) (Z.shiftl 1 31)));
  writer_write (hdr ++ msg).

(** The [while not last_frag] loop of [read_msg_bytes], over the reader's
    bytes.  Every iteration consumes a four-byte fragment header, so
    [S (length rd)] iterations are always enough ([read_frags_fuel]). *)
Fixpoint read_frags (fuel : nat) (msg_bytes : bytes) (total_len : Z) (rd : bytes)
  : option (result bytes * bytes) :=
  match fuel with
  | O => None
  | S fuel' =>
      match readexactly 4 rd with
      | (Raise e, rd1) => Some (Raise e, rd1)
      | (Ok h4, rd1) =>
          match struct_unpack_L h4 with
          | Raise e => Some (Raise e, rd1)
          | Ok frag_header =>
              let last_frag := Z.land frag_header (Z.shiftl 1 31) in
              let frag_len := Z.land frag_header (Z.lnot (Z.shiftl 1 31)) in
              let total_len := total_len + frag_len in
              if bool_decide (total_len > MAX_MSG_BYTES)
              then Some (Raise (OverlyLarge total_len frag_len), rd1)
              else
                match readexactly frag_len rd1 with
                | (Raise e, rd2) => Some (Raise e, rd2)
                | (Ok frag, rd2) =>
                    let msg_bytes := msg_bytes ++ frag in
                    if bool_decide (last_frag <> 0)
                    then Some (Ok msg_bytes, rd2)
                    else read_frags fuel' msg_bytes total_len rd2
                end
          end
      end
  end.

Definition read_stream (rd : bytes) : result bytes * bytes :=
  default (Raise IncompleteReadError, []) (read_frags (S (length rd)) [] 0 rd).

(** A read that ended with [IncompleteReadError] has met the end of stream. *)
Definition met_eof {A} (r : result A) : bool :=
  match r with
  | Raise IncompleteReadError => true
  | _ => false
  end.

(** [read_msg_bytes], run to its end: a [readexactly] that lacks bytes waits
    until the end of stream has been received, and then raises. *)
Definition read_msg_bytes : io TCPTransport bytes :=
  fun t =>
    let '(r, rd') := read_stream (reader t) in
    (r, {| reader := rd'; reader_eof := reader_eof t || met_eof r;
           writer := writer t; writer_closing := writer_closing t |}).

(** The places at which [read_msg_bytes] can be suspended, each given as
    what is left of the reader's bytes there: the loop waits in a
    [readexactly] whose bytes have not arrived yet, which consumes nothing
    before it returns; [readexactly(0)] returns at once.  A read that is
    cancelled at one of them has consumed the fragments, and the length
    word, that it had read before. *)
Fixpoint read_suspensions (fuel : nat) (total_len : Z) (rd : bytes) : list bytes :=
  match fuel with
  | O => []
  | S fuel' =>
      rd ::
      match readexactly 4 rd with
      | (Raise _, _) => []
      | (Ok h4, rd1) =>
          match struct_unpack_L h4 with
          | Raise _ => []
          | Ok frag_header =>
              let last_frag := Z.land frag_header (Z.shiftl 1 31) in
              let frag_len := Z.land frag_header (Z.lnot (Z.shiftl 1 31)) in
              let total_len := total_len + frag_len in
              if bool_decide (total_len > MAX_MSG_BYTES) then []
              else
                (if bool_decide (frag_len = 0) then [] else [rd1]) ++
                match readexactly frag_len rd1 with
                | (Raise _, _) => []
                | (Ok _, rd2) =>
                    if bool_decide (last_frag <> 0) then []
                    else read_suspensions fuel' total_len rd2
                end
          end
      end
  end.

(** [read_msg_bytes] (and so [read_msg]) cancelled at its suspension number
    [n], counted from 0: [None] when the read is not suspended that often
    before it ends.  Once the end of stream has been received all the bytes
    are in the buffer and no read is suspended. *)
Definition cancelled_read (n : nat) (t : TCPTransport) : option TCPTransport :=
  if reader_eof t then None
  else
    match read_suspensions (S (length (reader t))) 0 (reader t) !! n with
    | Some rd' => Some {| reader := rd'; reader_eof := reader_eof t;
                          writer := writer t; writer_closing := writer_closing t |}
    | None => None
    end.

(** ** [xdrlib.Packer.pack_fstring(n, s)] *)

Definition pack_fstring (n : Z) (s : bytes) : result bytes :=
  if bool_decide (n < 0) then Raise (ValueError "fstring size must be nonnegative")
  else
    let data := take (Z.to_nat n) s in
    let n := ((n + 3) / 4) * 4 in
    Ok (data ++ replicate (Z.to_nat (n - len data)) Byte.x00).

(** [s] followed by the zero bytes that bring it to a multiple of four: what
    [pack_fstring(len(s), s)] appends to the packer ([pack_fstring_len]). *)
Definition xdr_pad (s : bytes) : bytes :=
  s ++ replicate (Z.to_nat (((len s + 3) / 4) * 4 - len s)) Byte.x00.

#[global] Instance result_ret : MRet result := fun A a => Ok a.
#[global] Instance result_bind : MBind result := fun A B k r =>
  match r with
  | Ok a => k a
  | Raise e => Raise e
  end.

(** ** RPC message values

    The value classes of the generated RFC 1831 module, with the attributes
    that [rpc.py] builds or reads.  A union arm that is not set is [None]. *)

Record v_opaque_auth : Type := mk_opaque_auth {
  flavor : Z;
  body : bytes
}.

Record v_call_body : Type := mk_call_body {
  rpcvers : Z;
  cb_prog : Z;
  cb_vers : Z;
  proc : Z;
  cred : v_opaque_auth;
  verf : v_opaque_auth
}.

Record v_reply_data : Type := mk_reply_data {
  rd_stat : Z
}.

Record v_accepted_reply : Type := mk_accepted_reply {
  ar_verf : v_opaque_auth;
  data : v_reply_data
}.

Record v_reply_body : Type := mk_reply_body {
  stat : Z;
  areply : option v_accepted_reply
}.

Record v_rpc_body : Type := mk_rpc_body {
  mtype : Z;
  cbody : option v_call_body;
  rbody : option v_reply_body
}.

Record v_rpc_msg : Type := mk_rpc_msg {
  xid : Z;
  header : v_rpc_body
}.

(** Modelled from the spec: the enumeration constants of the generated
    RFC 1831 module, which is not among the sources; the values are those of
    the protocol ([make_reply] relies on [MSG_ACCEPTED] and [SUCCESS] being
    0 in its defaults). *)
Definition CALL : Z := 0.
Definition REPLY : Z := 1.
Definition MSG_ACCEPTED : Z := 0.
Definition MSG_DENIED : Z := 1.
Definition SUCCESS : Z := 0.
Definition SYSTEM_ERR : Z := 5.
Definition AUTH_NONE : Z := 0.

(** [SPLIT_MSG = Tuple[v_rpc_msg, bytes]] *)
Abbreviation SPLIT_MSG := (v_rpc_msg * bytes)%type.

(** The header codec [rpc_msg.pack] / [rpc_msg.unpack] of the generated
    module is a parameter of the engine: packing yields the bytes appended to
    the packer, unpacking consumes a prefix of the unread bytes. *)
Class HeaderCodec : Type := {
  rpc_msg_pack : v_rpc_msg -> result bytes;
  rpc_msg_unpack : bytes -> result (v_rpc_msg * bytes)
}.

Section Transport.
Context `{HeaderCodec}.

(** [BaseTransport.write_msg] *)
Definition write_msg (header : v_rpc_msg) (body : bytes) : io TCPTransport unit :=
  hb ← lift (rpc_msg_pack header);
  fb ← lift (pack_fstring (len body) body);
  write_msg_bytes (hb ++ fb).

(** [BaseTransport.read_msg]: the message and the bytes the unpacker has
    not consumed. *)
Definition read_msg : io TCPTransport SPLIT_MSG :=
  msg_bytes ← read_msg_bytes;
  lift (rpc_msg_unpack msg_bytes).
End Transport.

(** ** Record marking, as a peer may produce it

    The fragments of one message on the wire: each is prefixed with its
    big-endian length word, and only the last one has bit 31 set. *)
Fixpoint record_mark (frags : list bytes) : bytes :=
  match frags with
  | [] => []
  | [f] => be32 (Z.lor (len f) (Z.shiftl 1 31)) ++ f
  | f :: fs => be32 (len f) ++ f ++ record_mark fs
  end.

(** A transport whose reader receives exactly [incoming], of which the end
    of stream has not been received yet. *)
Definition receiving (incoming : bytes) : TCPTransport :=
  {| reader := incoming; reader_eof := false; writer := []; writer_closing := false |}.

(** A fresh transport with nothing to read and nothing written. *)
Definition fresh_transport : TCPTransport := receiving [].

(** [writeMessage] on one end of a connected pair followed by [readMessage]
    on the other end, which receives what the first end wrote. *)
Definition write_then_read `{HeaderCodec} (header : v_rpc_msg) (payload : bytes)
  : result SPLIT_MSG :=
  match write_msg header payload fresh_transport with
  | (Ok _, t) => fst (read_msg (receiving (writer t)))
  | (Raise e, _) => Raise e
  end.

(** ** Procedure tables

    A codec of the stub layer: [pack] yields the bytes it appends to the
    packer, [unpack] consumes a prefix of the unread bytes.  [Proc] is
    [rpchelp.Proc]. *)

Record Codec (value : Type) : Type := mkCodec {
  pack : value -> result bytes;
  unpack : bytes -> result (value * bytes)
}.
Arguments mkCodec {value} _ _.
Arguments pack {value} _ _.
Arguments unpack {value} _ _.

Record Proc (value : Type) : Type := mkProc {
  name : string;
  ret_type : Codec value;
  arg_types : list (Codec value)
}.
Arguments mkProc {value} _ _ _.
Arguments name {value} _.
Arguments ret_type {value} _.
Arguments arg_types {value} _.

(** [for spec, arg in zip(arg_specs, args): spec.pack(packer, arg)] *)
Fixpoint pack_each {value} (l : list (Codec value * value)) : result bytes :=
  match l with
  | [] => Ok []
  | (spec, arg) :: l' =>
      b ← pack spec arg;
      bs ← pack_each l';
      Ok (b ++ bs)
  end.

(** [[arg_type.unpack(unpacker) for arg_type in proc.arg_types]] *)
Fixpoint unpack_each {value} (specs : list (Codec value)) (buf : bytes)
  : result (list value * bytes) :=
  match specs with
  | [] => Ok ([], buf)
  | spec :: specs' =>
      '(v, buf1) ← unpack spec buf;
      '(vs, buf2) ← unpack_each specs' buf1;
      Ok (v :: vs, buf2)
  end.

(** Decoding in declaration order, as the specification words it: one value
    per codec, each decoded from the bytes the previous one left. *)
Inductive decoded {value} : list (Codec value) -> bytes -> list value -> bytes -> Prop :=
| decoded_nil (buf : bytes) : decoded [] buf [] buf
| decoded_cons (spec : Codec value) (specs : list (Codec value)) (buf buf1 buf2 : bytes)
    (v : value) (vs : list value) :
    unpack spec buf = Ok (v, buf1) ->
    decoded specs buf1 vs buf2 ->
    decoded (spec :: specs) buf (v :: vs) buf2.

(** ** The client *)

(** The state of an [asyncio.Future]. *)
Inductive future : Type :=
| Pending
| Result (msg : SPLIT_MSG)
| Exception (e : exn).

(** One activation of [send_call]: its locals [xid], [proc_id] and [fut],
    and whether its framed call has been written. *)
Record call : Type := mkCall {
  c_xid : Z;
  c_proc : Z;
  c_fut : future;
  c_written : bool
}.

(** A [TCPClient]: its attributes, and [calls], the activations of
    [send_call] so far.  A future is identified with the position of its
    activation in [calls]; [xid_map] holds such positions. *)
Record TCPClient (value : Type) : Type := mkClient {
  prog : Z;
  vers : Z;
  procs : gmap Z (Proc value);
  transport : option TCPTransport;
  xid_map : gmap Z nat;
  calls : list call
}.
Arguments mkClient {value} _ _ _ _ _ _.
Arguments prog {value} _.
Arguments vers {value} _.
Arguments procs {value} _.
Arguments transport {value} _.
Arguments xid_map {value} _.
Arguments calls {value} _.

Record UnpackedRPCMsg (value : Type) : Type := mkUnpacked {
  msg : v_rpc_msg;
  u_body : option value
}.
Arguments mkUnpacked {value} _ _.
Arguments msg {value} _.
Arguments u_body {value} _.

(** [TCPClient.__init__] *)
Definition TCPClient_init {value} (prog vers : Z) (procs : gmap Z (Proc value))
  : TCPClient value :=
  mkClient prog vers procs None ∅ [].

(** [gen_xid]: [random.getrandbits(32)], for the random source's value [rand]. *)
Definition gen_xid (rand : Z) : Z := rand mod 2 ^ 32.

Section Client.
Context `{HeaderCodec} {value : Type}.

Definition set_transport (t : TCPTransport) (c : TCPClient value) : TCPClient value :=
  mkClient (prog c) (vers c) (procs c) (Some t) (xid_map c) (calls c).
Definition set_xid_map (m : gmap Z nat) (c : TCPClient value) : TCPClient value :=
  mkClient (prog c) (vers c) (procs c) (transport c) m (calls c).
Definition set_calls (l : list call) (c : TCPClient value) : TCPClient value :=
  mkClient (prog c) (vers c) (procs c) (transport c) (xid_map c) l.

(** [UnpackedRPCMsg.success] *)
Definition success (u : UnpackedRPCMsg value) : result bool :=
  if bool_decide (mtype (header (msg u)) ≠ REPLY)
  then Raise (ValueError "Tried to check success of function message?")
  else match rbody (header (msg u)) with
       | None => Raise (AttributeError "stat")
       | Some rb => Ok (bool_decide (stat rb = MSG_ACCEPTED))
       end.

(** [pack_args] *)
Definition pack_args (proc_id : Z) (args : list value) (c : TCPClient value)
  : result bytes :=
  match procs c !! proc_id with
  | None => Raise (KeyError proc_id)
  | Some p =>
      let arg_specs := arg_types p in
      if bool_decide (length args ≠ length arg_specs)
      then Raise (ValueError "Wrong number of arguments!")
      else pack_each (zip arg_specs args)
  end.

(** [unpack_return] *)
Definition unpack_return (proc_id : Z) (body : bytes) (c : TCPClient value)
  : result value :=
  match procs c !! proc_id with
  | None => Raise (KeyError proc_id)
  | Some p => '(v, _) ← unpack (ret_type p) body; Ok v
  end.

(** [Future.set_result] on the future of activation [fut]. *)
Definition set_result (fut : nat) (m : SPLIT_MSG) : io (TCPClient value) unit :=
  fun c =>
    match calls c !! fut with
    | Some (mkCall x p Pending w) =>
        (Ok tt, set_calls (<[fut := mkCall x p (Result m) w]> (calls c)) c)
    | _ => (Raise InvalidStateError, c)
    end.

(** [pump_reply] *)
Definition pump_reply (m : SPLIT_MSG) : io (TCPClient value) unit :=
  fun c =>
    let '(reply, reply_body) := m in
    if negb (bool_decide (mtype (header reply) = REPLY)) then (Ok tt, c)
    else
      match xid_map c !! xid reply with
      | None => (Ok tt, c)
      | Some xid_future =>
          set_result xid_future m (set_xid_map (delete (xid reply) (xid_map c)) c)
      end.

(** [connect]: [conn] is what [asyncio.open_connection] yields. *)
Definition connect (conn : result TCPTransport) : io (TCPClient value) unit :=
  fun c =>
    match conn with
    | Ok t => (Ok tt, set_transport t c)
    | Raise e => (Raise e, c)
    end.

(** The call envelope built by [send_call]. *)
Definition call_msg (c : TCPClient value) (xid proc_id : Z) : v_rpc_msg :=
  {| xid := xid;
     header := {| mtype := CALL;
                  cbody := Some {| rpcvers := 2;
                                   cb_prog := prog c;
                                   cb_vers := vers c;
                                   proc := proc_id;
                                   cred := {| flavor := AUTH_NONE; body := [] |};
                                   verf := {| flavor := AUTH_NONE; body := [] |} |};
                  rbody := None |} |}.

(** [send_call], lines [fut = asyncio.Future()] and
    [self.xid_map[xid] = fut]: a new activation with a pending future,
    entered in the table under [xid]. *)
Definition send_call_register (proc_id xid : Z) : io (TCPClient value) nat :=
  fun c =>
    let fut := length (calls c) in
    (Ok fut,
     set_xid_map (<[xid := fut]> (xid_map c))
       (set_calls (calls c ++ [mkCall xid proc_id Pending false]) c)).

Definition mark_written (fut : nat) (c : TCPClient value) : TCPClient value :=
  set_calls (alter (fun k => mkCall (c_xid k) (c_proc k) (c_fut k) true) fut (calls c)) c.

(** [send_call], line
    [await self.transport.write_msg(msg, self.pack_args(proc_id, args))]. *)
Definition send_call_write (fut : nat) (proc_id xid : Z) (args : list value)
  : io (TCPClient value) unit :=
  fun c =>
    match transport c with
    | None => (Raise (AttributeError "write_msg"), c)
    | Some t =>
        match pack_args proc_id args c with
        | Raise e => (Raise e, c)
        | Ok packed =>
            match write_msg (call_msg c xid proc_id) packed t with
            | (Ok _, t') => (Ok tt, mark_written fut (set_transport t' c))
            | (Raise e, t') => (Raise e, set_transport t' c)
            end
        end
    end.

(** [send_call] up to [await fut]: the activation's future is returned. *)
Definition send_call (proc_id : Z) (args : list value) (xid : option Z)
    (rand : Z) (conn : result TCPTransport) : io (TCPClient value) nat :=
  fun c =>
    let xid := match xid with None => gen_xid rand | Some x => x end in
    (_ ← (if bool_decide (transport c = None) then connect conn else mret tt);
     fut ← send_call_register proc_id xid;
     _ ← send_call_write fut proc_id xid args;
     mret fut) c.

(** [send_call] from [await fut] on: [None] while the future is pending. *)
Definition send_call_resume (fut : nat) (c : TCPClient value)
  : option (result (UnpackedRPCMsg value)) :=
  match calls c !! fut with
  | Some (mkCall _ proc_id (Result (reply, reply_body)) _) =>
      Some (if bool_decide (mtype (header reply) ≠ REPLY) then Raise AssertionError
            else match rbody (header reply) with
                 | None => Raise (AttributeError "stat")
                 | Some rb =>
                     if bool_decide (stat rb ≠ MSG_ACCEPTED)
                     then Ok (mkUnpacked reply None)
                     else v ← unpack_return proc_id reply_body c;
                          Ok (mkUnpacked reply (Some v))
                 end)
  | Some (mkCall _ _ (Exception e) _) => Some (Raise e)
  | _ => None
  end.

(** [pump_replies]: the loop runs while there is a transport that is not
    closed.  The pump is suspended only in its read, so the event loop can
    deliver the end of stream only before an iteration tests [closed]:
    [eofs] says for each iteration whether it has by then.  [None] when the
    loop is still running after the iterations of [eofs]. *)
Fixpoint pump_replies (eofs : list bool) (c : TCPClient value)
  : option (result unit * TCPClient value) :=
  match eofs with
  | [] => None
  | eof :: eofs' =>
      match transport c with
      | None => Some (Ok tt, c)
      | Some t0 =>
          let t := if eof then feed_eof t0 else t0 in
          if closed t then Some (Ok tt, set_transport t c)
          else
            match read_msg t with
            | (Raise e, t') => Some (Raise e, set_transport t' c)
            | (Ok m, t') =>
                match pump_reply m (set_transport t' c) with
                | (Raise e, c') => Some (Raise e, c')
                | (Ok _, c') => pump_replies eofs' c'
                end
            end
      end
  end.

(** What the event loop may run next on a client: a [connect] completes, a
    [send_call] runs up to its suspension, or the reply pump hands a
    message it has read to [pump_reply]. *)
Inductive client_op : Type :=
| OpConnect (conn : result TCPTransport)
| OpSendCall (proc_id : Z) (args : list value) (xid : option Z) (rand : Z)
    (conn : result TCPTransport)
| OpPumpReply (m : SPLIT_MSG).

Definition client_step (op : client_op) (c : TCPClient value) : TCPClient value :=
  match op with
  | OpConnect conn => snd (connect conn c)
  | OpSendCall proc_id args xid rand conn => snd (send_call proc_id args xid rand conn c)
  | OpPumpReply m => snd (pump_reply m c)
  end.

Definition client_run (ops : list client_op) (c : TCPClient value) : TCPClient value :=
  fold_left (fun c op => client_step op c) ops c.

(** The transaction id an operation registers, if it registers one. *)
Definition op_xid (op : client_op) : option Z :=
  match op with
  | OpSendCall _ _ (Some x) _ _ => Some x
  | OpSendCall _ _ None rand _ => Some (gen_xid rand)
  | _ => None
  end.

(** Activation [i] is outstanding: registered in the table and unresolved. *)
Definition outstanding (c : TCPClient value) (i : nat) : Prop :=
  exists k, calls c !! i = Some k /\ c_fut k = Pending
            /\ xid_map c !! c_xid k = Some i.

(** Activation [i] has written its call and has not been resolved. *)
Definition awaiting_reply (c : TCPClient value) (i : nat) : Prop :=
  exists k, calls c !! i = Some k /\ c_fut k = Pending /\ c_written k = true.

(** Every entry of the table leads to an unresolved activation of that
    transaction id. *)
Definition table_sound (c : TCPClient value) : Prop :=
  forall x i, xid_map c !! x = Some i ->
    exists k, calls c !! i = Some k /\ c_xid k = x /\ c_fut k = Pending.

(** Every unresolved activation is the one the table holds under its
    transaction id. *)
Definition pending_registered (c : TCPClient value) : Prop :=
  forall i k, calls c !! i = Some k -> c_fut k = Pending ->
    xid_map c !! c_xid k = Some i.

(** Every [send_call] of the run uses a transaction id that is not in the
    table when it starts. *)
Fixpoint fresh_run (ops : list client_op) (c : TCPClient value) : Prop :=
  match ops with
  | [] => True
  | op :: ops' =>
      match op_xid op with
      | Some x => xid_map c !! x = None
      | None => True
      end
      /\ fresh_run ops' (client_step op c)
  end.
End Client.

(** ** The server *)

(** A bound method of the server object: it receives the decoded arguments
    and may change the object's state [app] before it returns or raises. *)
Definition handler (value app : Type) : Type := list value -> io app value.

(** A server object of a class derived from [TCPServer]: the class
    attributes [prog], [vers], [procs] and [deliberately_unimplemented], the
    callables bound by name ([methods]), the addresses set by [__init__],
    the state the handlers work on, and [invoked], the record of the
    handler invocations made so far. *)
Record Server (value app : Type) : Type := mkServer {
  s_prog : Z;
  s_vers : Z;
  s_procs : gmap Z (option (Proc value));
  methods : gmap string (handler value app);
  deliberately_unimplemented : list string;
  bind_host : string;
  bind_port : Z;
  app_state : app;
  invoked : list (string * list value)
}.
Arguments mkServer {value app} _ _ _ _ _ _ _ _ _.
Arguments s_prog {value app} _.
Arguments s_vers {value app} _.
Arguments s_procs {value app} _.
Arguments methods {value app} _.
Arguments deliberately_unimplemented {value app} _.
Arguments bind_host {value app} _.
Arguments bind_port {value app} _.
Arguments app_state {value app} _.
Arguments invoked {value app} _.

(** What a class derived from [TCPServer] declares. *)
Record ServerClass (value app : Type) : Type := mkServerClass {
  cls_prog : Z;
  cls_vers : Z;
  cls_procs : gmap Z (option (Proc value));
  cls_methods : gmap string (handler value app);
  cls_deliberately_unimplemented : list string;
  cls_app : app
}.
Arguments mkServerClass {value app} _ _ _ _ _ _.
Arguments cls_prog {value app} _.
Arguments cls_vers {value app} _.
Arguments cls_procs {value app} _.
Arguments cls_methods {value app} _.
Arguments cls_deliberately_unimplemented {value app} _.
Arguments cls_app {value app} _.

(** What the event loop does for one connection of the server.  An
    iteration of the loop of [handle_connection] is one outcome of
    [asyncio.wait_for(transport.read_msg(), 1)]: the wait expired when the
    read was at its suspension number [reads] (counted from 0), or the read
    ran to its end.  Between two iterations the end of stream may reach the
    reader. *)
Inductive poll : Type :=
| TimedOut (reads : nat)
| Ready
| EndOfStream.

Section ServerSide.
Context `{HeaderCodec} {value app : Type}.

(** [TCPServer.__init__]: it stores the two addresses, and nothing else
    runs when a server object is created ([Server] has no [__init__]). *)
Definition TCPServer_init (cls : ServerClass value app) (bind_host : string)
    (bind_port : Z) : result (Server value app) :=
  Ok (mkServer (cls_prog cls) (cls_vers cls) (cls_procs cls) (cls_methods cls)
        (cls_deliberately_unimplemented cls) bind_host bind_port (cls_app cls) []).

(** The names of the declared procedures that have no callable bound under
    their name and are not listed in [deliberately_unimplemented]: what the
    docstring of [Server] says is checked at instantiation time. *)
Definition missing_procs (cls : ServerClass value app) : list string :=
  omap (fun e : Z * option (Proc value) =>
          match e.2 with
          | Some p =>
              if bool_decide (cls_methods cls !! name p = None
                              ∧ name p ∉ cls_deliberately_unimplemented cls)
              then Some (name p) else None
          | None => None
          end)
       (map_to_list (cls_procs cls)).

Definition record_invocation (n : string) (argl : list value) (a : app)
    (s : Server value app) : Server value app :=
  mkServer (s_prog s) (s_vers s) (s_procs s) (methods s)
    (deliberately_unimplemented s) (bind_host s) (bind_port s) a
    (invoked s ++ [(n, argl)]).

(** [get_handler] *)
Definition get_handler (proc_id : Z) (s : Server value app)
  : result (handler value app) :=
  match s_procs s !! proc_id with
  | None => Raise (KeyError proc_id)
  | Some None => Raise (AttributeError "name")
  | Some (Some p) =>
      match methods s !! name p with
      | None => Raise (AttributeError (name p))
      | Some h => Ok h
      end
  end.

(** [handle_proc_call] *)
Definition handle_proc_call (proc_id : Z) (call_body : bytes)
  : io (Server value app) bytes :=
  fun s =>
    match s_procs s !! proc_id with
    | None => (Raise (KeyError proc_id), s)
    | Some None => (Raise NotImplementedError, s)
    | Some (Some proc) =>
        match unpack_each (arg_types proc) call_body with
        | Raise e => (Raise e, s)
        | Ok (argl, _) =>
            match get_handler proc_id s with
            | Raise e => (Raise e, s)
            | Ok h =>
                let '(rv, a) := h argl (app_state s) in
                let s' := record_invocation (name proc) argl a s in
                match rv with
                | Raise e => (Raise e, s')
                | Ok rv => (pack (ret_type proc) rv, s')
                end
            end
        end
    end.

(** [make_reply] *)
Definition make_reply (xid stat msg_stat : Z) : v_rpc_msg :=
  {| xid := xid;
     header := {| mtype := REPLY;
                  cbody := None;
                  rbody := Some {| stat := stat;
                                   areply := Some {| ar_verf := {| flavor := AUTH_NONE;
                                                                  body := [] |};
                                                     data := {| rd_stat := msg_stat |} |}
                                |} |} |}.

(** [handle_call]; the connection is the server object and the transport. *)
Definition handle_call (call : v_rpc_msg) (call_body : bytes)
  : io (Server value app * TCPTransport) unit :=
  fun '(s, t) =>
    match cbody (header call) with
    | None => (Raise (AttributeError "proc"), (s, t))
    | Some cb =>
        match handle_proc_call (proc cb) call_body s with
        | (Raise e, s') => (Raise e, (s', t))
        | (Ok reply_body, s') =>
            let reply_header := make_reply (xid call) 0 0 in
            let '(r, t') := write_msg reply_header reply_body t in
            (r, (s', t'))
        end
    end.

(** The body of the loop of [handle_connection] from the point where
    [wait_for] has returned what [read_msg] returned or raised; [continue]
    is the rest of the loop. *)
Definition after_read
    (continue : Server value app * TCPTransport
                -> option (result unit * (Server value app * TCPTransport)))
    (s : Server value app) (read_ret : result SPLIT_MSG * TCPTransport)
  : option (result unit * (Server value app * TCPTransport)) :=
  match read_ret with
  | (Raise e, t1) => Some (Raise e, (s, t1))
  | (Ok (call, call_body), t1) =>
      if negb (bool_decide (mtype (header call) = CALL))
      then continue (s, t1)
      else
        match handle_call call call_body (s, t1) with
        | (Ok _, st2) => continue st2
        | (Raise e, (s2, t2)) =>
            let reply_header := make_reply (xid call) MSG_ACCEPTED SYSTEM_ERR in
            match write_msg reply_header [] t2 with
            | (Ok _, t3) => Some (Raise e, (s2, close t3))
            | (Raise e', t3) => Some (Raise e', (s2, t3))
            end
        end
  end.

(** [handle_connection]: [polls] is what the event loop does, one element
    per iteration of the loop and one for the arrival of the end of stream;
    [None] when the loop is still running after them.  A wait that expires
    cancels the read where it is suspended; when the read is not suspended
    that often, it has ended before the wait expires.  (The [ConnCtx] that
    the method creates is not used by it.) *)
Fixpoint handle_connection (polls : list poll) (st : Server value app * TCPTransport)
  : option (result unit * (Server value app * TCPTransport)) :=
  let '(s, t) := st in
  match polls with
  | [] => if closed t then Some (Ok tt, (s, close t)) else None
  | EndOfStream :: polls' => handle_connection polls' (s, feed_eof t)
  | TimedOut reads :: polls' =>
      if closed t then Some (Ok tt, (s, close t))
      else
        match cancelled_read reads t with
        | Some t1 => handle_connection polls' (s, t1)
        | None => after_read (handle_connection polls') s (read_msg t)
        end
  | Ready :: polls' =>
      if closed t then Some (Ok tt, (s, close t))
      else after_read (handle_connection polls') s (read_msg t)
  end.
End ServerSide.

(** Modelled from the spec: [rpc_msg.pack] and [rpc_msg.unpack] of the
    generated RFC 1831 module, which is not among the sources.  The header is
    the transaction id and the message type, then for a call the RPC version,
    program, version, procedure id, credential and verifier, and for a reply
    the acceptance status and, if accepted, a verifier and a result status.
    Integers are four big-endian bytes ([xdrlib]'s [pack_uint]), opaque data
    is its length and its bytes padded to a multiple of four. *)
Module Rfc1831.
Definition pack_uint (v : Z) : result bytes := struct_pack_L v.

Definition unpack_uint (buf : bytes) : result (Z * bytes) :=
  match buf with
  | b3 :: b2 :: b1 :: b0 :: rest => v ← struct_unpack_L [b3; b2; b1; b0]; Ok (v, rest)
  | _ => Raise EOFError
  end.

Definition pack_opaque (s : bytes) : result bytes :=
  n ← pack_uint (len s);
  d ← pack_fstring (len s) s;
  Ok (n ++ d).

Definition unpack_opaque (buf : bytes) : result (bytes * bytes) :=
  '(n, rest) ← unpack_uint buf;
  let padded := ((n + 3) / 4) * 4 in
  if bool_decide (len rest < padded) then Raise EOFError
  else Ok (take (Z.to_nat n) rest, drop (Z.to_nat padded) rest).

Definition pack_auth (a : v_opaque_auth) : result bytes :=
  f ← pack_uint (flavor a);
  b ← pack_opaque (body a);
  Ok (f ++ b).

Definition unpack_auth (buf : bytes) : result (v_opaque_auth * bytes) :=
  '(f, buf1) ← unpack_uint buf;
  '(b, buf2) ← unpack_opaque buf1;
  Ok ({| flavor := f; body := b |}, buf2).

Definition pack_call_body (c : v_call_body) : result bytes :=
  b1 ← pack_uint (rpcvers c);
  b2 ← pack_uint (cb_prog c);
  b3 ← pack_uint (cb_vers c);
  b4 ← pack_uint (proc c);
  b5 ← pack_auth (cred c);
  b6 ← pack_auth (verf c);
  Ok (b1 ++ b2 ++ b3 ++ b4 ++ b5 ++ b6).

Definition unpack_call_body (buf : bytes) : result (v_call_body * bytes) :=
  '(v1, buf1) ← unpack_uint buf;
  '(v2, buf2) ← unpack_uint buf1;
  '(v3, buf3) ← unpack_uint buf2;
  '(v4, buf4) ← unpack_uint buf3;
  '(a5, buf5) ← unpack_auth buf4;
  '(a6, buf6) ← unpack_auth buf5;
  Ok (mk_call_body v1 v2 v3 v4 a5 a6, buf6).

Definition pack_reply_body (r : v_reply_body) : result bytes :=
  b1 ← pack_uint (stat r);
  if bool_decide (stat r = MSG_ACCEPTED) then
    match areply r with
    | None => Raise (AttributeError "verf")
    | Some a =>
        b2 ← pack_auth (ar_verf a);
        b3 ← pack_uint (rd_stat (data a));
        Ok (b1 ++ b2 ++ b3)
    end
  else Ok b1.

Definition unpack_reply_body (buf : bytes) : result (v_reply_body * bytes) :=
  '(s, buf1) ← unpack_uint buf;
  if bool_decide (s = MSG_ACCEPTED) then
    '(a, buf2) ← unpack_auth buf1;
    '(d, buf3) ← unpack_uint buf2;
    Ok (mk_reply_body s (Some (mk_accepted_reply a (mk_reply_data d))), buf3)
  else Ok (mk_reply_body s None, buf1).

Definition pack_rpc_msg (m : v_rpc_msg) : result bytes :=
  b1 ← pack_uint (xid m);
  b2 ← pack_uint (mtype (header m));
  if bool_decide (mtype (header m) = CALL) then
    match cbody (header m) with
    | None => Raise (AttributeError "rpcvers")
    | Some c => b3 ← pack_call_body c; Ok (b1 ++ b2 ++ b3)
    end
  else if bool_decide (mtype (header m) = REPLY) then
    match rbody (header m) with
    | None => Raise (AttributeError "stat")
    | Some r => b3 ← pack_reply_body r; Ok (b1 ++ b2 ++ b3)
    end
  else Raise (ValueError "bad switch")%string.

Definition unpack_rpc_msg (buf : bytes) : result (v_rpc_msg * bytes) :=
  '(x, buf1) ← unpack_uint buf;
  '(t, buf2) ← unpack_uint buf1;
  if bool_decide (t = CALL) then
    '(c, buf3) ← unpack_call_body buf2;
    Ok (mk_rpc_msg x (mk_rpc_body t (Some c) None), buf3)
  else if bool_decide (t = REPLY) then
    '(r, buf3) ← unpack_reply_body buf2;
    Ok (mk_rpc_msg x (mk_rpc_body t None (Some r)), buf3)
  else Raise (ValueError "bad switch")%string.

Definition codec : HeaderCodec :=
  {| rpc_msg_pack := pack_rpc_msg; rpc_msg_unpack := unpack_rpc_msg |}.
End Rfc1831.

(** ** Example tables, for the concrete instances below *)

(** A codec for [void]: no bytes. *)
Definition void_codec : Codec Z :=
  mkCodec (fun _ => Ok []) (fun buf => Ok (0, buf)).

(** A codec for an unsigned 32-bit integer. *)
Definition uint_codec : Codec Z :=
  mkCodec struct_pack_L
    (fun buf =>
       match buf with
       | b3 :: b2 :: b1 :: b0 :: rest => v ← struct_unpack_L [b3; b2; b1; b0]; Ok (v, rest)
       | _ => Raise EOFError
       end).

Definition NULL_proc : Proc Z := mkProc "NULL" void_codec [].
Definition ADD_proc : Proc Z := mkProc "ADD" uint_codec [uint_codec; uint_codec].

Definition example_procs : gmap Z (Proc Z) := {[ 0 := NULL_proc; 1 := ADD_proc ]}.

Definition example_client : TCPClient Z := TCPClient_init 100003 3 example_procs.

Definition NULL_handler : handler Z Z := fun _ a => (Ok 0, a).
Definition ADD_handler : handler Z Z :=
  fun args a =>
    match args with
    | [x; y] => (Ok (x + y), a + 1)
    | _ => (Raise (OtherException 0), a)
    end.

Definition example_server_procs : gmap Z (option (Proc Z)) :=
  {[ 0 := Some NULL_proc; 1 := Some ADD_proc ]}.

(** A class with a callable for each declared procedure. *)
Definition example_class : ServerClass Z Z :=
  mkServerClass 100003 3 example_server_procs
    {[ "NULL" := NULL_handler; "ADD" := ADD_handler ]} [] 0.

(** A class that declares [ADD], binds no callable under that name and does
    not list it as deliberately unimplemented. *)
Definition incomplete_class : ServerClass Z Z :=
  mkServerClass 100003 3 example_server_procs {[ "NULL" := NULL_handler ]} [] 0.

(** The server objects of the two classes, as [TCPServer_init] makes them. *)
Definition example_server : Server Z Z :=
  mkServer 100003 3 example_server_procs
    {[ "NULL" := NULL_handler; "ADD" := ADD_handler ]} [] "0.0.0.0" 2049 0 [].
Definition incomplete_server : Server Z Z :=
  mkServer 100003 3 example_server_procs {[ "NULL" := NULL_handler ]} [] "0.0.0.0" 2049 0 [].

(** The packed header of the call [ADD] with transaction id 77, as
    [send_call] builds it, and the record a client writes for [ADD(2, 3)]. *)
Definition example_call_header : bytes :=
  be32 77 ++ be32 0 ++ be32 2 ++ be32 100003 ++ be32 3 ++ be32 1
  ++ be32 0 ++ be32 0 ++ be32 0 ++ be32 0.
Definition example_call_record : bytes :=
  record_mark [example_call_header ++ be32 2 ++ be32 3].

(** A codec whose [unpack] undoes its [pack], whatever bytes follow. *)
Definition codec_round_trips {value} (spec : Codec value) : Prop :=
  forall v b rest, pack spec v = Ok b -> unpack spec (b ++ rest) = Ok (v, rest).

#[global] Instance poll_eq_dec : EqDecision poll.
Proof. solve_decision. Defined.

(** The number of iterations of the loop in a schedule of [handle_connection]. *)
Definition iterations (polls : list poll) : nat :=
  length (filter (fun p => p <> EndOfStream) polls).

(** ** Sequences of messages on one stream *)

(** [write_msg_bytes] for each message of [ms], in order. *)
Fixpoint write_all (ms : list bytes) : io TCPTransport unit :=
  match ms with
  | [] => mret tt
  | m :: ms' => _ ← write_msg_bytes m; write_all ms'
  end.

(** [n] calls of [read_msg_bytes], one after the other. *)
Fixpoint read_n (n : nat) : io TCPTransport (list bytes) :=
  match n with
  | O => mret []
  | S n' => m ← read_msg_bytes; ms ← read_n n'; mret (m :: ms)
  end.

(** The wire bytes of the messages [ms], each a single final fragment. *)
Definition record_stream (ms : list bytes) : bytes :=
  concat (map (fun m => record_mark [m]) ms).

(** * Properties *)

(** ** Bytes and length words *)

Lemma Z_of_byte_of_Z (z : Z) : Z_of_byte (byte_of_Z z) = z mod 256.
Proof.
  unfold Z_of_byte, byte_of_Z.
  assert (Hr : 0 <= z mod 256 < 256) by (apply Z.mod_pos_bound; lia).
  destruct (Byte.of_N (Z.to_N (z mod 256))) as [b|] eqn:E; simpl.
  - apply Byte.to_of_N in E. rewrite E. lia.
  - apply Byte.of_N_None_iff in E. lia.
Qed.

Lemma struct_unpack_be32 (v : Z) : 0 <= v < 2 ^ 32 -> struct_unpack_L (be32 v) = Ok v.
Proof.
  intros Hv. unfold be32, struct_unpack_L. rewrite !Z_of_byte_of_Z. f_equal.
  change (2 ^ 24) with 16777216. change (2 ^ 16) with 65536. change (2 ^ 8) with 256.
  change (2 ^ 32) with 4294967296 in Hv.
  Z.div_mod_to_equations. lia.
Qed.

Lemma bit31 : Z.shiftl 1 31 = 2 ^ 31.
Proof. reflexivity. Qed.

Lemma small_as_land (n : Z) : 0 <= n < 2 ^ 31 -> n = Z.land n (Z.ones 31).
Proof. intros Hn. rewrite Z.land_ones by lia. symmetry. apply Z.mod_small. exact Hn. Qed.

Lemma land_small_bit31 (n : Z) : 0 <= n < 2 ^ 31 -> Z.land n (Z.shiftl 1 31) = 0.
Proof.
  intros Hn. rewrite (small_as_land n Hn), <- Z.land_assoc.
  change (Z.land (Z.ones 31) (Z.shiftl 1 31)) with 0. apply Z.land_0_r.
Qed.

Lemma land_small_lnot31 (n : Z) :
  0 <= n < 2 ^ 31 -> Z.land n (Z.lnot (Z.shiftl 1 31)) = n.
Proof.
  intros Hn. rewrite (small_as_land n Hn) at 1. rewrite <- Z.land_assoc.
  change (Z.land (Z.ones 31) (Z.lnot (Z.shiftl 1 31))) with (Z.ones 31).
  symmetry. apply small_as_land. exact Hn.
Qed.

Lemma lor_bit31 (n : Z) : 0 <= n < 2 ^ 31 -> Z.lor n (Z.shiftl 1 31) = n + 2 ^ 31.
Proof.
  intros Hn. rewrite <- Z.lxor_lor by (apply land_small_bit31; exact Hn).
  rewrite <- Z.add_nocarry_lxor by (apply land_small_bit31; exact Hn).
  reflexivity.
Qed.

Lemma last_word_flag (n : Z) :
  0 <= n < 2 ^ 31 -> Z.land (Z.lor n (Z.shiftl 1 31)) (Z.shiftl 1 31) <> 0.
Proof.
  intros Hn. rewrite Z.land_lor_distr_l, Z.land_diag, land_small_bit31 by exact Hn.
  discriminate.
Qed.

Lemma last_word_len (n : Z) :
  0 <= n < 2 ^ 31 -> Z.land (Z.lor n (Z.shiftl 1 31)) (Z.lnot (Z.shiftl 1 31)) = n.
Proof.
  intros Hn. rewrite Z.land_lor_distr_l, land_small_lnot31 by exact Hn.
  rewrite Z.land_lnot_diag. apply Z.lor_0_r.
Qed.

Lemma len_nonneg {A} (l : list A) : 0 <= len l.
Proof. unfold len. lia. Qed.

Lemma len_app {A} (l k : list A) : len (l ++ k) = len l + len k.
Proof. unfold len. rewrite length_app. lia. Qed.

(** ** Reading from the stream *)

Lemma readexactly_app (f rest : bytes) :
  readexactly (len f) (f ++ rest) = (Ok f, rest).
Proof.
  unfold readexactly.
  rewrite bool_decide_eq_false_2 by (pose proof (len_nonneg f); lia).
  rewrite bool_decide_eq_false_2 by (rewrite len_app; pose proof (len_nonneg rest); lia).
  unfold len. rewrite Nat2Z.id, take_app_length, drop_app_length. reflexivity.
Qed.

Lemma readexactly_be32 (v : Z) (rest : bytes) :
  readexactly 4 (be32 v ++ rest) = (Ok (be32 v), rest).
Proof. apply (readexactly_app (be32 v) rest). Qed.

Lemma readexactly_ok (n : Z) (rd f rd' : bytes) :
  readexactly n rd = (Ok f, rd') -> 0 <= n /\ len f = n /\ rd = f ++ rd'.
Proof.
  unfold readexactly. repeat case_bool_decide; intros E; inversion E; subst.
  split; [lia|]. split.
  - unfold len in *. rewrite length_take. lia.
  - symmetry. apply take_drop.
Qed.

(** The loop of [read_msg_bytes] never needs more than [S (length rd)]
    iterations: the default of [read_stream] is never used. *)
Lemma read_frags_fuel (fuel : nat) :
  forall (acc : bytes) (total : Z) (rd : bytes),
    (length rd < fuel)%nat -> is_Some (read_frags fuel acc total rd).
Proof.
  induction fuel as [|fuel IH]; intros acc total rd Hf; [lia|].
  simpl. destruct (readexactly 4 rd) as [[h4|e] rd1] eqn:E1; [|eauto].
  apply readexactly_ok in E1 as (_ & Hl4 & ->).
  destruct (struct_unpack_L h4) as [fh|e]; [|eauto].
  case_bool_decide; [eauto|].
  destruct (readexactly _ rd1) as [[frag|e] rd2] eqn:E2; [|eauto].
  apply readexactly_ok in E2 as (_ & _ & ->).
  case_bool_decide; [eauto|].
  apply IH. unfold len in Hl4. rewrite !length_app in Hf. lia.
Qed.

Lemma read_stream_fuel (rd : bytes) :
  read_frags (S (length rd)) [] 0 rd = Some (read_stream rd).
Proof.
  unfold read_stream.
  destruct (read_frags_fuel (S (length rd)) [] 0 rd) as [r ->]; [lia|]. reflexivity.
Qed.

(** More fuel does not change a result. *)
Lemma read_frags_mono (fuel : nat) :
  forall (fuel' : nat) (acc : bytes) (total : Z) (rd : bytes) r,
    read_frags fuel acc total rd = Some r -> (fuel <= fuel')%nat ->
    read_frags fuel' acc total rd = Some r.
Proof.
  induction fuel as [|fuel IH]; intros fuel' acc total rd r E Hle; [discriminate|].
  destruct fuel' as [|fuel']; [lia|]. simpl in *.
  destruct (readexactly 4 rd) as [[h4|e] rd1]; [|exact E].
  destruct (struct_unpack_L h4) as [fh|e]; [|exact E].
  case_bool_decide; [exact E|].
  destruct (readexactly _ rd1) as [[frag|e] rd2]; [|exact E].
  case_bool_decide; [exact E|].
  apply IH; [exact E|lia].
Qed.

Lemma read_stream_of_frags (fuel : nat) (rd : bytes) r :
  read_frags fuel [] 0 rd = Some r -> read_stream rd = r.
Proof.
  intros E. destruct (Nat.le_ge_cases fuel (S (length rd))) as [Hle|Hge].
  - pose proof (read_frags_mono _ _ _ _ _ _ E Hle) as E'.
    rewrite read_stream_fuel in E'. congruence.
  - pose proof (read_frags_mono _ _ _ _ _ _ (read_stream_fuel rd) Hge) as E'.
    congruence.
Qed.

(** What [read_msg_bytes] returns never exceeds the limit: the bytes returned
    are as long as the running total that passed the size test. *)
Lemma read_frags_bounded (fuel : nat) :
  forall (acc : bytes) (total : Z) (rd m rd' : bytes),
    read_frags fuel acc total rd = Some (Ok m, rd') ->
    len acc = total -> len m <= MAX_MSG_BYTES.
Proof.
  induction fuel as [|fuel IH]; intros acc total rd m rd' E Hacc; [discriminate|].
  simpl in E. destruct (readexactly 4 rd) as [[h4|e] rd1]; [|discriminate].
  destruct (struct_unpack_L h4) as [fh|e]; [|discriminate].
  case_bool_decide as Hbig; [discriminate|].
  destruct (readexactly _ rd1) as [[frag|e] rd2] eqn:E2; [|discriminate].
  apply readexactly_ok in E2 as (_ & Hfl & _).
  assert (Hnew : len (acc ++ frag) = total + Z.land fh (Z.lnot (Z.shiftl 1 31)))
    by (rewrite len_app; lia).
  case_bool_decide.
  - inversion E; subst. lia.
  - eapply IH; [exact E|exact Hnew].
Qed.

Lemma read_frags_word (fuel : nat) (acc : bytes) (total w : Z) (rest : bytes) :
  0 <= w < 2 ^ 32 ->
  read_frags (S fuel) acc total (be32 w ++ rest) =
    let last_frag := Z.land w (Z.shiftl 1 31) in
    let frag_len := Z.land w (Z.lnot (Z.shiftl 1 31)) in
    if bool_decide (total + frag_len > MAX_MSG_BYTES)
    then Some (Raise (OverlyLarge (total + frag_len) frag_len), rest)
    else
      match readexactly frag_len rest with
      | (Raise e, rd2) => Some (Raise e, rd2)
      | (Ok frag, rd2) =>
          if bool_decide (last_frag <> 0)
          then Some (Ok (acc ++ frag), rd2)
          else read_frags fuel (acc ++ frag) (total + frag_len) rd2
      end.
Proof.
  intros Hw. cbn [read_frags]. rewrite readexactly_be32, struct_unpack_be32 by exact Hw.
  reflexivity.
Qed.

Lemma record_mark_cons (f g : bytes) (fs : list bytes) :
  record_mark (f :: g :: fs) = be32 (len f) ++ f ++ record_mark (g :: fs).
Proof. reflexivity. Qed.

Lemma record_mark_last (f : bytes) :
  record_mark [f] = be32 (Z.lor (len f) (Z.shiftl 1 31)) ++ f.
Proof. reflexivity. Qed.

Lemma len_concat_cons (f : bytes) (fs : list bytes) :
  len (concat (f :: fs)) = len f + len (concat fs).
Proof. cbn [concat]. apply len_app. Qed.

(** A well-marked record within the limit is reassembled in full. *)
Lemma read_frags_record_mark (frags : list bytes) :
  forall (fuel : nat) (acc : bytes) (total : Z) (rest : bytes),
    frags <> [] -> (length frags <= fuel)%nat -> 0 <= total ->
    total + len (concat frags) <= MAX_MSG_BYTES ->
    read_frags fuel acc total (record_mark frags ++ rest) =
      Some (Ok (acc ++ concat frags), rest).
Proof.
  unfold MAX_MSG_BYTES.
  induction frags as [|f fs IH]; intros fuel acc total rest Hne Hfuel Htot Hmax; [done|].
  destruct fuel as [|fuel]; [simpl in Hfuel; lia|].
  rewrite len_concat_cons in Hmax.
  pose proof (len_nonneg f) as Hf. pose proof (len_nonneg (concat fs)) as Hfs.
  assert (Hsmall : 0 <= len f < 2 ^ 31) by lia.
  destruct fs as [|g fs].
  - rewrite record_mark_last, <- !app_assoc.
    rewrite read_frags_word by (rewrite lor_bit31 by exact Hsmall; lia).
    cbv zeta. rewrite last_word_len by exact Hsmall.
    rewrite bool_decide_eq_false_2 by (unfold MAX_MSG_BYTES; lia).
    rewrite readexactly_app.
    rewrite bool_decide_eq_true_2 by (apply last_word_flag; exact Hsmall).
    cbn [concat]. rewrite app_nil_r. reflexivity.
  - rewrite record_mark_cons, <- !app_assoc.
    rewrite read_frags_word by lia.
    cbv zeta. rewrite land_small_lnot31, land_small_bit31 by exact Hsmall.
    rewrite bool_decide_eq_false_2 by (unfold MAX_MSG_BYTES; lia).
    rewrite readexactly_app.
    rewrite bool_decide_eq_false_2 by (intros Hc; apply Hc; reflexivity).
    rewrite IH; [|done|simpl in *; lia|lia|lia].
    cbn [concat]. rewrite <- !app_assoc. reflexivity.
Qed.

(** A well-marked record over the limit is refused at the first fragment
    whose running total exceeds it. *)
Lemma read_frags_too_large (frags : list bytes) :
  forall (fuel : nat) (acc : bytes) (total : Z) (rest : bytes),
    frags <> [] -> (length frags <= fuel)%nat ->
    Forall (fun f => len f < 2 ^ 31) frags ->
    total + len (concat frags) > MAX_MSG_BYTES ->
    exists total_len frag_len rd',
      read_frags fuel acc total (record_mark frags ++ rest) =
        Some (Raise (OverlyLarge total_len frag_len), rd')
      /\ total_len > MAX_MSG_BYTES.
Proof.
  induction frags as [|f fs IH]; intros fuel acc total rest Hne Hfuel Hall Hmax; [done|].
  destruct fuel as [|fuel]; [simpl in Hfuel; lia|].
  rewrite len_concat_cons in Hmax.
  apply Forall_cons in Hall as [Hlt Hall].
  pose proof (len_nonneg f) as Hf.
  assert (Hsmall : 0 <= len f < 2 ^ 31) by lia.
  destruct fs as [|g fs].
  - rewrite record_mark_last, <- !app_assoc.
    rewrite read_frags_word by (rewrite lor_bit31 by exact Hsmall; lia).
    cbv zeta. rewrite last_word_len by exact Hsmall.
    change (len (concat [])) with 0 in Hmax.
    rewrite bool_decide_eq_true_2 by lia.
    eexists _, _, _. split; [reflexivity|lia].
  - rewrite record_mark_cons, <- !app_assoc.
    rewrite read_frags_word by lia.
    cbv zeta. rewrite land_small_lnot31, land_small_bit31 by exact Hsmall.
    case_bool_decide as Hbig.
    + eexists _, _, _. split; [reflexivity|exact Hbig].
    + rewrite readexactly_app.
      rewrite bool_decide_eq_false_2 by (intros Hc; apply Hc; reflexivity).
      apply IH; [done|simpl in *; lia|exact Hall|lia].
Qed.

Lemma read_stream_record_mark (frags : list bytes) (rest : bytes) :
  frags <> [] -> len (concat frags) <= MAX_MSG_BYTES ->
  read_stream (record_mark frags ++ rest) = (Ok (concat frags), rest).
Proof.
  intros Hne Hmax. apply (read_stream_of_frags (length frags)).
  apply (read_frags_record_mark frags _ [] 0 rest); [exact Hne|lia|lia|lia].
Qed.

Lemma read_stream_too_large (frags : list bytes) (rest : bytes) :
  frags <> [] -> Forall (fun f => len f < 2 ^ 31) frags ->
  len (concat frags) > MAX_MSG_BYTES ->
  exists total_len frag_len rd',
    read_stream (record_mark frags ++ rest) = (Raise (OverlyLarge total_len frag_len), rd')
    /\ total_len > MAX_MSG_BYTES.
Proof.
  intros Hne Hall Hmax.
  destruct (read_frags_too_large frags (length frags) [] 0 rest)
    as (t & fl & rd' & E & Ht); [exact Hne|lia|exact Hall|lia|].
  exists t, fl, rd'. split; [|exact Ht].
  apply (read_stream_of_frags (length frags)). exact E.
Qed.

Lemma pack_fstring_len (s : bytes) : pack_fstring (len s) s = Ok (xdr_pad s).
Proof.
  unfold pack_fstring, xdr_pad.
  rewrite bool_decide_eq_false_2 by (pose proof (len_nonneg s); lia).
  replace (take (Z.to_nat (len s)) s) with s; [reflexivity|].
  unfold len. rewrite Nat2Z.id. symmetry. apply firstn_all.
Qed.

Lemma xdr_pad_aligned (s : bytes) : len s mod 4 = 0 -> xdr_pad s = s.
Proof.
  intros Hm. unfold xdr_pad.
  replace (((len s + 3) / 4) * 4 - len s) with 0
    by (pose proof (len_nonneg s); Z.div_mod_to_equations; lia).
  apply app_nil_r.
Qed.

Lemma xdr_pad_unaligned (s : bytes) : len s mod 4 <> 0 -> xdr_pad s <> s.
Proof.
  intros Hm E. apply (f_equal len) in E. unfold xdr_pad in E.
  rewrite len_app in E. unfold len at 2 in E. rewrite length_replicate in E.
  pose proof (len_nonneg s). Z.div_mod_to_equations. lia.
Qed.

Section TransportProperties.
Context `{HeaderCodec}.

Lemma read_msg_bytes_reader (t : TCPTransport) :
  read_msg_bytes t =
    (fst (read_stream (reader t)),
     mkTransport (snd (read_stream (reader t)))
       (reader_eof t || met_eof (fst (read_stream (reader t))))
       (writer t) (writer_closing t)).
Proof. unfold read_msg_bytes. destruct (read_stream (reader t)); reflexivity. Qed.

Lemma read_msg_bytes_ok (t : TCPTransport) (m rd' : bytes) :
  read_stream (reader t) = (Ok m, rd') ->
  read_msg_bytes t = (Ok m, mkTransport rd' (reader_eof t) (writer t) (writer_closing t)).
Proof.
  intros E. rewrite read_msg_bytes_reader, E. cbn [fst snd met_eof].
  rewrite orb_false_r. reflexivity.
Qed.

Lemma read_msg_bytes_raise (t : TCPTransport) (e : exn) (rd' : bytes) :
  read_stream (reader t) = (Raise e, rd') ->
  read_msg_bytes t
    = (Raise e, mkTransport rd' (reader_eof t || met_eof (@Raise bytes e))
                  (writer t) (writer_closing t)).
Proof. intros E. rewrite read_msg_bytes_reader, E. reflexivity. Qed.

(** The bytes [read_msg_bytes] returns are never longer than the limit. *)
Lemma read_msg_bytes_bounded (t t' : TCPTransport) (m : bytes) :
  read_msg_bytes t = (Ok m, t') -> len m <= MAX_MSG_BYTES.
Proof.
  rewrite read_msg_bytes_reader. intros E.
  pose proof (read_stream_fuel (reader t)) as Hf.
  destruct (read_stream (reader t)) as [r rd'] eqn:Er. simpl in E.
  inversion E; subst. eapply read_frags_bounded; [exact Hf|reflexivity].
Qed.

(** What [write_msg_bytes] appends to the writer for a message shorter
    than [2 ^ 31] bytes. *)
Lemma write_msg_bytes_small (m : bytes) (t : TCPTransport) :
  len m < 2 ^ 31 -> writer_closing t = false ->
  write_msg_bytes m t =
    (Ok tt, mkTransport (reader t) (reader_eof t) (writer t ++ record_mark [m]) false).
Proof.
  intros Hm Hc. pose proof (len_nonneg m) as Hn.
  unfold write_msg_bytes, mbind, io_bind, bind, lift, struct_pack_L.
  rewrite bool_decide_eq_true_2 by (rewrite lor_bit31; lia).
  unfold writer_write. rewrite Hc. reflexivity.
Qed.

Lemma read_msg_eq (t : TCPTransport) :
  read_msg t =
    match read_msg_bytes t with
    | (Ok m, t') => (rpc_msg_unpack m, t')
    | (Raise e, t') => (Raise e, t')
    end.
Proof. reflexivity. Qed.
End TransportProperties.

(** ** The transport: size bound, round trip and reassembly *)

Section FramingClaims.
Context `{HeaderCodec}.

(** C4 (size bound).  For a record-marked message at the head of the reader:
    when the cumulative length of its fragments exceeds 100,000 bytes,
    [read_msg_bytes] and [read_msg] raise the "overly large" error, so no
    bytes are returned; when it is at most 100,000 bytes the error is not
    raised and the reassembled bytes are returned.  Whatever the stream
    holds, bytes returned by [read_msg_bytes] are never longer than the
    limit. *)
Theorem C4_size_bound (frags : list bytes) (rest w : bytes) (eof closing : bool) :
  frags <> [] ->
  Forall (fun f => len f < 2 ^ 31) frags ->
  let t := mkTransport (record_mark frags ++ rest) eof w closing in
  (len (concat frags) > 100000 ->
     exists total_len frag_len t',
       read_msg_bytes t = (Raise (OverlyLarge total_len frag_len), t')
       /\ read_msg t = (Raise (OverlyLarge total_len frag_len), t')
       /\ total_len > 100000)
  /\ (len (concat frags) <= 100000 ->
        read_msg_bytes t = (Ok (concat frags), mkTransport rest eof w closing))
  /\ (forall t0 m t', read_msg_bytes t0 = (Ok m, t') -> len m <= 100000).
Proof.
  intros Hne Hall t. split; [|split].
  - intros Hbig.
    destruct (read_stream_too_large frags rest Hne Hall Hbig) as (tl & fl & rd' & E & Htl).
    exists tl, fl, (mkTransport rd' eof w closing).
    assert (Eb : read_msg_bytes t
                 = (Raise (OverlyLarge tl fl), mkTransport rd' eof w closing)).
    { rewrite (read_msg_bytes_raise t _ rd' E). subst t.
      cbn [reader_eof writer writer_closing met_eof]. rewrite orb_false_r. reflexivity. }
    split; [exact Eb|]. split; [|exact Htl].
    rewrite read_msg_eq, Eb. reflexivity.
  - intros Hok. apply read_msg_bytes_ok. subst t. cbn [reader].
    apply read_stream_record_mark; assumption.
  - intros t0 m t' E. exact (read_msg_bytes_bounded t0 t' m E).
Qed.

(** C6 (fragment reassembly).  A payload within the limit that arrives split
    into several fragments, only the last one marked final, is read as the
    same bytes, with the same rest of the stream, as when it arrives as one
    final fragment; [read_msg] gives the same result on both. *)
Theorem C6_fragment_reassembly (frags : list bytes) (rest w : bytes) (eof closing : bool) :
  frags <> [] ->
  len (concat frags) <= 100000 ->
  let split := mkTransport (record_mark frags ++ rest) eof w closing in
  let whole := mkTransport (record_mark [concat frags] ++ rest) eof w closing in
  read_msg_bytes split = (Ok (concat frags), mkTransport rest eof w closing)
  /\ read_msg_bytes split = read_msg_bytes whole
  /\ read_msg split = read_msg whole.
Proof.
  intros Hne Hmax split whole.
  assert (Es : read_msg_bytes split = (Ok (concat frags), mkTransport rest eof w closing)).
  { apply read_msg_bytes_ok. subst split. cbn [reader].
    apply read_stream_record_mark; assumption. }
  assert (Ew : read_msg_bytes whole = (Ok (concat frags), mkTransport rest eof w closing)).
  { apply read_msg_bytes_ok. subst whole. cbn [reader].
    rewrite read_stream_record_mark; [|discriminate|].
    - cbn [concat]. rewrite app_nil_r. reflexivity.
    - cbn [concat]. rewrite app_nil_r. exact Hmax. }
  split; [exact Es|]. split; [congruence|].
  rewrite !read_msg_eq, Es, Ew. reflexivity.
Qed.

(** What a write followed by a read on a connected pair gives, for a header
    the codec packs to [hb]. *)
Lemma write_then_read_eq (h : v_rpc_msg) (payload hb : bytes) :
  rpc_msg_pack h = Ok hb ->
  len hb + len (xdr_pad payload) <= 100000 ->
  write_then_read h payload = rpc_msg_unpack (hb ++ xdr_pad payload).
Proof.
  intros Hp Hlen. unfold write_then_read, write_msg, mbind, io_bind, bind, lift.
  rewrite Hp, pack_fstring_len.
  rewrite write_msg_bytes_small; [|rewrite len_app; lia|reflexivity].
  cbn [writer fresh_transport receiving app fst].
  rewrite read_msg_eq, read_msg_bytes_reader. cbn [reader receiving].
  rewrite <- (app_nil_r (record_mark _)).
  rewrite read_stream_record_mark; [|discriminate|].
  - cbn [concat fst]. rewrite app_nil_r. reflexivity.
  - cbn [concat]. rewrite app_nil_r, len_app. exact Hlen.
Qed.

Lemma write_then_read_too_large (h : v_rpc_msg) (payload hb : bytes) :
  rpc_msg_pack h = Ok hb ->
  100000 < len hb + len (xdr_pad payload) < 2 ^ 31 ->
  exists total_len frag_len,
    write_then_read h payload = Raise (OverlyLarge total_len frag_len).
Proof.
  intros Hp Hlen. unfold write_then_read, write_msg, mbind, io_bind, bind, lift.
  rewrite Hp, pack_fstring_len.
  rewrite write_msg_bytes_small; [|rewrite len_app; lia|reflexivity].
  cbn [writer fresh_transport receiving app fst].
  rewrite read_msg_eq, read_msg_bytes_reader. cbn [reader receiving].
  rewrite <- (app_nil_r (record_mark _)).
  destruct (read_stream_too_large [hb ++ xdr_pad payload] [])
    as (tl & fl & rd' & E & _); [discriminate| | |].
  - constructor; [rewrite len_app; lia|constructor].
  - cbn [concat]. rewrite app_nil_r, len_app. unfold MAX_MSG_BYTES. lia.
  - rewrite E. exists tl, fl. reflexivity.
Qed.

Lemma readexactly_take (n : Z) (rd : bytes) :
  0 <= n <= len rd ->
  readexactly n rd = (Ok (take (Z.to_nat n) rd), drop (Z.to_nat n) rd).
Proof.
  intros Hn. unfold readexactly.
  rewrite bool_decide_eq_false_2 by lia. rewrite bool_decide_eq_false_2 by lia.
  reflexivity.
Qed.

(** From [2 ^ 31] on, bit 31 of a length is the bit that marks the last
    fragment: the length word of [write_msg_bytes] is the length itself,
    and a reader takes the length less [2 ^ 31] for the fragment's length. *)
Lemma lor_bit31_high (n : Z) :
  2 ^ 31 <= n < 2 ^ 32 ->
  Z.lor n (Z.shiftl 1 31) = n
  /\ Z.land n (Z.shiftl 1 31) <> 0
  /\ Z.land n (Z.lnot (Z.shiftl 1 31)) = n - 2 ^ 31.
Proof.
  intros Hn. assert (Hm : 0 <= n - 2 ^ 31 < 2 ^ 31) by lia.
  assert (E : n = Z.lor (n - 2 ^ 31) (Z.shiftl 1 31)) by (rewrite lor_bit31 by exact Hm; lia).
  split; [|split].
  - rewrite E at 1. rewrite <- Z.lor_assoc, Z.lor_diag. symmetry. exact E.
  - rewrite E. apply last_word_flag. exact Hm.
  - rewrite E at 1. apply last_word_len. exact Hm.
Qed.

Lemma lor_bit31_lower (n : Z) : n <= Z.lor n (Z.shiftl 1 31).
Proof.
  pose proof (Z.sub_lor_l_same_l (Z.shiftl 1 31) n) as E.
  assert (0 <= Z.land (Z.shiftl 1 31) (Z.lnot n))
    by (apply Z.land_nonneg; left; discriminate).
  lia.
Qed.

(** A message of [2 ^ 31] bytes or more: up to [2 ^ 32] the length word
    wraps, and the read takes only the length less [2 ^ 31]; from [2 ^ 32]
    on the length word cannot be packed and the write fails. *)
Lemma write_then_read_wrapped (h : v_rpc_msg) (payload hb : bytes) :
  rpc_msg_pack h = Ok hb ->
  let total := len hb + len (xdr_pad payload) in
  2 ^ 31 <= total < 2 ^ 32 ->
  write_then_read h payload
    = if bool_decide (total - 2 ^ 31 > 100000)
      then Raise (OverlyLarge (total - 2 ^ 31) (total - 2 ^ 31))
      else rpc_msg_unpack (take (Z.to_nat (total - 2 ^ 31)) (hb ++ xdr_pad payload)).
Proof.
  intros Hp total Hlen. unfold write_then_read, write_msg, mbind, io_bind, bind, lift.
  rewrite Hp, pack_fstring_len.
  assert (Hm : len (hb ++ xdr_pad payload) = total) by apply len_app.
  destruct (lor_bit31_high total Hlen) as (Hlor & Hflag & Hland).
  unfold write_msg_bytes, mbind, io_bind, bind, lift, struct_pack_L.
  rewrite Hm, Hlor. rewrite bool_decide_eq_true_2 by lia.
  cbn [writer_write fresh_transport receiving writer_closing writer app fst].
  rewrite read_msg_eq, read_msg_bytes_reader. cbn [reader receiving].
  assert (E : read_stream (be32 total ++ hb ++ xdr_pad payload)
              = if bool_decide (total - 2 ^ 31 > 100000)
                then (Raise (OverlyLarge (total - 2 ^ 31) (total - 2 ^ 31)),
                      hb ++ xdr_pad payload)
                else (Ok (take (Z.to_nat (total - 2 ^ 31)) (hb ++ xdr_pad payload)),
                      drop (Z.to_nat (total - 2 ^ 31)) (hb ++ xdr_pad payload))).
  { apply (read_stream_of_frags 1). rewrite read_frags_word by lia. cbv zeta.
    rewrite Hland. change (0 + (total - 2 ^ 31)) with (total - 2 ^ 31).
    unfold MAX_MSG_BYTES. case_bool_decide; [reflexivity|].
    rewrite readexactly_take by lia.
    rewrite bool_decide_eq_true_2 by exact Hflag. reflexivity. }
  rewrite E. case_bool_decide; reflexivity.
Qed.

Lemma write_then_read_unpackable (h : v_rpc_msg) (payload hb : bytes) :
  rpc_msg_pack h = Ok hb ->
  2 ^ 32 <= len hb + len (xdr_pad payload) ->
  write_then_read h payload = Raise StructError.
Proof.
  intros Hp Hlen. unfold write_then_read, write_msg, mbind, io_bind, bind, lift.
  rewrite Hp, pack_fstring_len.
  unfold write_msg_bytes, mbind, io_bind, bind, lift, struct_pack_L.
  rewrite bool_decide_eq_false_2; [reflexivity|].
  pose proof (lor_bit31_lower (len (hb ++ xdr_pad payload))) as Hl.
  rewrite len_app in *. lia.
Qed.

(** C5, as amended (round trip).  For a header [h] that the header codec
    packs to [hb] and unpacks again, and any payload: when [hb] and the
    payload padded with zero bytes to a multiple of four are together at
    most 100,000 bytes long, writing the message and reading it back on the
    other end yields [h] and the padded payload, which is the original
    payload exactly when its length is a multiple of four; when they are
    longer than 100,000 bytes and shorter than [2 ^ 31] bytes, reading fails
    with the size error.  From [2 ^ 31] bytes on the length does not fit the
    31 bits of the length word: below [2 ^ 32] bytes the read takes the
    length less [2 ^ 31] for the length of the message, and from [2 ^ 32]
    bytes on the write fails. *)
Theorem C5_round_trip_padded (h : v_rpc_msg) (payload hb : bytes) :
  rpc_msg_pack h = Ok hb ->
  rpc_msg_unpack (hb ++ xdr_pad payload) = Ok (h, xdr_pad payload) ->
  let total := len hb + len (xdr_pad payload) in
  (total <= 100000 ->
     write_then_read h payload = Ok (h, xdr_pad payload)
     /\ (xdr_pad payload = payload <-> len payload mod 4 = 0))
  /\ (100000 < total < 2 ^ 31 ->
        exists total_len frag_len,
          write_then_read h payload = Raise (OverlyLarge total_len frag_len))
  /\ (2 ^ 31 <= total < 2 ^ 32 ->
        write_then_read h payload
          = if bool_decide (total - 2 ^ 31 > 100000)
            then Raise (OverlyLarge (total - 2 ^ 31) (total - 2 ^ 31))
            else rpc_msg_unpack (take (Z.to_nat (total - 2 ^ 31)) (hb ++ xdr_pad payload)))
  /\ (2 ^ 32 <= total -> write_then_read h payload = Raise StructError).
Proof.
  intros Hp Hu total. split; [|split; [|split]].
  - intros Hlen. split.
    + rewrite (write_then_read_eq h payload hb Hp Hlen). exact Hu.
    + split.
      * intros E. destruct (decide (len payload mod 4 = 0)) as [Hm|Hm]; [exact Hm|].
        exfalso. exact (xdr_pad_unaligned payload Hm E).
      * apply xdr_pad_aligned.
  - intros Hbig. apply (write_then_read_too_large h payload hb Hp). exact Hbig.
  - apply (write_then_read_wrapped h payload hb Hp).
  - apply (write_then_read_unpackable h payload hb Hp).
Qed.
End FramingClaims.

Lemma len_replicate {A} (n : Z) (x : A) : 0 <= n -> len (replicate (Z.to_nat n) x) = n.
Proof. intros Hn. unfold len. rewrite length_replicate. lia. Qed.

Lemma len_xdr_pad (s : bytes) : len (xdr_pad s) = ((len s + 3) / 4) * 4.
Proof.
  unfold xdr_pad. rewrite len_app. unfold len at 2. rewrite length_replicate.
  pose proof (len_nonneg s). Z.div_mod_to_equations. lia.
Qed.

(** C4 at two fragments of 60,000 bytes (refused) and at fragments of two
    and one bytes (returned). *)
Lemma C4_size_bound_witness :
  let big := [replicate (Z.to_nat 60000) Byte.x00; replicate (Z.to_nat 60000) Byte.x00] in
  let small := [[Byte.x01; Byte.x02]; [Byte.x03]] in
  (big <> [] /\ Forall (fun f => len f < 2 ^ 31) big /\ len (concat big) > 100000
   /\ exists total_len frag_len t',
        @read_msg Rfc1831.codec (mkTransport (record_mark big ++ []) false [] false)
          = (Raise (OverlyLarge total_len frag_len), t'))
  /\ (small <> [] /\ Forall (fun f => len f < 2 ^ 31) small /\ len (concat small) <= 100000
      /\ read_msg_bytes (mkTransport (record_mark small ++ [Byte.x09]) false [] false)
           = (Ok [Byte.x01; Byte.x02; Byte.x03], mkTransport [Byte.x09] false [] false)).
Proof.
  intros big small.
  assert (Hbig : Forall (fun f => len f < 2 ^ 31) big).
  { repeat constructor; rewrite len_replicate; lia. }
  assert (Hlen : len (concat big) > 100000).
  { subst big. cbn [concat]. rewrite !len_app, !len_replicate by lia.
    change (len []) with 0. lia. }
  assert (Hsmall : Forall (fun f => len f < 2 ^ 31) small).
  { repeat constructor; unfold len; simpl; lia. }
  assert (Hlen' : len (concat small) <= 100000) by (unfold len; simpl; lia).
  split.
  - split; [discriminate|]. split; [exact Hbig|]. split; [exact Hlen|].
    destruct (@C4_size_bound Rfc1831.codec big [] [] false false ltac:(discriminate) Hbig)
      as [Hover _].
    destruct (Hover Hlen) as (tl & fl & t' & _ & E & _).
    exists tl, fl, t'. exact E.
  - split; [discriminate|]. split; [exact Hsmall|]. split; [exact Hlen'|].
    destruct (@C4_size_bound Rfc1831.codec small [Byte.x09] [] false false
                ltac:(discriminate) Hsmall) as (_ & Hok & _).
    exact (Hok Hlen').
Defined.

(** C6 at the fragments [[1; 2]], [[3]] and [[4]]. *)
Lemma C6_fragment_reassembly_witness :
  let frags := [[Byte.x01; Byte.x02]; [Byte.x03]; [Byte.x04]] in
  frags <> [] /\ len (concat frags) <= 100000
  /\ read_msg_bytes (mkTransport (record_mark frags ++ []) false [] false)
       = read_msg_bytes (mkTransport (record_mark [concat frags] ++ []) false [] false).
Proof.
  intros frags.
  assert (Hlen : len (concat frags) <= 100000) by (unfold len; simpl; lia).
  split; [discriminate|]. split; [exact Hlen|].
  destruct (@C6_fragment_reassembly Rfc1831.codec frags [] [] false false
              ltac:(discriminate) Hlen) as (_ & E & _).
  exact E.
Defined.

Lemma system_err_reply_packed :
  Rfc1831.pack_rpc_msg (make_reply 7 MSG_ACCEPTED SYSTEM_ERR)
    = Ok (be32 7 ++ be32 1 ++ be32 0 ++ be32 0 ++ be32 0 ++ be32 5).
Proof. vm_compute. reflexivity. Qed.

(** C5 as stated fails: a payload of one byte comes back as four bytes, and
    a payload of 100,000 bytes makes the read fail, since the limit counts
    the packed header too. *)
Lemma C5_round_trip_counterexample :
  let h := make_reply 7 MSG_ACCEPTED SYSTEM_ERR in
  (0 <= len [Byte.x01] <= 100000
   /\ @write_then_read Rfc1831.codec h [Byte.x01]
        = Ok (h, [Byte.x01; Byte.x00; Byte.x00; Byte.x00])
   /\ @write_then_read Rfc1831.codec h [Byte.x01] <> Ok (h, [Byte.x01]))
  /\ (0 <= len (replicate (Z.to_nat 100000) Byte.x00) <= 100000
      /\ @write_then_read Rfc1831.codec h (replicate (Z.to_nat 100000) Byte.x00)
           <> Ok (h, replicate (Z.to_nat 100000) Byte.x00)).
Proof.
  intros h. split.
  - assert (E : @write_then_read Rfc1831.codec h [Byte.x01]
                = Ok (h, [Byte.x01; Byte.x00; Byte.x00; Byte.x00])) by (vm_compute; reflexivity).
    split; [unfold len; simpl; lia|]. split; [exact E|].
    rewrite E. intros Heq. inversion Heq.
  - split; [rewrite len_replicate; lia|].
    generalize (replicate (Z.to_nat 100000) Byte.x00), (@len_replicate byte 100000 Byte.x00).
    intros payload Hpl.
    destruct (@write_then_read_too_large Rfc1831.codec h payload _ system_err_reply_packed)
      as (tl & fl & E).
    + rewrite len_xdr_pad, Hpl by lia. vm_compute. split; reflexivity.
    + rewrite E. discriminate.
Defined.

(** C5, as amended, at a header of 24 bytes with a payload of four bytes. *)
Lemma C5_round_trip_padded_witness :
  let h := make_reply 7 MSG_ACCEPTED SYSTEM_ERR in
  let payload := [Byte.x01; Byte.x02; Byte.x03; Byte.x04] in
  let hb := be32 7 ++ be32 1 ++ be32 0 ++ be32 0 ++ be32 0 ++ be32 5 in
  Rfc1831.pack_rpc_msg h = Ok hb
  /\ Rfc1831.unpack_rpc_msg (hb ++ xdr_pad payload) = Ok (h, xdr_pad payload)
  /\ len hb + len (xdr_pad payload) <= 100000
  /\ @write_then_read Rfc1831.codec h payload = Ok (h, payload).
Proof.
  intros h payload hb.
  assert (Hu : Rfc1831.unpack_rpc_msg (hb ++ xdr_pad payload) = Ok (h, xdr_pad payload))
    by (vm_compute; reflexivity).
  assert (Hle : len hb + len (xdr_pad payload) <= 100000) by (vm_compute; intros Hc; discriminate Hc).
  split; [exact system_err_reply_packed|]. split; [exact Hu|]. split; [exact Hle|].
  destruct (@C5_round_trip_padded Rfc1831.codec h payload hb system_err_reply_packed Hu)
    as [Hok _].
  destruct (Hok Hle) as [E Hpad].
  rewrite E. rewrite (proj2 Hpad); [reflexivity|]. vm_compute. reflexivity.
Defined.

(** ** The client: the pending-call table *)

Section ClientProperties.
Context `{HeaderCodec} {value : Type}.
Implicit Types (c : TCPClient value) (m : SPLIT_MSG).

Lemma table_sound_init (prog vers : Z) (procs : gmap Z (Proc value)) :
  table_sound (TCPClient_init prog vers procs).
Proof. intros x i E. cbn in E. rewrite lookup_empty in E. discriminate. Qed.

Lemma pending_registered_init (prog vers : Z) (procs : gmap Z (Proc value)) :
  pending_registered (TCPClient_init prog vers procs).
Proof. intros i k E. cbn in E. rewrite lookup_nil in E. discriminate. Qed.

(** *** [pump_reply] *)

Lemma pump_reply_miss c m :
  mtype (header m.1) <> REPLY \/ xid_map c !! xid m.1 = None ->
  pump_reply m c = (Ok tt, c).
Proof.
  destruct m as [reply reply_body]. unfold pump_reply. cbn [fst]. intros [Hn|Hn].
  - rewrite bool_decide_eq_false_2 by exact Hn. reflexivity.
  - case_bool_decide; cbn [negb]; [rewrite Hn|]; reflexivity.
Qed.

Lemma pump_reply_hit c (reply : v_rpc_msg) (reply_body : bytes) (i : nat) (k : call) :
  mtype (header reply) = REPLY ->
  xid_map c !! xid reply = Some i ->
  calls c !! i = Some k ->
  c_fut k = Pending ->
  pump_reply (reply, reply_body) c =
    (Ok tt,
     set_calls (<[i := mkCall (c_xid k) (c_proc k) (Result (reply, reply_body)) (c_written k)]>
                  (calls c))
       (set_xid_map (delete (xid reply) (xid_map c)) c)).
Proof.
  intros Ht Hx Hk Hp. unfold pump_reply, set_result.
  rewrite bool_decide_eq_true_2 by exact Ht. cbn [negb]. rewrite Hx.
  unfold set_xid_map at 1. cbn [calls]. rewrite Hk.
  destruct k as [x p f w]. cbn in Hp. subst f. reflexivity.
Qed.

(** The three outcomes of [pump_reply] on a sound table. *)
Lemma pump_reply_cases c m :
  table_sound c ->
  pump_reply m c = (Ok tt, c)
  \/ exists i k,
       mtype (header m.1) = REPLY
       /\ xid_map c !! xid m.1 = Some i
       /\ calls c !! i = Some k /\ c_xid k = xid m.1 /\ c_fut k = Pending
       /\ pump_reply m c =
            (Ok tt,
             set_calls (<[i := mkCall (c_xid k) (c_proc k) (Result m) (c_written k)]> (calls c))
               (set_xid_map (delete (xid m.1) (xid_map c)) c)).
Proof.
  intros Hs. destruct (decide (mtype (header m.1) = REPLY)) as [Ht|Ht];
    [|left; apply pump_reply_miss; left; exact Ht].
  destruct (xid_map c !! xid m.1) as [i|] eqn:Hx;
    [|left; apply pump_reply_miss; right; exact Hx].
  destruct (Hs _ _ Hx) as (k & Hk & Hkx & Hp).
  right. exists i, k. split; [exact Ht|]. split; [reflexivity|]. do 3 (split; [assumption|]).
  destruct m as [reply reply_body]. apply pump_reply_hit; assumption.
Qed.

Lemma pump_reply_table_sound c m :
  table_sound c -> table_sound (snd (pump_reply m c)).
Proof.
  intros Hs. destruct (pump_reply_cases c m Hs) as [->|(i & k & _ & Hx & Hk & Hkx & Hp & ->)];
    [exact Hs|].
  intros x j Hj. cbn in Hj. cbn [snd set_calls set_xid_map calls].
  apply lookup_delete_Some in Hj as [Hne Hj].
  destruct (Hs _ _ Hj) as (k' & Hk' & Hkx' & Hp').
  assert (Hij : i <> j) by (intros ->; congruence).
  exists k'. rewrite list_lookup_insert_ne by exact Hij. auto.
Qed.

Lemma pump_reply_pending_registered c m :
  table_sound c -> pending_registered c -> pending_registered (snd (pump_reply m c)).
Proof.
  intros Hs Hr. destruct (pump_reply_cases c m Hs) as [->|(i & k & _ & Hx & Hk & Hkx & Hp & ->)];
    [exact Hr|].
  intros j kj Hj Hpj. cbn [snd set_calls set_xid_map calls xid_map] in *.
  destruct (decide (i = j)) as [->|Hij].
  - rewrite list_lookup_insert_eq in Hj by (eapply lookup_lt_Some; exact Hk).
    inversion Hj; subst kj. discriminate Hpj.
  - rewrite list_lookup_insert_ne in Hj by exact Hij.
    pose proof (Hr _ _ Hj Hpj) as Hreg.
    rewrite lookup_delete_ne; [exact Hreg|].
    intros Heq. rewrite <- Heq, Hx in Hreg. congruence.
Qed.

(** A resolved future is never touched again. *)
Lemma pump_reply_keeps_result c m (i : nat) (k : call) (r : SPLIT_MSG) :
  table_sound c -> calls c !! i = Some k -> c_fut k = Result r ->
  calls (snd (pump_reply m c)) !! i = Some k.
Proof.
  intros Hs Hk Hres.
  destruct (pump_reply_cases c m Hs) as [->|(j & kj & _ & Hx & Hkj & _ & Hp & ->)];
    [exact Hk|].
  cbn [snd set_calls calls]. rewrite list_lookup_insert_ne; [exact Hk|].
  intros ->. congruence.
Qed.

(** *** [send_call] *)

Lemma send_call_register_eq (proc_id x : Z) c :
  send_call_register proc_id x c =
    (Ok (length (calls c)),
     set_xid_map (<[x := length (calls c)]> (xid_map c))
       (set_calls (calls c ++ [mkCall x proc_id Pending false]) c)).
Proof. reflexivity. Qed.

Lemma send_call_write_state (fut : nat) (proc_id x : Z) (args : list value) c :
  let c' := snd (send_call_write fut proc_id x args c) in
  xid_map c' = xid_map c
  /\ (calls c' = calls c
      \/ fst (send_call_write fut proc_id x args c) = Ok tt
         /\ calls c' = alter (fun k => mkCall (c_xid k) (c_proc k) (c_fut k) true) fut (calls c)).
Proof.
  unfold send_call_write. destruct (transport c) as [t|]; [|cbn; auto].
  destruct (pack_args proc_id args c) as [packed|e]; [|cbn; auto].
  destruct (write_msg _ packed t) as [[[]|e] t']; cbn; auto.
Qed.

(** The state [send_call] leaves: unchanged when the connection could not be
    made, and otherwise one more activation, pending and registered under
    the transaction id. *)
Lemma send_call_state (proc_id : Z) (args : list value) (xid : option Z) (rand : Z)
    (conn : result TCPTransport) c :
  let x := match xid with None => gen_xid rand | Some x => x end in
  let c' := snd (send_call proc_id args xid rand conn c) in
  c' = c
  \/ xid_map c' = <[x := length (calls c)]> (xid_map c)
     /\ exists w, calls c' = calls c ++ [mkCall x proc_id Pending w].
Proof.
  intros x c'. subst c'. unfold send_call. fold x.
  unfold mbind, io_bind, bind, mret, io_ret, ret.
  set (c1 := (if bool_decide (transport c = None) then connect conn else _) c).
  assert (Hc1 : c1 = (Ok tt, c) \/ (exists e, c1 = (Raise e, c))
                \/ exists t, c1 = (Ok tt, set_transport t c)).
  { subst c1. case_bool_decide; [|auto]. destruct conn as [t|e]; cbn; eauto. }
  destruct Hc1 as [->|[[e ->]|[t ->]]]; [|left; reflexivity|].
  - right. rewrite send_call_register_eq.
    pose proof (send_call_write_state (length (calls c)) proc_id x args
                  (set_xid_map (<[x := length (calls c)]> (xid_map c))
                     (set_calls (calls c ++ [mkCall x proc_id Pending false]) c)))
      as [Hm Hc].
    destruct (send_call_write _ _ _ _ _) as [[[]|e] c2]; cbn [snd fst] in *;
      (split; [exact Hm|]); destruct Hc as [Hc|[_ Hc]]; rewrite Hc; cbn [calls set_xid_map set_calls];
      try (eexists; reflexivity);
      rewrite <- (Nat.add_0_r (length (calls c))), alter_app_r; eexists; reflexivity.
  - right. rewrite send_call_register_eq.
    pose proof (send_call_write_state (length (calls (set_transport t c))) proc_id x args
                  (set_xid_map (<[x := length (calls (set_transport t c))]>
                                  (xid_map (set_transport t c)))
                     (set_calls (calls (set_transport t c) ++ [mkCall x proc_id Pending false])
                        (set_transport t c))))
      as [Hm Hc].
    destruct (send_call_write _ _ _ _ _) as [[[]|e] c2]; cbn [snd fst] in *;
      (split; [exact Hm|]); destruct Hc as [Hc|[_ Hc]]; rewrite Hc;
      cbn [calls set_xid_map set_calls set_transport];
      try (eexists; reflexivity);
      rewrite <- (Nat.add_0_r (length (calls c))), alter_app_r; eexists; reflexivity.
Qed.

Lemma table_sound_extend c c' (x p : Z) (w : bool) :
  table_sound c ->
  xid_map c' = <[x := length (calls c)]> (xid_map c) ->
  calls c' = calls c ++ [mkCall x p Pending w] ->
  table_sound c'.
Proof.
  intros Hs Hm Hc y j Hj. rewrite Hm in Hj. rewrite Hc.
  destruct (decide (x = y)) as [->|Hxy].
  - rewrite lookup_insert_eq in Hj. inversion Hj; subst j.
    exists (mkCall y p Pending w). split; [|auto].
    apply list_lookup_middle. reflexivity.
  - rewrite lookup_insert_ne in Hj by exact Hxy.
    destruct (Hs _ _ Hj) as (k & Hk & Hkx & Hp). exists k. split; [|auto].
    rewrite lookup_app_l; [exact Hk|]. eapply lookup_lt_Some. exact Hk.
Qed.

Lemma pending_registered_extend c c' (x p : Z) (w : bool) :
  pending_registered c ->
  xid_map c !! x = None ->
  xid_map c' = <[x := length (calls c)]> (xid_map c) ->
  calls c' = calls c ++ [mkCall x p Pending w] ->
  pending_registered c'.
Proof.
  intros Hr Hfresh Hm Hc j kj Hj Hp. rewrite Hm. rewrite Hc in Hj.
  apply lookup_snoc_Some in Hj as [[_ Hj]|[-> <-]].
  - pose proof (Hr _ _ Hj Hp) as Hreg.
    rewrite lookup_insert_ne; [exact Hreg|]. intros ->. congruence.
  - cbn [c_xid]. apply lookup_insert_eq.
Qed.

(** *** Runs *)

Lemma connect_state (conn : result TCPTransport) c :
  xid_map (snd (connect conn c)) = xid_map c /\ calls (snd (connect conn c)) = calls c.
Proof. destruct conn; cbn; auto. Qed.

Lemma client_step_table_sound (op : client_op) c :
  table_sound c -> table_sound (client_step op c).
Proof.
  intros Hs. destruct op as [conn|proc_id args xid rand conn|m]; cbn [client_step].
  - destruct (connect_state conn c) as [Hm Hc]. intros x i. rewrite Hm, Hc. apply Hs.
  - destruct (send_call_state proc_id args xid rand conn c) as [->|[Hm [w Hc]]]; [exact Hs|].
    eapply table_sound_extend; eassumption.
  - apply pump_reply_table_sound. exact Hs.
Qed.

Lemma client_step_pending_registered (op : client_op) c :
  table_sound c -> pending_registered c ->
  match op_xid op with Some x => xid_map c !! x = None | None => True end ->
  pending_registered (client_step op c).
Proof.
  intros Hs Hr Hfresh. destruct op as [conn|proc_id args xid rand conn|m]; cbn [client_step].
  - destruct (connect_state conn c) as [Hm Hc]. intros i k. rewrite Hm, Hc. apply Hr.
  - destruct (send_call_state proc_id args xid rand conn c) as [->|[Hm [w Hc]]]; [exact Hr|].
    eapply pending_registered_extend; [exact Hr| |exact Hm|exact Hc].
    destruct xid; exact Hfresh.
  - apply pump_reply_pending_registered; assumption.
Qed.

Lemma client_step_keeps_result (op : client_op) c (i : nat) (k : call) (r : SPLIT_MSG) :
  table_sound c -> calls c !! i = Some k -> c_fut k = Result r ->
  calls (client_step op c) !! i = Some k.
Proof.
  intros Hs Hk Hres. destruct op as [conn|proc_id args xid rand conn|m]; cbn [client_step].
  - destruct (connect_state conn c) as [_ ->]. exact Hk.
  - destruct (send_call_state proc_id args xid rand conn c) as [->|[_ [w ->]]]; [exact Hk|].
    rewrite lookup_app_l; [exact Hk|]. eapply lookup_lt_Some. exact Hk.
  - eapply pump_reply_keeps_result; eassumption.
Qed.

Lemma client_run_table_sound (ops : list client_op) c :
  table_sound c -> table_sound (client_run ops c).
Proof.
  revert c. induction ops as [|op ops IH]; intros c Hs; [exact Hs|].
  cbn. apply IH. apply client_step_table_sound. exact Hs.
Qed.

Lemma client_run_pending_registered (ops : list client_op) c :
  table_sound c -> pending_registered c -> fresh_run ops c ->
  pending_registered (client_run ops c).
Proof.
  revert c. induction ops as [|op ops IH]; intros c Hs Hr Hf; [exact Hr|].
  cbn in *. destruct Hf as [Hx Hf]. apply IH; [|apply client_step_pending_registered|]; auto.
  apply client_step_table_sound. exact Hs.
Qed.
End ClientProperties.

Lemma read_frags_shrinks (fuel : nat) :
  forall (acc : bytes) (total : Z) (rd m rd' : bytes),
    read_frags fuel acc total rd = Some (Ok m, rd') ->
    (length rd' + 4 <= length rd)%nat.
Proof.
  induction fuel as [|fuel IH]; intros acc total rd m rd' E; [discriminate|].
  simpl in E. destruct (readexactly 4 rd) as [[h4|e] rd1] eqn:E1; [|discriminate].
  apply readexactly_ok in E1 as (_ & Hl4 & ->).
  destruct (struct_unpack_L h4) as [fh|e]; [|discriminate].
  case_bool_decide; [discriminate|].
  destruct (readexactly _ rd1) as [[frag|e] rd2] eqn:E2; [|discriminate].
  apply readexactly_ok in E2 as (_ & _ & ->).
  unfold len in Hl4. rewrite !length_app.
  case_bool_decide.
  - inversion E; subst. lia.
  - apply IH in E. lia.
Qed.

Section PumpProperties.
Context `{HeaderCodec} {value : Type}.
Implicit Types (c : TCPClient value) (m : SPLIT_MSG).

Lemma read_msg_shrinks (t t' : TCPTransport) m :
  read_msg t = (Ok m, t') -> (length (reader t') < length (reader t))%nat.
Proof.
  rewrite read_msg_eq, read_msg_bytes_reader.
  pose proof (read_stream_fuel (reader t)) as Hf.
  destruct (read_stream (reader t)) as [[b|e] rd'] eqn:Er; cbn [fst snd]; intros E;
    [|discriminate].
  apply read_frags_shrinks in Hf. inversion E; subst. cbn [reader]. lia.
Qed.

Lemma pump_reply_transport c m : transport (snd (pump_reply m c)) = transport c.
Proof.
  destruct m as [reply reply_body]. unfold pump_reply, set_result.
  destruct (negb _); [reflexivity|].
  destruct (xid_map c !! xid reply) as [i|]; [|reflexivity].
  cbn [set_xid_map calls]. destruct (calls c !! i) as [[x p [| |] w]|]; reflexivity.
Qed.

Lemma pump_reply_no_exception c m (i : nat) (k : call) (e : exn) :
  table_sound c ->
  calls (snd (pump_reply m c)) !! i = Some k -> c_fut k = Exception e ->
  calls c !! i = Some k.
Proof.
  intros Hs Hk He.
  destruct (pump_reply_cases c m Hs) as [E|(j & kj & _ & _ & Hkj & _ & _ & E)];
    rewrite E in Hk; [exact Hk|].
  cbn [snd set_calls calls] in Hk. destruct (decide (j = i)) as [->|Hji].
  - rewrite list_lookup_insert_eq in Hk by (eapply lookup_lt_Some; exact Hkj).
    inversion Hk; subst k. discriminate He.
  - rewrite list_lookup_insert_ne in Hk by exact Hji. exact Hk.
Qed.

Lemma set_transport_table_sound (t : TCPTransport) c :
  table_sound c -> table_sound (set_transport t c).
Proof. intros Hs. exact Hs. Qed.

Lemma set_transport_same (t : TCPTransport) c :
  transport c = Some t -> set_transport t c = c.
Proof. destruct c as [pg vs ps tr xm cs]. cbn. intros ->. reflexivity. Qed.

Lemma closed_feed_eof (t : TCPTransport) : closed t = true -> closed (feed_eof t) = true.
Proof.
  unfold closed, at_eof, feed_eof. cbn [reader reader_eof writer_closing].
  destruct (reader_eof t), (bool_decide (reader t = [])), (writer_closing t);
    cbn; congruence.
Qed.

(** When the reply pump has stopped, the table is still sound and no future
    has been given an exception. *)
Lemma pump_replies_inv (eofs : list bool) :
  forall c r c',
    table_sound c -> pump_replies eofs c = Some (r, c') ->
    table_sound c'
    /\ forall i k e, calls c' !! i = Some k -> c_fut k = Exception e -> calls c !! i = Some k.
Proof.
  induction eofs as [|eof eofs IH]; intros c r c' Hs E; [discriminate|].
  cbn [pump_replies] in E.
  destruct (transport c) as [t0|]; [|inversion E; subst; auto].
  cbv zeta in E. set (t := if eof then feed_eof t0 else t0) in E.
  destruct (closed t); [inversion E; subst; auto|].
  destruct (read_msg t) as [[m|e] t'] eqn:Er; [|inversion E; subst; auto].
  pose proof (pump_reply_table_sound (set_transport t' c) m
                (set_transport_table_sound t' c Hs)) as Hs1.
  pose proof (pump_reply_no_exception (set_transport t' c) m) as Hne.
  destruct (pump_reply m (set_transport t' c)) as [[[]|e] c1] eqn:Ep; cbn [snd] in *.
  - destruct (IH _ _ _ Hs1 E) as [Hs' Hex]. split; [exact Hs'|].
    intros i k e Hk He. apply (Hne i k e); [exact Hs| |exact He].
    eapply Hex; eassumption.
  - inversion E; subst. split; [exact Hs1|].
    intros i k e' Hk He. apply (Hne i k e'); [exact Hs|exact Hk|exact He].
Qed.

(** The reply pump stops, whenever the end of stream is received: two
    iterations more than there are bytes left to read are enough. *)
Lemma pump_replies_stops (eofs : list bool) :
  forall c,
    eofs <> [] ->
    (forall t, transport c = Some t -> (S (length (reader t)) < length eofs)%nat) ->
    exists r c', pump_replies eofs c = Some (r, c').
Proof.
  induction eofs as [|eof eofs IH]; intros c Hne Hlen; [done|].
  cbn [pump_replies].
  destruct (transport c) as [t0|] eqn:Et; [|eauto].
  cbv zeta. set (t := if eof then feed_eof t0 else t0).
  assert (Hrd : reader t = reader t0) by (subst t; destruct eof; reflexivity).
  destruct (closed t); [eauto|].
  destruct (read_msg t) as [[m|e] t'] eqn:Er; [|eauto].
  pose proof (pump_reply_transport (set_transport t' c) m) as Htr.
  destruct (pump_reply m (set_transport t' c)) as [[[]|e] c1] eqn:Ep; [|eauto].
  cbn [snd] in Htr. apply read_msg_shrinks in Er. rewrite Hrd in Er.
  specialize (Hlen t0 eq_refl). cbn [length] in Hlen.
  apply IH.
  - destruct eofs; [cbn in Hlen; lia|discriminate].
  - intros t1 Ht1. rewrite Htr in Ht1. cbn in Ht1. inversion Ht1; subst t1. lia.
Qed.

(** On a transport that is closed the pump stops at once; only the end of
    stream, if it is received just then, is noted in the reader. *)
Lemma pump_replies_closed (eof : bool) (eofs : list bool) c :
  (forall t, transport c = Some t -> closed t = true) ->
  exists c',
    pump_replies (eof :: eofs) c = Some (Ok tt, c')
    /\ (c' = c \/ exists t, transport c = Some t /\ c' = set_transport (feed_eof t) c).
Proof.
  intros Hcl. cbn [pump_replies]. destruct (transport c) as [t0|] eqn:Et;
    [|exists c; split; [reflexivity|left; reflexivity]].
  cbv zeta. pose proof (Hcl t0 eq_refl) as Hc. destruct eof.
  - rewrite (closed_feed_eof t0 Hc). eexists. split; [reflexivity|].
    right. exists t0. split; reflexivity.
  - rewrite Hc. rewrite (set_transport_same t0 c Et).
    exists c. split; [reflexivity|left; reflexivity].
Qed.

(** C3, as amended (closed transport).  The reply pump stops, whenever the
    end of stream is received, when the client's transport is closed or when
    a read fails, and leaves the pending calls as they are: every call that
    is still in the pending-call table when the pump has stopped is
    unresolved, no handle has been resolved with an error, and if the
    transport was closed already the client's state is unchanged (but for
    the end of stream that the reader may have received meanwhile). *)
Theorem C3_closed_transport_leaves_calls_pending c :
  table_sound c ->
  exists fuel, forall eofs : list bool, (fuel <= length eofs)%nat ->
    exists r c',
      pump_replies eofs c = Some (r, c')
      /\ (forall x i, xid_map c' !! x = Some i ->
            exists k, calls c' !! i = Some k /\ c_xid k = x /\ c_fut k = Pending)
      /\ (forall i k e, calls c' !! i = Some k -> c_fut k = Exception e -> calls c !! i = Some k)
      /\ ((forall t, transport c = Some t -> closed t = true) ->
          r = Ok tt /\ xid_map c' = xid_map c /\ calls c' = calls c
          /\ (c' = c \/ exists t, transport c = Some t /\ c' = set_transport (feed_eof t) c)).
Proof.
  intros Hs.
  set (n := match transport c with Some t => S (S (S (length (reader t)))) | None => 1%nat end).
  exists n. intros eofs Hn.
  destruct (pump_replies_stops eofs c) as (r & c' & E).
  { intros ->. subst n. destruct (transport c); cbn in Hn; lia. }
  { intros t Ht. subst n. rewrite Ht in Hn. lia. }
  exists r, c'. split; [exact E|].
  destruct (pump_replies_inv _ _ _ _ Hs E) as [Hs' Hex].
  split; [exact Hs'|]. split; [exact Hex|].
  intros Hcl. destruct eofs as [|eof eofs]; [discriminate E|].
  destruct (pump_replies_closed eof eofs c Hcl) as (c1 & E1 & Hc1).
  rewrite E1 in E. inversion E; subst r c1.
  split; [reflexivity|].
  destruct Hc1 as [->|(t & Ht & ->)]; auto. cbn. split; [reflexivity|]. split; [reflexivity|].
  right. eauto.
Qed.
End PumpProperties.

Section CorrelationClaims.
Context `{HeaderCodec} {value : Type}.
Implicit Types (c : TCPClient value) (m : SPLIT_MSG).

(** A reply for a call that [pump_reply] has just resolved finds no entry. *)
Lemma pump_reply_again c m :
  table_sound c ->
  pump_reply m (snd (pump_reply m c)) = (Ok tt, snd (pump_reply m c)).
Proof.
  intros Hs. destruct (pump_reply_cases c m Hs) as [E|(i & k & _ & _ & _ & _ & _ & E)];
    rewrite E; cbn [snd]; [exact E|].
  apply pump_reply_miss. right. cbn [xid_map set_calls set_xid_map].
  apply lookup_delete_eq.
Qed.

(** C7 (unsolicited reply).  When the message given to [pump_reply] is not a
    REPLY, or is a REPLY whose transaction id has no entry in the
    pending-call table, [pump_reply] returns without any effect: the table
    and every activation's future are exactly as before.  A reply for a
    call that has already been resolved is such a message: delivering a
    message a second time changes nothing. *)
Theorem C7_unmatched_message_dropped c m :
  (mtype (header m.1) <> REPLY \/ xid_map c !! xid m.1 = None ->
   pump_reply m c = (Ok tt, c))
  /\ (table_sound c ->
      pump_reply m (snd (pump_reply m c)) = (Ok tt, snd (pump_reply m c))).
Proof. split; [apply pump_reply_miss|apply pump_reply_again]. Qed.

(** C2, as amended (distinct transaction ids).  After any run of the client
    from its initial state, whether the transaction ids were supplied by the
    caller or generated: every entry of the pending-call table leads to an
    unresolved call of that transaction id, and two different calls that are
    in the table never have the same transaction id.  When moreover every
    [send_call] of the run used a transaction id that was not in the table
    at that moment, any two different unresolved calls have different
    transaction ids. *)
Theorem C2_registered_xids_distinct (prog vers : Z) (procs : gmap Z (Proc value))
    (ops : list client_op) :
  let c0 := TCPClient_init prog vers procs in
  let c := client_run ops c0 in
  (forall x n, xid_map c !! x = Some n ->
     outstanding c n /\ exists k, calls c !! n = Some k /\ c_xid k = x)
  /\ (forall i j ki kj,
        calls c !! i = Some ki -> calls c !! j = Some kj ->
        outstanding c i -> outstanding c j -> i <> j ->
        c_xid ki <> c_xid kj)
  /\ (fresh_run ops c0 ->
      forall i j ki kj,
        calls c !! i = Some ki -> calls c !! j = Some kj ->
        c_fut ki = Pending -> c_fut kj = Pending -> i <> j ->
        c_xid ki <> c_xid kj).
Proof.
  intros c0 c. split; [|split].
  - intros x n Hx.
    destruct (client_run_table_sound ops _ (table_sound_init prog vers procs) x n Hx)
      as (k & Hk & Hkx & Hp).
    split; [|eauto]. exists k. rewrite Hkx. auto.
  - intros i j ki kj Hi Hj (ki' & Hi' & _ & Hri) (kj' & Hj' & _ & Hrj) Hne.
    rewrite Hi in Hi'. rewrite Hj in Hj'. inversion Hi'; inversion Hj'; subst ki' kj'.
    intros Heq. rewrite Heq, Hrj in Hri. congruence.
  - intros Hfresh i j ki kj Hi Hj Hpi Hpj Hne Heq.
    pose proof (client_run_pending_registered ops c0 (table_sound_init prog vers procs)
                  (pending_registered_init prog vers procs) Hfresh) as Hr.
    pose proof (Hr i ki Hi Hpi) as Hri. pose proof (Hr j kj Hj Hpj) as Hrj.
    rewrite Heq, Hrj in Hri. congruence.
Qed.

(** [send_call] registers before it writes: when it has reached its
    suspension, the future was in the table, under the transaction id, in
    the state in which nothing of the call had been written yet. *)
Lemma send_call_registers_first (proc_id : Z) (args : list value) (xid : option Z)
    (rand : Z) (conn : result TCPTransport) c (fut : nat) c' :
  send_call proc_id args xid rand conn c = (Ok fut, c') ->
  let x := match xid with None => gen_xid rand | Some x => x end in
  exists c1 c2,
    (c1 = c \/ exists t, c1 = set_transport t c)
    /\ send_call_register proc_id x c1 = (Ok fut, c2)
    /\ xid_map c2 !! x = Some fut
    /\ calls c2 !! fut = Some (mkCall x proc_id Pending false)
    /\ transport c2 = transport c1
    /\ send_call_write fut proc_id x args c2 = (Ok tt, c').
Proof.
  intros E x. unfold send_call in E. fold x in E.
  unfold mbind, io_bind, bind, mret, io_ret, ret in E.
  destruct ((if bool_decide (transport c = None) then connect conn else _) c)
    as [[[]|e] c1] eqn:Ec; [|discriminate].
  assert (Hc1 : c1 = c \/ exists t, c1 = set_transport t c).
  { case_bool_decide; [|inversion Ec; auto]. destruct conn as [t|e]; cbn in Ec; inversion Ec; eauto. }
  rewrite send_call_register_eq in E.
  destruct (send_call_write _ _ _ _ _) as [[[]|e] c3] eqn:Ew; [|discriminate].
  inversion E; subst fut c3.
  eexists c1, _. split; [exact Hc1|]. split; [apply send_call_register_eq|].
  split; [apply lookup_insert_eq|]. split; [apply list_lookup_middle; reflexivity|].
  split; [reflexivity|]. exact Ew.
Qed.

(** C10, as amended (written calls are registered).  In a run of the client
    in which every [send_call] uses a transaction id that is not in the
    pending-call table at that moment: each call that has written its framed
    bytes and is not yet resolved has the entry of the table under its
    transaction id, and that entry is its own future; every entry of the
    table leads to an unresolved call, so [pump_reply] has removed the
    entry of every call it resolved; a resolved call is never resolved
    again; and [send_call] enters the future in the table before it
    writes. *)
Theorem C10_written_calls_registered (prog vers : Z) (procs : gmap Z (Proc value))
    (ops : list client_op) :
  let c0 := TCPClient_init prog vers procs in
  fresh_run ops c0 ->
  let c := client_run ops c0 in
  (forall i, awaiting_reply c i ->
     exists k, calls c !! i = Some k /\ xid_map c !! c_xid k = Some i)
  /\ (forall x i, xid_map c !! x = Some i ->
        exists k, calls c !! i = Some k /\ c_xid k = x /\ c_fut k = Pending)
  /\ (forall op i k r, calls c !! i = Some k -> c_fut k = Result r ->
        calls (client_step op c) !! i = Some k)
  /\ (forall proc_id args xid rand conn fut c',
        send_call proc_id args xid rand conn c = (Ok fut, c') ->
        let x := match xid with None => gen_xid rand | Some x => x end in
        exists c1 c2,
          (c1 = c \/ exists t, c1 = set_transport t c)
          /\ send_call_register proc_id x c1 = (Ok fut, c2)
          /\ xid_map c2 !! x = Some fut
          /\ calls c2 !! fut = Some (mkCall x proc_id Pending false)
          /\ transport c2 = transport c1
          /\ send_call_write fut proc_id x args c2 = (Ok tt, c')).
Proof.
  intros c0 Hfresh c.
  pose proof (client_run_table_sound ops c0 (table_sound_init prog vers procs)) as Hs.
  pose proof (client_run_pending_registered ops c0 (table_sound_init prog vers procs)
                (pending_registered_init prog vers procs) Hfresh) as Hr.
  fold c in Hs, Hr. split; [|split; [|split]].
  - intros i (k & Hk & Hp & _). exists k. split; [exact Hk|]. exact (Hr i k Hk Hp).
  - exact Hs.
  - intros op i k r Hk Hres. eapply client_step_keeps_result; eassumption.
  - intros proc_id args xid rand conn fut c' E. exact (send_call_registers_first _ _ _ _ _ _ _ _ E).
Qed.
End CorrelationClaims.

(** ** The server: dispatch and the connection loop *)

Lemma unpack_each_decoded {value} (specs : list (Codec value)) :
  forall (buf : bytes) (vs : list value) (rest : bytes),
    unpack_each specs buf = Ok (vs, rest) <-> decoded specs buf vs rest.
Proof.
  induction specs as [|spec specs IH]; intros buf vs rest; split.
  - intros E. inversion E; subst. constructor.
  - intros D. inversion D; subst. reflexivity.
  - cbn [unpack_each]. unfold mbind, result_bind.
    destruct (unpack spec buf) as [[v buf1]|e] eqn:Eu; [|discriminate].
    destruct (unpack_each specs buf1) as [[vs' buf2]|e] eqn:Er; [|discriminate].
    intros E. inversion E; subst. econstructor; [exact Eu|]. apply IH. exact Er.
  - intros D. inversion D as [|? ? ? buf1 ? v vs' Eu D']; subst.
    cbn [unpack_each]. unfold mbind, result_bind. rewrite Eu.
    apply IH in D'. rewrite D'. reflexivity.
Qed.

Lemma decoded_length {value} (specs : list (Codec value)) (buf : bytes)
    (vs : list value) (rest : bytes) :
  decoded specs buf vs rest -> length vs = length specs.
Proof. induction 1; cbn; congruence. Qed.

Section ServerProperties.
Context `{HeaderCodec} {value app : Type}.
Implicit Types (s : Server value app) (t : TCPTransport).

(** C8 (dispatch).  For a procedure id present in the table,
    [handle_proc_call] decodes one argument per declared codec from the call
    body, in declaration order, invokes the callable bound under the
    procedure's name once, with exactly those arguments, and returns what
    the return codec packs for the handler's result; for a procedure id
    that is not in the table it raises the lookup's [KeyError] and invokes
    nothing. *)
Theorem C8_dispatch s (proc_id : Z) (call_body : bytes) :
  (forall (proc : Proc value) (argl : list value) (rest : bytes)
          (h : handler value app) (rv : value) (a : app),
      s_procs s !! proc_id = Some (Some proc) ->
      decoded (arg_types proc) call_body argl rest ->
      methods s !! name proc = Some h ->
      h argl (app_state s) = (Ok rv, a) ->
      length argl = length (arg_types proc)
      /\ fst (handle_proc_call proc_id call_body s) = pack (ret_type proc) rv
      /\ invoked (snd (handle_proc_call proc_id call_body s))
           = invoked s ++ [(name proc, argl)]
      /\ app_state (snd (handle_proc_call proc_id call_body s)) = a)
  /\ (s_procs s !! proc_id = None ->
        handle_proc_call proc_id call_body s = (Raise (KeyError proc_id), s)).
Proof.
  split.
  - intros proc argl rest h rv a Hp Hd Hm Hh.
    split; [exact (decoded_length _ _ _ _ Hd)|].
    apply unpack_each_decoded in Hd.
    unfold handle_proc_call, get_handler. rewrite Hp. cbv beta iota.
    rewrite Hd. cbv beta iota. rewrite Hm. cbv beta iota. rewrite Hh.
    destruct (pack (ret_type proc) rv); cbn; auto.
  - intros Hp. unfold handle_proc_call. rewrite Hp. reflexivity.
Qed.

(** A dispatch invokes at most one handler. *)
Lemma handle_proc_call_invoked s (proc_id : Z) (call_body : bytes) :
  invoked (snd (handle_proc_call proc_id call_body s)) = invoked s
  \/ exists n argl,
       invoked (snd (handle_proc_call proc_id call_body s)) = invoked s ++ [(n, argl)].
Proof.
  unfold handle_proc_call.
  destruct (s_procs s !! proc_id) as [[proc|]|]; cbn; auto.
  destruct (unpack_each _ _) as [[argl rest]|e]; cbn; auto.
  destruct (get_handler proc_id s) as [h|e]; cbn; auto.
  destruct (h argl (app_state s)) as [[rv|e] a]; right; eexists _, _; reflexivity.
Qed.

Lemma write_msg_raise (h : v_rpc_msg) (b : bytes) t (e : exn) t' :
  write_msg h b t = (Raise e, t') -> t' = t.
Proof.
  unfold write_msg, write_msg_bytes, writer_write, mbind, io_bind, bind, lift.
  destruct (rpc_msg_pack h); [|intros E; inversion E; reflexivity].
  destruct (pack_fstring _ _); [|intros E; inversion E; reflexivity].
  destruct (struct_pack_L _); [|intros E; inversion E; reflexivity].
  destruct (writer_closing t); intros E; inversion E; reflexivity.
Qed.

(** A dispatch that raises has written nothing. *)
Lemma handle_call_raise (call : v_rpc_msg) (call_body : bytes) s t (e : exn) s' t' :
  handle_call call call_body (s, t) = (Raise e, (s', t')) ->
  t' = t
  /\ (invoked s' = invoked s \/ exists n argl, invoked s' = invoked s ++ [(n, argl)]).
Proof.
  unfold handle_call. destruct (cbody (header call)) as [cb|];
    [|intros E; inversion E; auto].
  pose proof (handle_proc_call_invoked s (proc cb) call_body) as Hinv.
  destruct (handle_proc_call (proc cb) call_body s) as [[reply_body|e'] s1]; cbn [snd] in Hinv.
  - destruct (write_msg _ reply_body t) as [[[]|e'] t1] eqn:Ew; intros E; inversion E; subst.
    split; [|exact Hinv]. eapply write_msg_raise. exact Ew.
  - intros E. inversion E; subst. auto.
Qed.

Lemma read_msg_writer t (r : result SPLIT_MSG) t' :
  read_msg t = (r, t') -> writer t' = writer t /\ writer_closing t' = writer_closing t.
Proof.
  rewrite read_msg_eq, read_msg_bytes_reader.
  destruct (read_stream (reader t)) as [[b|e] rd']; cbn [fst snd];
    intros E; inversion E; auto.
Qed.

(** What [write_msg] appends for a header that packs to [hb] and an empty
    body: the one record of [hb]. *)
Lemma write_msg_empty_body (h : v_rpc_msg) (hb : bytes) t :
  rpc_msg_pack h = Ok hb -> len hb < 2 ^ 31 -> writer_closing t = false ->
  write_msg h [] t
    = (Ok tt, mkTransport (reader t) (reader_eof t) (writer t ++ record_mark [hb]) false).
Proof.
  intros Hp Hl Hc. unfold write_msg, mbind, io_bind, bind, lift. rewrite Hp.
  rewrite (pack_fstring_len []). cbv beta iota.
  change (xdr_pad []) with (@nil byte). rewrite app_nil_r.
  apply write_msg_bytes_small; assumption.
Qed.

(** The faults of a dispatch make [handle_call] raise: a procedure id that
    is not in the table, an argument that does not decode, a handler that
    raises. *)
Lemma dispatch_faults_raise s t (call : v_rpc_msg) (cb : v_call_body) (call_body : bytes) :
  cbody (header call) = Some cb ->
  (s_procs s !! proc cb = None ->
     handle_call call call_body (s, t) = (Raise (KeyError (proc cb)), (s, t)))
  /\ (forall (p : Proc value) (e : exn),
        s_procs s !! proc cb = Some (Some p) ->
        unpack_each (arg_types p) call_body = Raise e ->
        handle_call call call_body (s, t) = (Raise e, (s, t)))
  /\ (forall (p : Proc value) (argl : list value) (rest : bytes)
             (h : handler value app) (e : exn) (a : app),
        s_procs s !! proc cb = Some (Some p) ->
        unpack_each (arg_types p) call_body = Ok (argl, rest) ->
        methods s !! name p = Some h ->
        h argl (app_state s) = (Raise e, a) ->
        handle_call call call_body (s, t)
          = (Raise e, (record_invocation (name p) argl a s, t))).
Proof.
  intros Hcb. unfold handle_call, handle_proc_call, get_handler. rewrite Hcb.
  split; [|split].
  - intros Hp. rewrite Hp. reflexivity.
  - intros p e Hp Hu. rewrite Hp. cbv beta iota. rewrite Hu. reflexivity.
  - intros p argl rest h e a Hp Hu Hm Hh. rewrite Hp. cbv beta iota. rewrite Hu.
    cbv beta iota. rewrite Hm. cbv beta iota. rewrite Hh. reflexivity.
Qed.

(** C9 (dispatch failure).  When the connection loop has read a call and
    dispatching it raises, the server writes exactly one record, the reply
    that [make_reply] builds with the call's transaction id, reply status
    accepted and detail status system error, with an empty body; then it
    closes the transport and re-raises.  The loop has ended: whatever
    iterations could follow, what is left in the reader is not read, and the
    failed dispatch itself wrote nothing and invoked at most one handler.
    ([dispatch_faults_raise]: an unknown procedure, a codec failure and a
    handler failure are such dispatches.) *)
Theorem C9_dispatch_failure s t (polls : list poll) (call : v_rpc_msg)
    (call_body : bytes) t1 (e : exn) s2 t2 (hb : bytes) :
  closed t = false ->
  read_msg t = (Ok (call, call_body), t1) ->
  mtype (header call) = CALL ->
  handle_call call call_body (s, t1) = (Raise e, (s2, t2)) ->
  rpc_msg_pack (make_reply (xid call) MSG_ACCEPTED SYSTEM_ERR) = Ok hb ->
  len hb < 2 ^ 31 ->
  let reply := make_reply (xid call) MSG_ACCEPTED SYSTEM_ERR in
  handle_connection (Ready :: polls) (s, t)
    = Some (Raise e, (s2, mkTransport (reader t1) (reader_eof t1)
                            (writer t ++ record_mark [hb]) true))
  /\ t2 = t1
  /\ write_msg reply [] t1
       = (Ok tt, mkTransport (reader t1) (reader_eof t1) (writer t ++ record_mark [hb]) false)
  /\ xid reply = xid call
  /\ (stat <$> rbody (header reply)) = Some MSG_ACCEPTED
  /\ (rd_stat <$> (data <$> (rbody (header reply) ≫= areply))) = Some SYSTEM_ERR
  /\ (invoked s2 = invoked s \/ exists n argl, invoked s2 = invoked s ++ [(n, argl)]).
Proof.
  intros Hcl Hr Ht Hc Hp Hl reply.
  destruct (handle_call_raise _ _ _ _ _ _ _ Hc) as [-> Hinv].
  destruct (read_msg_writer _ _ _ Hr) as [Hw Hwc].
  assert (Hnc : writer_closing t1 = false).
  { rewrite Hwc. unfold closed in Hcl. apply orb_false_iff in Hcl as [_ Hcl]. exact Hcl. }
  pose proof (write_msg_empty_body reply hb t1 Hp Hl Hnc) as Hwrite. rewrite Hw in Hwrite.
  split; [|repeat (split; [first [reflexivity|exact Hwrite]|]); exact Hinv].
  cbn [handle_connection]. rewrite Hcl. unfold after_read. rewrite Hr.
  rewrite bool_decide_eq_true_2 by exact Ht. cbn [negb]. rewrite Hc.
  fold reply. rewrite Hwrite. reflexivity.
Qed.
End ServerProperties.

(** C1 (construction-time completeness) does not hold of the code: creating
    a server object never fails, whatever the class declares; for a class
    that declares [ADD], binds no callable under that name and does not list
    it as deliberately unimplemented, the object is created and the missing
    callable only shows when [ADD] is dispatched. *)
Theorem C1_incomplete_server_is_constructed :
  (forall (value app : Type) (cls : ServerClass value app) (host : string) (port : Z),
     exists s, TCPServer_init cls host port = Ok s)
  /\ missing_procs incomplete_class = ["ADD"%string]
  /\ TCPServer_init incomplete_class "0.0.0.0" 2049 = Ok incomplete_server
  /\ fst (handle_proc_call 1 (be32 2 ++ be32 3) incomplete_server)
       = Raise (AttributeError "ADD").
Proof.
  split; [intros value app cls host port; eexists; reflexivity|].
  split; [vm_compute; reflexivity|]. split; [reflexivity|]. vm_compute. reflexivity.
Qed.

(** ** The header codec modelled from the specification

    The headers that [rpc.py] builds are packed by it, and unpacked again,
    whenever their integers fit 32 bits. *)

Lemma pack_uint_be32 (v : Z) : 0 <= v < 2 ^ 32 -> Rfc1831.pack_uint v = Ok (be32 v).
Proof.
  intros Hv. unfold Rfc1831.pack_uint, struct_pack_L.
  rewrite bool_decide_eq_true_2 by exact Hv. reflexivity.
Qed.

Lemma unpack_uint_be32 (v : Z) (rest : bytes) :
  0 <= v < 2 ^ 32 -> Rfc1831.unpack_uint (be32 v ++ rest) = Ok (v, rest).
Proof.
  intros Hv. pose proof (struct_unpack_be32 v Hv) as E. unfold be32 in *.
  cbn [app Rfc1831.unpack_uint]. rewrite E. reflexivity.
Qed.

Lemma unpack_auth_none (rest : bytes) :
  Rfc1831.unpack_auth (be32 0 ++ be32 0 ++ rest)
    = Ok ({| flavor := AUTH_NONE; body := [] |}, rest).
Proof.
  unfold Rfc1831.unpack_auth, Rfc1831.unpack_opaque.
  rewrite (unpack_uint_be32 0) by (split; [discriminate|reflexivity]).
  cbn [mbind result_bind].
  rewrite (unpack_uint_be32 0) by (split; [discriminate|reflexivity]).
  cbn [mbind result_bind].
  change ((0 + 3) / 4 * 4) with 0.
  rewrite bool_decide_eq_false_2 by (pose proof (len_nonneg rest); lia).
  reflexivity.
Qed.

Lemma make_reply_packed (x msg_stat : Z) :
  0 <= x < 2 ^ 32 -> 0 <= msg_stat < 2 ^ 32 ->
  let hb := be32 x ++ be32 1 ++ be32 0 ++ be32 0 ++ be32 0 ++ be32 msg_stat in
  Rfc1831.pack_rpc_msg (make_reply x MSG_ACCEPTED msg_stat) = Ok hb
  /\ len hb = 24
  /\ forall rest,
       Rfc1831.unpack_rpc_msg (hb ++ rest) = Ok (make_reply x MSG_ACCEPTED msg_stat, rest).
Proof.
  intros Hx Hm hb. split; [|split].
  - unfold Rfc1831.pack_rpc_msg, Rfc1831.pack_reply_body, make_reply.
    cbn [xid header mtype rbody stat areply ar_verf data rd_stat].
    rewrite (pack_uint_be32 x Hx), (pack_uint_be32 msg_stat Hm). reflexivity.
  - reflexivity.
  - intros rest. subst hb. unfold Rfc1831.unpack_rpc_msg. rewrite <- !app_assoc.
    rewrite (unpack_uint_be32 x _ Hx). cbn [mbind result_bind].
    rewrite (unpack_uint_be32 1) by (split; [discriminate|reflexivity]).
    cbn [mbind result_bind]. unfold Rfc1831.unpack_reply_body.
    rewrite bool_decide_eq_false_2 by discriminate.
    rewrite bool_decide_eq_true_2 by reflexivity.
    rewrite (unpack_uint_be32 0) by (split; [discriminate|reflexivity]).
    cbn [mbind result_bind]. rewrite bool_decide_eq_true_2 by reflexivity.
    rewrite unpack_auth_none. cbn [mbind result_bind].
    rewrite (unpack_uint_be32 msg_stat _ Hm). reflexivity.
Qed.

(** ** Concrete instances *)

(** C7 at a client with one pending call, of transaction id 5: for a reply
    of transaction id 6, for a message that is a CALL, and for the reply of
    transaction id 5 delivered a second time. *)
Lemma C7_unmatched_message_dropped_witness :
  let c := @client_run Rfc1831.codec Z
             [OpSendCall 0 [] (Some 5) 0 (Ok fresh_transport)] example_client in
  let unsolicited := (make_reply 6 MSG_ACCEPTED SUCCESS, []) in
  let not_a_reply := (call_msg example_client 5 0, []) in
  let reply := (make_reply 5 MSG_ACCEPTED SUCCESS, []) in
  (xid_map c !! 6 = None /\ pump_reply unsolicited c = (Ok tt, c))
  /\ (mtype (header not_a_reply.1) <> REPLY /\ pump_reply not_a_reply c = (Ok tt, c))
  /\ (table_sound c
      /\ pump_reply reply (snd (pump_reply reply c)) = (Ok tt, snd (pump_reply reply c))).
Proof.
  intros c unsolicited not_a_reply reply.
  assert (H6 : xid_map c !! 6 = None) by (vm_compute; reflexivity).
  assert (Hcall : mtype (header not_a_reply.1) <> REPLY) by (vm_compute; discriminate).
  assert (Hs : table_sound c) by (apply client_run_table_sound, table_sound_init).
  split; [|split].
  - split; [exact H6|]. apply (proj1 (C7_unmatched_message_dropped c unsolicited)).
    right. exact H6.
  - split; [exact Hcall|]. apply (proj1 (C7_unmatched_message_dropped c not_a_reply)).
    left. exact Hcall.
  - split; [exact Hs|]. exact (proj2 (C7_unmatched_message_dropped c reply) Hs).
Defined.

(** C2 as stated fails: two calls are sent under the transaction id 5; both
    have written their bytes and are unresolved, and the table holds only
    the second one. *)
Lemma C2_reused_xid_counterexample :
  let c := @client_run Rfc1831.codec Z
             [OpSendCall 0 [] (Some 5) 0 (Ok fresh_transport);
              OpSendCall 0 [] (Some 5) 0 (Ok fresh_transport)] example_client in
  exists k0 k1,
    calls c !! 0%nat = Some k0 /\ calls c !! 1%nat = Some k1 /\ 0%nat <> 1%nat
    /\ awaiting_reply c 0 /\ awaiting_reply c 1
    /\ c_xid k0 = c_xid k1
    /\ xid_map c !! 5 = Some 1%nat.
Proof.
  intros c.
  assert (H0 : calls c !! 0%nat = Some (mkCall 5 0 Pending true)) by (vm_compute; reflexivity).
  assert (H1 : calls c !! 1%nat = Some (mkCall 5 0 Pending true)) by (vm_compute; reflexivity).
  assert (H5 : xid_map c !! 5 = Some 1%nat) by (vm_compute; reflexivity).
  exists (mkCall 5 0 Pending true), (mkCall 5 0 Pending true).
  split; [exact H0|]. split; [exact H1|]. split; [discriminate|].
  split; [exists (mkCall 5 0 Pending true); auto|].
  split; [exists (mkCall 5 0 Pending true); auto|].
  split; [reflexivity|exact H5].
Defined.

(** C2, as amended, at two calls, one with the supplied transaction id 5
    and one with the generated transaction id 7. *)
Lemma C2_registered_xids_distinct_witness :
  let ops := [OpSendCall 0 [] (Some 5) 0 (Ok fresh_transport);
              OpSendCall 0 [] None 7 (Ok fresh_transport)] in
  let c := @client_run Rfc1831.codec Z ops example_client in
  let k0 := mkCall 5 0 Pending true in
  let k1 := mkCall 7 0 Pending true in
  @fresh_run Rfc1831.codec Z ops example_client
  /\ calls c !! 0%nat = Some k0 /\ calls c !! 1%nat = Some k1
  /\ c_fut k0 = Pending /\ c_fut k1 = Pending
  /\ outstanding c 0 /\ outstanding c 1 /\ 0%nat <> 1%nat
  /\ c_xid k0 <> c_xid k1.
Proof.
  intros ops c k0 k1.
  assert (Hf : @fresh_run Rfc1831.codec Z ops example_client).
  { split; [vm_compute; reflexivity|]. split; [vm_compute; reflexivity|]. exact I. }
  assert (H0 : calls c !! 0%nat = Some k0) by (vm_compute; reflexivity).
  assert (H1 : calls c !! 1%nat = Some k1) by (vm_compute; reflexivity).
  assert (O0 : outstanding c 0).
  { exists k0. split; [exact H0|]. split; [reflexivity|]. vm_compute. reflexivity. }
  assert (O1 : outstanding c 1).
  { exists k1. split; [exact H1|]. split; [reflexivity|]. vm_compute. reflexivity. }
  assert (Hne : 0%nat <> 1%nat) by discriminate.
  split; [exact Hf|]. split; [exact H0|]. split; [exact H1|].
  split; [reflexivity|]. split; [reflexivity|].
  split; [exact O0|]. split; [exact O1|]. split; [exact Hne|].
  exact (proj2 (proj2 (@C2_registered_xids_distinct Rfc1831.codec Z 100003 3 example_procs ops))
           Hf 0%nat 1%nat k0 k1 H0 H1 eq_refl eq_refl Hne).
Defined.

(** C10 as stated fails: two calls are sent under the transaction id 5 and
    one reply for it arrives; the first call has written its bytes and is
    unresolved, and the table has no entry under its transaction id. *)
Lemma C10_displaced_call_counterexample :
  let c := @client_run Rfc1831.codec Z
             [OpSendCall 0 [] (Some 5) 0 (Ok fresh_transport);
              OpSendCall 0 [] (Some 5) 0 (Ok fresh_transport);
              OpPumpReply (make_reply 5 MSG_ACCEPTED SUCCESS, [])] example_client in
  awaiting_reply c 0
  /\ calls c !! 0%nat = Some (mkCall 5 0 Pending true)
  /\ xid_map c !! 5 = None
  /\ ~ (exists k, calls c !! 0%nat = Some k /\ xid_map c !! c_xid k = Some 0%nat).
Proof.
  intros c.
  assert (H0 : calls c !! 0%nat = Some (mkCall 5 0 Pending true)) by (vm_compute; reflexivity).
  assert (H5 : xid_map c !! 5 = None) by (vm_compute; reflexivity).
  split; [exists (mkCall 5 0 Pending true); auto|].
  split; [exact H0|]. split; [exact H5|].
  intros (k & Hk & Hx). rewrite H0 in Hk. inversion Hk; subst k.
  cbn [c_xid] in Hx. rewrite H5 in Hx. discriminate.
Defined.

(** C10, as amended, at a run with the transaction ids 5 and 7 and a reply
    for 5: the second call is written, unresolved and registered. *)
Lemma C10_written_calls_registered_witness :
  let ops := [OpSendCall 0 [] (Some 5) 0 (Ok fresh_transport);
              OpSendCall 0 [] None 7 (Ok fresh_transport);
              OpPumpReply (make_reply 5 MSG_ACCEPTED SUCCESS, [])] in
  let c := @client_run Rfc1831.codec Z ops example_client in
  @fresh_run Rfc1831.codec Z ops example_client
  /\ awaiting_reply c 1
  /\ exists k, calls c !! 1%nat = Some k /\ xid_map c !! c_xid k = Some 1%nat.
Proof.
  intros ops c.
  assert (Hf : @fresh_run Rfc1831.codec Z ops example_client).
  { split; [vm_compute; reflexivity|]. split; [vm_compute; reflexivity|]. split; exact I. }
  assert (Ha : awaiting_reply c 1).
  { exists (mkCall 7 0 Pending true). split; [vm_compute; reflexivity|]. auto. }
  split; [exact Hf|]. split; [exact Ha|].
  exact (proj1 (@C10_written_calls_registered Rfc1831.codec Z 100003 3 example_procs ops Hf)
           1%nat Ha).
Defined.

(** C3 as stated fails: a call is pending on a transport that is closed
    (the end of stream has been received and nothing is left to read); the
    reply pump stops, and the call's future is still pending, not resolved
    with an error. *)
Lemma C3_closed_transport_counterexample :
  let c := @client_run Rfc1831.codec Z
             [OpSendCall 0 [] (Some 5) 0 (Ok (feed_eof fresh_transport))] example_client in
  (exists t, transport c = Some t /\ closed t = true)
  /\ outstanding c 0
  /\ forall eofs r c',
       @pump_replies Rfc1831.codec Z eofs c = Some (r, c') ->
       exists k, calls c' !! 0%nat = Some k /\ c_fut k = Pending
                 /\ forall e, c_fut k <> Exception e.
Proof.
  intros c.
  assert (Hk : calls c !! 0%nat = Some (mkCall 5 0 Pending true)) by (vm_compute; reflexivity).
  assert (Hx : xid_map c !! 5 = Some 0%nat) by (vm_compute; reflexivity).
  assert (Hrd : closed <$> transport c = Some true) by (vm_compute; reflexivity).
  clearbody c.
  assert (Hcl : forall t, transport c = Some t -> closed t = true).
  { intros t Ht. rewrite Ht in Hrd. cbn in Hrd. injection Hrd as Hrd. exact Hrd. }
  split; [|split].
  - destruct (transport c) as [t|] eqn:Ht; [|discriminate Hrd].
    exists t. split; [reflexivity|]. apply Hcl. reflexivity.
  - exists (mkCall 5 0 Pending true). split; [exact Hk|]. split; [reflexivity|exact Hx].
  - intros eofs r c' E. destruct eofs as [|eof eofs]; [discriminate E|].
    destruct (@pump_replies_closed Rfc1831.codec Z eof eofs c Hcl) as (c1 & E1 & Hc1).
    rewrite E1 in E. injection E as _ <-.
    exists (mkCall 5 0 Pending true).
    split; [|split; [reflexivity|discriminate]].
    destruct Hc1 as [->|(t & _ & ->)]; exact Hk.
Defined.

(** C3, as amended, at the same client. *)
Lemma C3_closed_transport_leaves_calls_pending_witness :
  let c := @client_run Rfc1831.codec Z
             [OpSendCall 0 [] (Some 5) 0 (Ok (feed_eof fresh_transport))] example_client in
  table_sound c
  /\ exists fuel, forall eofs : list bool, (fuel <= length eofs)%nat ->
       exists r c',
         @pump_replies Rfc1831.codec Z eofs c = Some (r, c')
         /\ forall x i, xid_map c' !! x = Some i ->
              exists k, calls c' !! i = Some k /\ c_xid k = x /\ c_fut k = Pending.
Proof.
  intros c.
  assert (Hs : table_sound c)
    by (apply client_run_table_sound, table_sound_init).
  split; [exact Hs|].
  destruct (@C3_closed_transport_leaves_calls_pending Rfc1831.codec Z c Hs) as (fuel & Hf).
  exists fuel. intros eofs Hn. destruct (Hf eofs Hn) as (r & c' & E & Hp & _).
  exists r, c'. split; [exact E|exact Hp].
Defined.

(** C8 at [ADD(2, 3)] on the example server, and at a procedure id that is
    not in its table. *)
Lemma C8_dispatch_witness :
  let body := be32 2 ++ be32 3 in
  (s_procs example_server !! 1 = Some (Some ADD_proc)
   /\ decoded (arg_types ADD_proc) body [2; 3] []
   /\ methods example_server !! name ADD_proc = Some ADD_handler
   /\ ADD_handler [2; 3] (app_state example_server) = (Ok 5, 1)
   /\ fst (handle_proc_call 1 body example_server) = Ok (be32 5)
   /\ invoked (snd (handle_proc_call 1 body example_server)) = [("ADD"%string, [2; 3])])
  /\ (s_procs example_server !! 9 = None
      /\ handle_proc_call 9 body example_server = (Raise (KeyError 9), example_server)).
Proof.
  intros body.
  assert (Hp : s_procs example_server !! 1 = Some (Some ADD_proc)) by reflexivity.
  assert (Hd : decoded (arg_types ADD_proc) body [2; 3] []).
  { econstructor; [reflexivity|]. econstructor; [reflexivity|]. constructor. }
  assert (Hm : methods example_server !! name ADD_proc = Some ADD_handler) by reflexivity.
  assert (Hh : ADD_handler [2; 3] (app_state example_server) = (Ok 5, 1)) by reflexivity.
  assert (H9 : s_procs example_server !! 9 = None) by reflexivity.
  split.
  - do 4 (split; [assumption|]).
    destruct (proj1 (C8_dispatch example_server 1 body) ADD_proc [2; 3] [] ADD_handler 5 1
                Hp Hd Hm Hh) as (_ & Hr & Hi & _).
    split; [exact Hr|exact Hi].
  - split; [exact H9|]. exact (proj2 (C8_dispatch example_server 9 body) H9).
Defined.

(** C9 at the server that has no callable for [ADD], on a connection that
    delivers the call [ADD(2, 3)] twice. *)
Lemma C9_dispatch_failure_witness :
  let t := receiving (example_call_record ++ example_call_record) in
  let t1 := receiving example_call_record in
  let call := call_msg example_client 77 1 in
  let hb := be32 77 ++ be32 1 ++ be32 0 ++ be32 0 ++ be32 0 ++ be32 5 in
  closed t = false
  /\ @read_msg Rfc1831.codec t = (Ok (call, be32 2 ++ be32 3), t1)
  /\ mtype (header call) = CALL
  /\ @handle_call Rfc1831.codec Z Z call (be32 2 ++ be32 3) (incomplete_server, t1)
       = (Raise (AttributeError "ADD"), (incomplete_server, t1))
  /\ Rfc1831.pack_rpc_msg (make_reply (xid call) MSG_ACCEPTED SYSTEM_ERR) = Ok hb
  /\ len hb < 2 ^ 31
  /\ @handle_connection Rfc1831.codec Z Z [Ready; Ready] (incomplete_server, t)
       = Some (Raise (AttributeError "ADD"),
               (incomplete_server,
                mkTransport example_call_record false (record_mark [hb]) true)).
Proof.
  intros t t1 call hb.
  assert (Hc : closed t = false) by reflexivity.
  assert (Hr : @read_msg Rfc1831.codec t = (Ok (call, be32 2 ++ be32 3), t1))
    by (vm_compute; reflexivity).
  assert (Hm : mtype (header call) = CALL) by reflexivity.
  assert (Hh : @handle_call Rfc1831.codec Z Z call (be32 2 ++ be32 3) (incomplete_server, t1)
               = (Raise (AttributeError "ADD"), (incomplete_server, t1))) by reflexivity.
  assert (Hp : Rfc1831.pack_rpc_msg (make_reply (xid call) MSG_ACCEPTED SYSTEM_ERR) = Ok hb)
    by (vm_compute; reflexivity).
  assert (Hl : len hb < 2 ^ 31) by (vm_compute; reflexivity).
  do 6 (split; [assumption|]).
  exact (proj1 (@C9_dispatch_failure Rfc1831.codec Z Z incomplete_server t [Ready] call
                  (be32 2 ++ be32 3) t1 (AttributeError "ADD") incomplete_server t1 hb
                  Hc Hr Hm Hh Hp Hl)).
Defined.

(** * Further properties of the code *)

(** ** Framing: message boundaries, truncation, the unchecked write side *)

Lemma transport_eta (t : TCPTransport) :
  writer_closing t = false ->
  t = mkTransport (reader t) (reader_eof t) (writer t ++ []) false.
Proof. destruct t as [r e w c]. cbn. intros ->. rewrite app_nil_r. reflexivity. Qed.

Lemma write_all_stream (ms : list bytes) :
  forall t,
    Forall (fun m => len m < 2 ^ 31) ms -> writer_closing t = false ->
    write_all ms t
      = (Ok tt, mkTransport (reader t) (reader_eof t) (writer t ++ record_stream ms) false).
Proof.
  induction ms as [|m ms IH]; intros t Hall Hc.
  - cbn. f_equal. apply transport_eta. exact Hc.
  - apply Forall_cons in Hall as [Hm Hall].
    cbn [write_all]. unfold mbind, io_bind, bind.
    rewrite (write_msg_bytes_small m t Hm Hc).
    rewrite IH by (assumption || reflexivity). cbn [reader reader_eof writer].
    unfold record_stream. cbn [map concat]. rewrite <- !app_assoc. reflexivity.
Qed.

Lemma record_stream_cons (bs : bytes) (bss : list bytes) :
  record_stream (bs :: bss) = record_mark [bs] ++ record_stream bss.
Proof. reflexivity. Qed.

Lemma record_stream_cons_ne (bs : bytes) (bss : list bytes) : record_stream (bs :: bss) <> [].
Proof. rewrite record_stream_cons, record_mark_last. unfold be32. discriminate. Qed.

(** A transport with bytes to read and an open writer is not closed. *)
Lemma closed_nonempty (t : TCPTransport) :
  reader t <> [] -> writer_closing t = false -> closed t = false.
Proof.
  intros Hr Hc. unfold closed, at_eof. rewrite Hc, bool_decide_eq_false_2 by exact Hr.
  rewrite andb_false_r. reflexivity.
Qed.

Lemma read_msg_bytes_record_stream (bs : bytes) (bss : list bytes) (e : bool) (w : bytes)
    (c : bool) :
  len bs <= 100000 ->
  read_msg_bytes (mkTransport (record_stream (bs :: bss)) e w c)
    = (Ok bs, mkTransport (record_stream bss) e w c).
Proof.
  intros Hl. apply read_msg_bytes_ok. cbn [reader]. rewrite record_stream_cons.
  rewrite read_stream_record_mark; [|discriminate|cbn [concat]; rewrite app_nil_r; exact Hl].
  cbn [concat]. rewrite app_nil_r. reflexivity.
Qed.

Lemma read_n_stream (ms : list bytes) (e : bool) (w : bytes) (c : bool) :
  Forall (fun m => len m <= 100000) ms ->
  read_n (length ms) (mkTransport (record_stream ms) e w c) = (Ok ms, mkTransport [] e w c).
Proof.
  induction ms as [|m ms IH]; intros Hall; [reflexivity|].
  apply Forall_cons in Hall as [Hm Hall].
  cbn [length read_n]. unfold mbind, io_bind, bind.
  rewrite read_msg_bytes_record_stream by exact Hm. rewrite (IH Hall). reflexivity.
Qed.

Lemma read_n_past_end (ms : list bytes) (e : bool) (w : bytes) (c : bool) :
  Forall (fun m => len m <= 100000) ms ->
  read_n (S (length ms)) (mkTransport (record_stream ms) e w c)
    = (Raise IncompleteReadError, mkTransport [] true w c).
Proof.
  induction ms as [|m ms IH]; intros Hall.
  - destruct e; reflexivity.
  - apply Forall_cons in Hall as [Hm Hall].
    cbn [length]. change (read_n (S (S (length ms)))) with
      (m0 ← read_msg_bytes; ms0 ← read_n (S (length ms)); mret (m0 :: ms0)).
    unfold mbind at 1, io_bind, bind.
    rewrite read_msg_bytes_record_stream by exact Hm.
    unfold mbind, io_bind, bind. rewrite (IH Hall). reflexivity.
Qed.

(** X1 (message boundaries).  Messages of at most 100,000 bytes written one
    after the other with [write_msg_bytes] are appended to the writer as one
    final fragment each, and the peer that receives those bytes reads back
    exactly the same messages, in the same order, with as many calls of
    [read_msg_bytes]; the call after the last one waits for the end of
    stream and fails with [IncompleteReadError]. *)
Theorem X1_messages_keep_their_boundaries (ms : list bytes) (t : TCPTransport) :
  Forall (fun m => len m <= 100000) ms ->
  writer_closing t = false ->
  write_all ms t
    = (Ok tt, mkTransport (reader t) (reader_eof t) (writer t ++ record_stream ms) false)
  /\ read_n (length ms) (receiving (record_stream ms)) = (Ok ms, receiving [])
  /\ read_n (S (length ms)) (receiving (record_stream ms))
       = (Raise IncompleteReadError, feed_eof (receiving [])).
Proof.
  intros Hall Hc. split; [|split].
  - apply write_all_stream; [|exact Hc].
    eapply Forall_impl; [exact Hall|]. cbn. intros m Hm. lia.
  - apply read_n_stream. exact Hall.
  - apply read_n_past_end. exact Hall.
Qed.

Lemma readexactly_short (n : Z) (rd : bytes) :
  0 <= n -> len rd < n -> readexactly n rd = (Raise IncompleteReadError, []).
Proof.
  intros Hn Hl. unfold readexactly.
  rewrite bool_decide_eq_false_2 by lia. rewrite bool_decide_eq_true_2 by exact Hl.
  reflexivity.
Qed.

Lemma length_be32 (v : Z) : length (be32 v) = 4%nat.
Proof. reflexivity. Qed.

Lemma read_frags_short_header (fuel : nat) (acc : bytes) (total : Z) (rd : bytes) :
  (length rd < 4)%nat ->
  read_frags (S fuel) acc total rd = Some (Raise IncompleteReadError, []).
Proof.
  intros Hl. cbn [read_frags]. rewrite readexactly_short; [reflexivity|lia|unfold len; lia].
Qed.

(** A proper prefix of a well-marked record never yields a message. *)
Lemma read_frags_truncated (frags : list bytes) :
  forall (fuel : nat) (acc : bytes) (total : Z) (n : nat),
    frags <> [] -> (length frags <= fuel)%nat -> 0 <= total ->
    total + len (concat frags) <= MAX_MSG_BYTES ->
    (n < length (record_mark frags))%nat ->
    read_frags fuel acc total (take n (record_mark frags))
      = Some (Raise IncompleteReadError, []).
Proof.
  unfold MAX_MSG_BYTES.
  induction frags as [|f fs IH]; intros fuel acc total n Hne Hfuel Htot Hmax Hn; [done|].
  destruct fuel as [|fuel]; [simpl in Hfuel; lia|].
  rewrite len_concat_cons in Hmax.
  pose proof (len_nonneg f) as Hf. pose proof (len_nonneg (concat fs)) as Hfs.
  assert (Hsmall : 0 <= len f < 2 ^ 31) by lia.
  destruct (decide (n < 4)%nat) as [Hn4|Hn4].
  { apply read_frags_short_header. rewrite length_take. lia. }
  destruct fs as [|g fs].
  - rewrite record_mark_last in *. rewrite length_app, length_be32 in Hn.
    rewrite take_app_ge by (rewrite length_be32; lia). rewrite length_be32.
    rewrite read_frags_word by (rewrite lor_bit31 by exact Hsmall; lia).
    cbv zeta. rewrite last_word_len by exact Hsmall.
    rewrite bool_decide_eq_false_2 by (unfold MAX_MSG_BYTES; lia).
    rewrite readexactly_short; [reflexivity|lia|].
    unfold len. rewrite length_take. lia.
  - rewrite record_mark_cons in *. rewrite !length_app, length_be32 in Hn.
    rewrite take_app_ge by (rewrite length_be32; lia). rewrite length_be32.
    rewrite read_frags_word by lia.
    cbv zeta. rewrite land_small_lnot31, land_small_bit31 by exact Hsmall.
    rewrite bool_decide_eq_false_2 by (unfold MAX_MSG_BYTES; lia).
    destruct (decide (n - 4 < length f)%nat) as [Hshort|Hlong].
    + rewrite take_app_le by lia.
      rewrite readexactly_short; [reflexivity|lia|].
      unfold len. rewrite length_take. lia.
    + rewrite take_app_ge by lia. rewrite readexactly_app.
      rewrite bool_decide_eq_false_2 by (intros Hc; apply Hc; reflexivity).
      apply IH; [done|simpl in *; lia|lia|unfold len in *; lia|lia].
Qed.

Lemma read_msg_bytes_truncated (frags : list bytes) (n : nat) (eof : bool) (w : bytes)
    (closing : bool) :
  frags <> [] ->
  len (concat frags) <= 100000 ->
  (n < length (record_mark frags))%nat ->
  read_msg_bytes (mkTransport (take n (record_mark frags)) eof w closing)
    = (Raise IncompleteReadError, mkTransport [] true w closing).
Proof.
  intros Hne Hmax Hn.
  rewrite (read_msg_bytes_raise _ IncompleteReadError []).
  - cbn [reader_eof writer writer_closing met_eof]. rewrite orb_true_r. reflexivity.
  - cbn [reader]. apply (read_stream_of_frags (length frags)).
    apply read_frags_truncated; [exact Hne|lia|lia|unfold MAX_MSG_BYTES; lia|exact Hn].
Qed.

(** X2 (truncated record).  When the stream ends inside a well-marked
    message of at most 100,000 bytes (after any proper prefix of its bytes,
    the empty one included), [read_msg_bytes] raises [IncompleteReadError]
    once the end of stream has been received, and delivers nothing: a
    truncated message is never returned as a shorter one. *)
Theorem X2_truncated_record_is_refused (frags : list bytes) (n : nat) (eof : bool)
    (w : bytes) (closing : bool) :
  frags <> [] ->
  len (concat frags) <= 100000 ->
  (n < length (record_mark frags))%nat ->
  read_msg_bytes (mkTransport (take n (record_mark frags)) eof w closing)
    = (Raise IncompleteReadError, mkTransport [] true w closing).
Proof. apply read_msg_bytes_truncated. Qed.

(** X3 (no limit on the write side).  [write_msg_bytes] does not apply
    [MAX_MSG_BYTES]: a message longer than 100,000 bytes (and shorter than
    [2 ^ 31]) is written as one final fragment.  The peer's
    [read_msg_bytes] refuses it as overly large as soon as it has read the
    length word, and leaves the refused payload in the stream, where a
    further read would take it for a length word. *)
Theorem X3_write_side_has_no_limit (m rest : bytes) (t : TCPTransport) :
  100000 < len m < 2 ^ 31 ->
  writer_closing t = false ->
  write_msg_bytes m t
    = (Ok tt, mkTransport (reader t) (reader_eof t) (writer t ++ record_mark [m]) false)
  /\ read_msg_bytes (receiving (record_mark [m] ++ rest))
       = (Raise (OverlyLarge (len m) (len m)), receiving (m ++ rest)).
Proof.
  intros Hm Hc. split; [apply write_msg_bytes_small; [lia|exact Hc]|].
  rewrite (read_msg_bytes_raise _ (OverlyLarge (len m) (len m)) (m ++ rest)); [reflexivity|].
  cbn [reader receiving]. apply (read_stream_of_frags 1).
  rewrite record_mark_last, <- app_assoc.
  rewrite read_frags_word by (rewrite lor_bit31 by lia; lia).
  cbv zeta. rewrite last_word_len by lia.
  rewrite bool_decide_eq_true_2 by (unfold MAX_MSG_BYTES; lia). reflexivity.
Qed.

(** ** The client: arguments, results, failed sends, order of replies *)

Lemma pack_each_unpack_each {value} (specs : list (Codec value)) :
  forall (args : list value) (packed rest : bytes),
    length args = length specs ->
    Forall codec_round_trips specs ->
    pack_each (zip specs args) = Ok packed ->
    unpack_each specs (packed ++ rest) = Ok (args, rest).
Proof.
  induction specs as [|spec specs IH]; intros args packed rest Hlen Hrt Hp.
  - destruct args; [|discriminate]. cbn in Hp. inversion Hp; subst. reflexivity.
  - destruct args as [|arg args]; [discriminate|].
    apply Forall_cons in Hrt as [Hspec Hrt].
    cbn [zip zip_with pack_each] in Hp. unfold mbind, result_bind in Hp.
    destruct (pack spec arg) as [b|e] eqn:Eb; [|discriminate].
    destruct (pack_each (zip specs args)) as [bs|e] eqn:Ebs; [|discriminate].
    inversion Hp; subst packed.
    cbn [unpack_each]. unfold mbind, result_bind. rewrite <- app_assoc.
    rewrite (Hspec arg b (bs ++ rest) Eb).
    rewrite (IH args bs rest); [reflexivity| |exact Hrt|exact Ebs].
    cbn in Hlen. lia.
Qed.

Section ClientExtras.
Context `{HeaderCodec} {value : Type}.
Implicit Types (c : TCPClient value) (m : SPLIT_MSG).

(** X4 (arguments).  [pack_args] raises [KeyError] for a procedure id that
    is not in the table and [ValueError] when the number of arguments is not
    the procedure's arity, so that no argument is silently dropped; when it
    returns, what it returns is decoded by the procedure's argument codecs,
    in order, to exactly the arguments it was given (for codecs whose
    [unpack] undoes their [pack]). *)
Theorem X4_pack_args_checks_and_round_trips c (proc_id : Z) (args : list value) :
  (procs c !! proc_id = None -> pack_args proc_id args c = Raise (KeyError proc_id))
  /\ (forall p, procs c !! proc_id = Some p ->
        length args <> length (arg_types p) ->
        pack_args proc_id args c = Raise (ValueError "Wrong number of arguments!"))
  /\ (forall p packed rest,
        procs c !! proc_id = Some p ->
        Forall codec_round_trips (arg_types p) ->
        pack_args proc_id args c = Ok packed ->
        length args = length (arg_types p)
        /\ unpack_each (arg_types p) (packed ++ rest) = Ok (args, rest)).
Proof.
  unfold pack_args. split; [|split].
  - intros ->. reflexivity.
  - intros p -> Hne. rewrite bool_decide_eq_true_2 by exact Hne. reflexivity.
  - intros p packed rest -> Hrt. case_bool_decide as Hl; [discriminate|].
    intros Hp. assert (Hlen : length args = length (arg_types p))
      by (destruct (decide (length args = length (arg_types p))); [assumption|contradiction]).
    split; [exact Hlen|]. apply pack_each_unpack_each; assumption.
Qed.

(** X8 (what a call returns).  When [send_call] returns after its future was
    resolved, the message it returns is the reply the future was resolved
    with, and either the reply was accepted, [success] is true and the body
    is the return codec's decoding of the reply's payload, or the reply was
    not accepted, [success] is false and the body is [None]. *)
Theorem X8_returned_body_follows_success c (fut : nat) (u : UnpackedRPCMsg value) :
  send_call_resume fut c = Some (Ok u) ->
  exists k reply_body,
    calls c !! fut = Some k
    /\ c_fut k = Result (msg u, reply_body)
    /\ ((success u = Ok true
         /\ exists v, u_body u = Some v /\ unpack_return (c_proc k) reply_body c = Ok v)
        \/ (success u = Ok false /\ u_body u = None)).
Proof.
  unfold send_call_resume. destruct (calls c !! fut) as [[x p [|[reply reply_body]|e] w]|] eqn:Ek;
    try discriminate.
  case_bool_decide as Ht; [discriminate|].
  destruct (rbody (header reply)) as [rb|] eqn:Erb; [|discriminate].
  case_bool_decide as Hs.
  - intros E. inversion E; subst u. exists (mkCall x p (Result (reply, reply_body)) w), reply_body.
    split; [reflexivity|]. split; [reflexivity|]. right. split; [|reflexivity].
    unfold success. cbn [msg]. rewrite bool_decide_eq_false_2 by (intros Hc; exact (Hc Ht)). rewrite Erb.
    rewrite bool_decide_eq_false_2 by exact Hs. reflexivity.
  - unfold mbind, result_bind.
    destruct (unpack_return p reply_body c) as [v|e] eqn:Ev; [|discriminate].
    intros E. inversion E; subst u. exists (mkCall x p (Result (reply, reply_body)) w), reply_body.
    split; [reflexivity|]. split; [reflexivity|]. left. split.
    + unfold success. cbn [msg]. rewrite bool_decide_eq_false_2 by (intros Hc; exact (Hc Ht)). rewrite Erb.
      rewrite bool_decide_eq_true_2 by exact Hs. reflexivity.
    + exists v. split; [reflexivity|exact Ev].
Qed.

(** X9 (a send that fails after registration).  When the client is connected
    and [pack_args] raises (unknown procedure or wrong number of arguments),
    [send_call] raises that exception after it has entered the future in
    the pending-call table: nothing is written, and the table keeps an entry
    under the transaction id for a call that was never sent. *)
Theorem X9_failed_send_leaves_its_entry c (t : TCPTransport) (proc_id : Z)
    (args : list value) (xid : option Z) (rand : Z) (conn : result TCPTransport) (e : exn) :
  transport c = Some t ->
  pack_args proc_id args c = Raise e ->
  let x := match xid with None => gen_xid rand | Some x => x end in
  exists c',
    send_call proc_id args xid rand conn c = (Raise e, c')
    /\ transport c' = Some t
    /\ xid_map c' = <[x := length (calls c)]> (xid_map c)
    /\ calls c' = calls c ++ [mkCall x proc_id Pending false].
Proof.
  intros Ht Hp x. eexists. split; [|split; [|split]].
  - unfold send_call. fold x. unfold mbind, io_bind, bind, mret, io_ret, ret.
    rewrite bool_decide_eq_false_2 by (rewrite Ht; discriminate).
    rewrite send_call_register_eq. unfold send_call_write.
    cbn [transport set_xid_map set_calls]. rewrite Ht.
    change (pack_args proc_id args (set_xid_map _ (set_calls _ c)))
      with (pack_args proc_id args c).
    rewrite Hp. reflexivity.
  - exact Ht.
  - reflexivity.
  - reflexivity.
Qed.

Lemma pump_reply_hit_state c m (i : nat) (k : call) :
  mtype (header m.1) = REPLY ->
  xid_map c !! xid m.1 = Some i ->
  calls c !! i = Some k ->
  c_fut k = Pending ->
  pump_reply m c =
    (Ok tt,
     set_calls (<[i := mkCall (c_xid k) (c_proc k) (Result m) (c_written k)]> (calls c))
       (set_xid_map (delete (xid m.1) (xid_map c)) c)).
Proof. destruct m as [reply reply_body]. apply pump_reply_hit. Qed.

(** X6 (order of replies).  On a sound pending-call table, two replies with
    different transaction ids can be handed to [pump_reply] in either
    order: both orders succeed and leave the same client state, so each
    call gets its own reply whatever the order of arrival. *)
Theorem X6_replies_commute c (m1 m2 : SPLIT_MSG) :
  table_sound c ->
  xid m1.1 <> xid m2.1 ->
  (_ ← pump_reply m1; pump_reply m2) c = (_ ← pump_reply m2; pump_reply m1) c
  /\ fst ((_ ← pump_reply m1; pump_reply m2) c) = Ok tt.
Proof.
  intros Hs Hne. unfold mbind, io_bind, bind.
  assert (Hmiss : forall (ma mb : SPLIT_MSG) (cb : TCPClient value),
             (mtype (header ma.1) <> REPLY \/ xid_map c !! xid ma.1 = None) ->
             (cb = c \/ xid_map cb = delete (xid mb.1) (xid_map c)) ->
             pump_reply ma cb = (Ok tt, cb)).
  { intros ma mb cb [Ht|Hx] Hcb; apply pump_reply_miss; [left; exact Ht|right].
    destruct Hcb as [-> | ->]; [exact Hx|].
    apply lookup_delete_None. right. exact Hx. }
  destruct (decide (mtype (header m1.1) = REPLY)) as [Ht1|Ht1];
    [destruct (xid_map c !! xid m1.1) as [i1|] eqn:Hx1|].
  2: { assert (R1 : mtype (header m1.1) <> REPLY \/ xid_map c !! xid m1.1 = None) by auto.
       rewrite (pump_reply_miss c m1 R1).
       destruct (pump_reply_cases c m2 Hs) as [E2|(i2 & k2 & _ & _ & _ & _ & _ & E2)];
         rewrite E2; rewrite ?E2; rewrite (Hmiss m1 m2 _ R1); auto. }
  2: { assert (R1 : mtype (header m1.1) <> REPLY \/ xid_map c !! xid m1.1 = None) by auto.
       rewrite (pump_reply_miss c m1 R1).
       destruct (pump_reply_cases c m2 Hs) as [E2|(i2 & k2 & _ & _ & _ & _ & _ & E2)];
         rewrite E2; rewrite ?E2; rewrite (Hmiss m1 m2 _ R1); auto. }
  destruct (Hs _ _ Hx1) as (k1 & Hk1 & Hkx1 & Hp1).
  rewrite (pump_reply_hit_state c m1 i1 k1 Ht1 Hx1 Hk1 Hp1).
  destruct (decide (mtype (header m2.1) = REPLY)) as [Ht2|Ht2];
    [destruct (xid_map c !! xid m2.1) as [i2|] eqn:Hx2|].
  2: { assert (R2 : mtype (header m2.1) <> REPLY \/ xid_map c !! xid m2.1 = None) by auto.
       rewrite (pump_reply_miss c m2 R2).
       rewrite (Hmiss m2 m1 _ R2) by (right; reflexivity).
       rewrite (pump_reply_hit_state c m1 i1 k1 Ht1 Hx1 Hk1 Hp1). auto. }
  2: { assert (R2 : mtype (header m2.1) <> REPLY \/ xid_map c !! xid m2.1 = None) by auto.
       rewrite (pump_reply_miss c m2 R2).
       rewrite (Hmiss m2 m1 _ R2) by (right; reflexivity).
       rewrite (pump_reply_hit_state c m1 i1 k1 Ht1 Hx1 Hk1 Hp1). auto. }
  destruct (Hs _ _ Hx2) as (k2 & Hk2 & Hkx2 & Hp2).
  assert (Hi : i1 <> i2) by (intros ->; congruence).
  rewrite (pump_reply_hit_state c m2 i2 k2 Ht2 Hx2 Hk2 Hp2).
  rewrite (pump_reply_hit_state _ m2 i2 k2 Ht2);
    [|cbn; rewrite lookup_delete_ne by exact Hne; exact Hx2
     |cbn; rewrite list_lookup_insert_ne by exact Hi; exact Hk2
     |exact Hp2].
  rewrite (pump_reply_hit_state _ m1 i1 k1 Ht1);
    [|cbn; rewrite lookup_delete_ne by (intros Heq; apply Hne; symmetry; exact Heq); exact Hx1
     |cbn; rewrite list_lookup_insert_ne by (intros Heq; apply Hi; symmetry; exact Heq); exact Hk1
     |exact Hp1].
  cbn [fst]. split; [|reflexivity]. f_equal.
  unfold set_calls, set_xid_map. cbn [prog vers procs transport xid_map calls].
  rewrite (delete_delete (xid_map c)).
  rewrite (list_insert_insert_ne (calls c) i2 i1) by (intros Heq; apply Hi; symmetry; exact Heq).
  reflexivity.
Qed.
End ClientExtras.

Section ClientRuns.
Context `{HeaderCodec} {value : Type}.
Implicit Types (c : TCPClient value) (m : SPLIT_MSG).

Lemma client_run_snoc (ops : list client_op) (op : client_op) c :
  client_run (ops ++ [op]) c = client_step op (client_run ops c).
Proof. unfold client_run. rewrite fold_left_app. reflexivity. Qed.

(** X5 (each call gets its own reply).  After any run of the client from its
    initial state, a call that has been resolved holds a message that the
    reply pump handed to [pump_reply], of type REPLY, whose transaction id
    is the call's own: a call is never resolved with another call's reply,
    and the assertion of [send_call] on the message type holds. *)
Theorem X5_calls_get_their_own_reply (prog vers : Z) (procs : gmap Z (Proc value))
    (ops : list client_op) (i : nat) (k : call) (m : SPLIT_MSG) :
  let c := client_run ops (TCPClient_init prog vers procs) in
  calls c !! i = Some k ->
  c_fut k = Result m ->
  mtype (header m.1) = REPLY /\ xid m.1 = c_xid k /\ OpPumpReply m ∈ ops.
Proof.
  revert i k m. induction ops as [|op ops IH] using rev_ind; intros i k m c Hk Hres.
  - cbn in Hk. rewrite lookup_nil in Hk. discriminate.
  - subst c. rewrite client_run_snoc in Hk.
    set (c := client_run ops (TCPClient_init prog vers procs)) in *.
    assert (Hs : table_sound c) by apply client_run_table_sound, table_sound_init.
    assert (Hold : calls c !! i = Some k ->
                   mtype (header m.1) = REPLY /\ xid m.1 = c_xid k
                   /\ OpPumpReply m ∈ ops ++ [op]).
    { intros Hk'. destruct (IH i k m Hk' Hres) as (? & ? & Hin).
      split; [assumption|]. split; [assumption|]. apply elem_of_app. left. exact Hin. }
    destruct op as [conn|proc_id args xid rand conn|m']; cbn [client_step] in Hk.
    + destruct (connect_state conn c) as [_ Hc]. rewrite Hc in Hk. auto.
    + destruct (send_call_state proc_id args xid rand conn c) as [Eq|[_ [w Hc]]].
      * rewrite Eq in Hk. auto.
      * rewrite Hc in Hk. apply lookup_snoc_Some in Hk as [[_ Hk]|[_ <-]]; [auto|].
        discriminate Hres.
    + destruct (pump_reply_cases c m' Hs) as [E|(j & kj & Ht & _ & Hkj & Hkx & _ & E)];
        rewrite E in Hk; cbn [snd] in Hk; [auto|].
      cbn [set_calls calls] in Hk. destruct (decide (j = i)) as [->|Hji].
      * rewrite list_lookup_insert_eq in Hk by (eapply lookup_lt_Some; exact Hkj).
        inversion Hk; subst k. cbn [c_fut c_xid] in *. inversion Hres; subst m'.
        split; [exact Ht|]. split; [symmetry; exact Hkx|].
        apply elem_of_app. right. apply list_elem_of_singleton. reflexivity.
      * rewrite list_lookup_insert_ne in Hk by exact Hji. auto.
Qed.

Lemma pump_reply_set_transport (t : TCPTransport) c m :
  pump_reply m (set_transport t c)
    = (fst (pump_reply m c), set_transport t (snd (pump_reply m c))).
Proof.
  destruct m as [reply reply_body]. destruct c as [pg vs ps tr xm cs].
  unfold pump_reply, set_result, set_transport, set_xid_map, set_calls.
  cbn [prog vers procs transport xid_map calls].
  destruct (negb _); [reflexivity|].
  destruct (xm !! xid reply) as [i|]; [|reflexivity].
  destruct (cs !! i) as [[x p [| |] w]|]; reflexivity.
Qed.

Lemma client_run_pumps_set_transport (msgs : list SPLIT_MSG) (t : TCPTransport) c :
  client_run (map OpPumpReply msgs) (set_transport t c)
    = set_transport t (client_run (map OpPumpReply msgs) c).
Proof.
  revert c. induction msgs as [|m msgs IH]; intros c; [reflexivity|].
  cbn [map client_run fold_left client_step]. rewrite pump_reply_set_transport. cbn [snd].
  apply IH.
Qed.

Lemma pump_replies_stream (bss : list bytes) (msgs : list SPLIT_MSG)
    c (t : TCPTransport) (eofs : list bool) :
  table_sound c ->
  transport c = Some t ->
  writer_closing t = false ->
  reader t = record_stream bss ->
  Forall2 (fun bs m => len bs <= 100000 /\ rpc_msg_unpack bs = Ok m) bss msgs ->
  length eofs = S (length msgs) ->
  pump_replies eofs c
    = Some (if reader_eof t || existsb id eofs then Ok tt else Raise IncompleteReadError,
            set_transport (mkTransport [] true (writer t) false)
              (client_run (map OpPumpReply msgs) c)).
Proof.
  intros Hs Ht Hc Hr Hall. revert c t eofs Hs Ht Hc Hr.
  induction Hall as [|bs m bss msgs [Hlen Hu] Hall IH]; intros c t eofs Hs Ht Hc Hr Hn.
  - destruct eofs as [|eof [|? ?]]; try discriminate Hn.
    cbn [pump_replies map client_run fold_left existsb id]. rewrite Ht. cbv zeta.
    destruct t as [rd e w cl]. cbn [reader reader_eof writer writer_closing] in *.
    subst rd cl. rewrite orb_false_r.
    destruct eof, e; reflexivity.
  - destruct eofs as [|eof eofs]; [discriminate Hn|].
    cbn [length] in Hn. injection Hn as Hn.
    cbn [pump_replies]. rewrite Ht. cbv zeta.
    destruct t as [rd e w cl]. cbn [reader reader_eof writer writer_closing] in *.
    subst rd cl.
    set (e' := if eof then true else e).
    assert (Et : (if eof then feed_eof (mkTransport (record_stream (bs :: bss)) e w false)
                  else mkTransport (record_stream (bs :: bss)) e w false)
                 = mkTransport (record_stream (bs :: bss)) e' w false)
      by (subst e'; destruct eof; reflexivity).
    rewrite Et.
    assert (Hcl : closed (mkTransport (record_stream (bs :: bss)) e' w false) = false).
    { apply closed_nonempty; [apply record_stream_cons_ne|reflexivity]. }
    rewrite Hcl. rewrite read_msg_eq, read_msg_bytes_record_stream by exact Hlen.
    rewrite Hu. rewrite pump_reply_set_transport.
    assert (Ef : fst (pump_reply m c) = Ok tt)
      by (destruct (pump_reply_cases c m Hs) as [E|(? & ? & _ & _ & _ & _ & _ & E)];
          rewrite E; reflexivity).
    rewrite Ef.
    rewrite (IH _ (mkTransport (record_stream bss) e' w false));
      [|apply set_transport_table_sound, pump_reply_table_sound; exact Hs
       |reflexivity|reflexivity|reflexivity|exact Hn].
    cbn [reader_eof writer existsb id map client_run fold_left client_step].
    rewrite client_run_pumps_set_transport.
    replace (e' || existsb id eofs) with (e || (eof || existsb id eofs))
      by (subst e'; destruct eof, e; reflexivity).
    destruct (e || (eof || existsb id eofs)); reflexivity.
Qed.

(** X16 (the reply pump, message by message).  On a sound pending-call
    table, when the reader holds well-framed messages of at most 100,000
    bytes that the header codec unpacks, [pump_replies] reads them all, in
    order, and hands each one to [pump_reply]; the client is then in the
    state that the calls of [pump_reply] on those messages lead to, with
    nothing left to read.  How the pump ends depends on when the end of
    stream is received: if it has been by the time the loop tests [closed]
    after the last message, the pump returns; if not, the pump waits in a
    further read and ends with [IncompleteReadError] when the end of stream
    arrives. *)
Theorem X16_pump_replies_delivers_stream (bss : list bytes) (msgs : list SPLIT_MSG)
    c (t : TCPTransport) (eofs : list bool) :
  table_sound c ->
  transport c = Some t ->
  writer_closing t = false ->
  reader t = record_stream bss ->
  Forall2 (fun bs m => len bs <= 100000 /\ rpc_msg_unpack bs = Ok m) bss msgs ->
  length eofs = S (length msgs) ->
  pump_replies eofs c
    = Some (if reader_eof t || existsb id eofs then Ok tt else Raise IncompleteReadError,
            set_transport (mkTransport [] true (writer t) false)
              (client_run (map OpPumpReply msgs) c)).
Proof. apply pump_replies_stream. Qed.
End ClientRuns.

(** ** The server: answered calls, ignored messages, transport faults *)

Section ServerExtras.
Context `{HeaderCodec} {value app : Type}.
Implicit Types (s : Server value app) (t : TCPTransport).

Lemma write_msg_ok (h : v_rpc_msg) (hb b : bytes) t :
  rpc_msg_pack h = Ok hb -> len hb + len (xdr_pad b) < 2 ^ 31 ->
  writer_closing t = false ->
  write_msg h b t
    = (Ok tt, mkTransport (reader t) (reader_eof t)
                (writer t ++ record_mark [hb ++ xdr_pad b]) false).
Proof.
  intros Hp Hl Hc. unfold write_msg, mbind, io_bind, bind, lift.
  rewrite Hp, pack_fstring_len. apply write_msg_bytes_small; [rewrite len_app; lia|exact Hc].
Qed.

Lemma not_closed_flag t : closed t = false -> writer_closing t = false.
Proof. unfold closed. intros Hc. apply orb_false_iff in Hc as [_ Hc]. exact Hc. Qed.

Lemma handle_connection_answers s t (polls : list poll) (call : v_rpc_msg)
    (call_body : bytes) t1 (cb : v_call_body) (reply_body : bytes) s1 (hb : bytes) :
  closed t = false ->
  read_msg t = (Ok (call, call_body), t1) ->
  mtype (header call) = CALL ->
  cbody (header call) = Some cb ->
  handle_proc_call (proc cb) call_body s = (Ok reply_body, s1) ->
  rpc_msg_pack (make_reply (xid call) 0 0) = Ok hb ->
  len hb + len (xdr_pad reply_body) < 2 ^ 31 ->
  handle_connection (Ready :: polls) (s, t)
    = handle_connection polls
        (s1, mkTransport (reader t1) (reader_eof t1)
               (writer t ++ record_mark [hb ++ xdr_pad reply_body]) false)
  /\ make_reply (xid call) 0 0 = make_reply (xid call) MSG_ACCEPTED SUCCESS.
Proof.
  intros Hcl Hr Ht Hcb Hd Hp Hl. split; [|reflexivity].
  destruct (read_msg_writer _ _ _ Hr) as [Hw Hwc].
  assert (Hnc : writer_closing t1 = false) by (rewrite Hwc; apply not_closed_flag, Hcl).
  cbn [handle_connection]. rewrite Hcl. unfold after_read. rewrite Hr.
  rewrite bool_decide_eq_true_2 by exact Ht. cbn [negb].
  unfold handle_call. rewrite Hcb, Hd.
  rewrite (write_msg_ok _ hb reply_body t1 Hp Hl Hnc). rewrite Hw. reflexivity.
Qed.

(** X10 (an answered call).  When the connection loop has read a call whose
    dispatch returns, it writes exactly one record, the reply that
    [make_reply] builds with the call's transaction id and the default
    statuses (accepted, success) followed by the packed result padded to a
    multiple of four, leaves the transport open, and goes on with the next
    iteration on what is left of the reader. *)
Theorem X10_successful_call_is_answered_once s t (polls : list poll) (call : v_rpc_msg)
    (call_body : bytes) t1 (cb : v_call_body) (reply_body : bytes) s1 (hb : bytes) :
  closed t = false ->
  read_msg t = (Ok (call, call_body), t1) ->
  mtype (header call) = CALL ->
  cbody (header call) = Some cb ->
  handle_proc_call (proc cb) call_body s = (Ok reply_body, s1) ->
  rpc_msg_pack (make_reply (xid call) 0 0) = Ok hb ->
  len hb + len (xdr_pad reply_body) < 2 ^ 31 ->
  handle_connection (Ready :: polls) (s, t)
    = handle_connection polls
        (s1, mkTransport (reader t1) (reader_eof t1)
               (writer t ++ record_mark [hb ++ xdr_pad reply_body]) false)
  /\ make_reply (xid call) 0 0 = make_reply (xid call) MSG_ACCEPTED SUCCESS.
Proof. apply handle_connection_answers. Qed.

Lemma record_stream_cons_not_closed (bs : bytes) (bss : list bytes) (e : bool) (w : bytes) :
  closed (mkTransport (record_stream (bs :: bss)) e w false) = false.
Proof. apply closed_nonempty; [apply record_stream_cons_ne|reflexivity]. Qed.

Lemma read_msg_record_stream (bs : bytes) (bss : list bytes) (e : bool) (w : bytes)
    (c : bool) :
  len bs <= 100000 ->
  read_msg (mkTransport (record_stream (bs :: bss)) e w c)
    = (rpc_msg_unpack bs, mkTransport (record_stream bss) e w c).
Proof.
  intros Hl. rewrite read_msg_eq, read_msg_bytes_record_stream by exact Hl. reflexivity.
Qed.

(** Once the end of stream has been received no read is suspended, so no
    wait expires. *)
Lemma cancelled_read_eof (n : nat) t : reader_eof t = true -> cancelled_read n t = None.
Proof. unfold cancelled_read. intros ->. reflexivity. Qed.

Lemma feed_eof_again t : reader_eof t = true -> feed_eof t = t.
Proof. destruct t as [rd e w c]. cbn. intros ->. reflexivity. Qed.

(** On a transport that is at the end of its stream the loop returns. *)
Lemma handle_connection_at_eof (polls : list poll) s (w : bytes) (c : bool) :
  handle_connection polls (s, mkTransport [] true w c)
    = Some (Ok tt, (s, mkTransport [] true w true)).
Proof.
  induction polls as [|[k| |] polls IH]; cbn [handle_connection]; try reflexivity.
  exact IH.
Qed.

(** A read on a stream that has ended, of which the end has not been
    received yet, waits for it and ends the loop. *)
Lemma handle_connection_awaits_eof (polls : list poll) s (w : bytes) :
  handle_connection (Ready :: polls) (s, mkTransport [] false w false)
    = Some (Raise IncompleteReadError, (s, mkTransport [] true w false)).
Proof. reflexivity. Qed.

Lemma ignored_after_eof (polls : list poll) :
  forall (bss : list bytes) s (w : bytes),
    Forall (fun bs => len bs <= 100000
                      /\ exists m : SPLIT_MSG, rpc_msg_unpack bs = Ok m
                                               /\ mtype (header m.1) <> CALL) bss ->
    (length bss <= iterations polls)%nat ->
    handle_connection polls (s, mkTransport (record_stream bss) true w false)
      = Some (Ok tt, (s, mkTransport [] true w true)).
Proof.
  induction polls as [|p polls IH]; intros bss s w Hall Hn.
  - destruct bss; [reflexivity|cbn in Hn; lia].
  - destruct bss as [|bs bss]; [apply handle_connection_at_eof|].
    pose proof Hall as Hall0.
    apply Forall_cons in Hall as [(Hlen & [msg body] & Hu & Hm) Hall].
    cbn [fst] in Hm.
    assert (Hn' : (length bss <= iterations polls)%nat).
    { unfold iterations in *. destruct p.
      - rewrite filter_cons_True in Hn by discriminate. cbn [length] in Hn. lia.
      - rewrite filter_cons_True in Hn by discriminate. cbn [length] in Hn. lia.
      - rewrite filter_cons_False in Hn by (intros Hc; apply Hc; reflexivity).
        cbn [length] in Hn. lia. }
    assert (Hread : after_read (handle_connection polls) s
                      (read_msg (mkTransport (record_stream (bs :: bss)) true w false))
                    = Some (Ok tt, (s, mkTransport [] true w true))).
    { unfold after_read. rewrite read_msg_record_stream by exact Hlen. rewrite Hu.
      rewrite bool_decide_eq_false_2 by exact Hm. cbn [negb].
      apply IH; [exact Hall|exact Hn']. }
    destruct p as [k| |]; cbn [handle_connection].
    + rewrite record_stream_cons_not_closed, cancelled_read_eof by reflexivity. exact Hread.
    + rewrite record_stream_cons_not_closed. exact Hread.
    + change (feed_eof (mkTransport (record_stream (bs :: bss)) true w false))
        with (mkTransport (record_stream (bs :: bss)) true w false).
      apply IH; [exact Hall0|]. unfold iterations in *.
      rewrite filter_cons_False in Hn by (intros Hc; apply Hc; reflexivity). exact Hn.
Qed.

Lemma ignored_one_by_one (bss : list bytes) :
  forall (polls : list poll) s (w : bytes),
    Forall (fun bs => len bs <= 100000
                      /\ exists m : SPLIT_MSG, rpc_msg_unpack bs = Ok m
                                               /\ mtype (header m.1) <> CALL) bss ->
    handle_connection (replicate (length bss) Ready ++ polls)
      (s, mkTransport (record_stream bss) false w false)
    = handle_connection polls (s, mkTransport [] false w false).
Proof.
  induction bss as [|bs bss IH]; intros polls s w Hall; [reflexivity|].
  apply Forall_cons in Hall as [(Hlen & [msg body] & Hu & Hm) Hall]. cbn [fst] in Hm.
  cbn [length replicate List.app handle_connection].
  rewrite record_stream_cons_not_closed. unfold after_read.
  rewrite read_msg_record_stream by exact Hlen. rewrite Hu.
  rewrite bool_decide_eq_false_2 by exact Hm. cbn [negb].
  apply IH. exact Hall.
Qed.

(** X11 (messages that are not calls).  When everything the connection
    delivers is well-framed messages that are not of type CALL, the server
    ignores them: it writes nothing and leaves the server object as it
    was.  If the end of stream has been received before the loop starts, no
    read is suspended: whatever the schedule, after one iteration per
    message the loop returns normally, with the transport closed.  If it
    has not and each read runs to its end, the reader is empty after one
    iteration per message and the loop goes on; it then ends with
    [IncompleteReadError], the transport not closed, when the end of stream
    arrives while the next read waits for bytes, and returns normally when
    the end of stream arrives before the loop tests [closed] again. *)
Theorem X11_non_calls_are_ignored (bss : list bytes) s (w : bytes) :
  Forall (fun bs => len bs <= 100000
                    /\ exists m : SPLIT_MSG, rpc_msg_unpack bs = Ok m
                                             /\ mtype (header m.1) <> CALL) bss ->
  (forall polls, (length bss <= iterations polls)%nat ->
     handle_connection polls (s, mkTransport (record_stream bss) true w false)
       = Some (Ok tt, (s, mkTransport [] true w true)))
  /\ (forall polls,
        handle_connection (replicate (length bss) Ready ++ polls)
          (s, mkTransport (record_stream bss) false w false)
        = handle_connection polls (s, mkTransport [] false w false))
  /\ (forall polls,
        handle_connection (replicate (length bss) Ready ++ Ready :: polls)
          (s, mkTransport (record_stream bss) false w false)
        = Some (Raise IncompleteReadError, (s, mkTransport [] true w false)))
  /\ (forall polls,
        handle_connection (replicate (length bss) Ready ++ EndOfStream :: polls)
          (s, mkTransport (record_stream bss) false w false)
        = Some (Ok tt, (s, mkTransport [] true w true))).
Proof.
  intros Hall. split; [|split; [|split]].
  - intros polls Hn. apply ignored_after_eof; assumption.
  - intros polls. apply ignored_one_by_one. exact Hall.
  - intros polls. rewrite ignored_one_by_one by exact Hall.
    apply handle_connection_awaits_eof.
  - intros polls. rewrite ignored_one_by_one by exact Hall.
    cbn [handle_connection]. apply handle_connection_at_eof.
Qed.

(** X12 (transport faults).  When the connection delivers a message longer
    than 100,000 bytes, or ends inside a message, the connection loop ends
    with the exception of the read (the "overly large" error, or
    [IncompleteReadError]): no reply is written, no handler runs, and the
    transport is not closed by the loop. *)
Theorem X12_transport_fault_ends_loop_unclosed s (polls : list poll)
    (frags : list bytes) (eof : bool) (w : bytes) :
  frags <> [] ->
  Forall (fun f => len f < 2 ^ 31) frags ->
  (len (concat frags) > 100000 ->
     forall rest, exists total_len frag_len rd',
       handle_connection (Ready :: polls)
         (s, mkTransport (record_mark frags ++ rest) eof w false)
         = Some (Raise (OverlyLarge total_len frag_len), (s, mkTransport rd' eof w false)))
  /\ (len (concat frags) <= 100000 ->
      forall n, (0 < n < length (record_mark frags))%nat ->
        handle_connection (Ready :: polls)
          (s, mkTransport (take n (record_mark frags)) eof w false)
          = Some (Raise IncompleteReadError, (s, mkTransport [] true w false))).
Proof.
  intros Hne Hall. split.
  - intros Hbig rest.
    destruct (read_stream_too_large frags rest Hne Hall Hbig) as (tl & fl & rd' & E & _).
    exists tl, fl, rd'. cbn [handle_connection].
    assert (Hcl : closed (mkTransport (record_mark frags ++ rest) eof w false) = false).
    { apply closed_nonempty; [|reflexivity]. cbn [reader].
      destruct frags as [|f [|g fs]]; [done| |];
        [rewrite record_mark_last|rewrite record_mark_cons]; unfold be32; discriminate. }
    rewrite Hcl. unfold after_read. rewrite read_msg_eq.
    rewrite (read_msg_bytes_raise (mkTransport (record_mark frags ++ rest) eof w false)
               _ rd' E).
    cbn [reader_eof writer writer_closing met_eof]. rewrite orb_false_r. reflexivity.
  - intros Hok n Hn. cbn [handle_connection].
    assert (Hcl : closed (mkTransport (take n (record_mark frags)) eof w false) = false).
    { apply closed_nonempty; [|reflexivity]. cbn [reader].
      intros E. apply (f_equal length) in E. rewrite length_take in E. cbn in E. lia. }
    rewrite Hcl. unfold after_read. rewrite read_msg_eq.
    rewrite (read_msg_bytes_truncated frags n eof w false Hne Hok (proj2 Hn)).
    reflexivity.
Qed.
End ServerExtras.

Section LoopExtras.
Context `{HeaderCodec} {value app : Type}.
Implicit Types (s : Server value app) (t : TCPTransport).

Lemma write_msg_effect (h : v_rpc_msg) (b : bytes) t (r : result unit) t1 :
  write_msg h b t = (r, t1) ->
  reader t1 = reader t /\ writer_closing t1 = writer_closing t
  /\ exists w', writer t1 = writer t ++ w'.
Proof.
  unfold write_msg, write_msg_bytes, writer_write, mbind, io_bind, bind, lift.
  assert (Hsame : reader t = reader t /\ writer_closing t = writer_closing t
                  /\ exists w', writer t = writer t ++ w')
    by (split; [reflexivity|]; split; [reflexivity|]; exists []; rewrite app_nil_r; reflexivity).
  destruct (rpc_msg_pack h); [|intros E; inversion E; subst; exact Hsame].
  destruct (pack_fstring _ _); [|intros E; inversion E; subst; exact Hsame].
  destruct (struct_pack_L _); [|intros E; inversion E; subst; exact Hsame].
  destruct (writer_closing t) eqn:Hc; intros E; inversion E; subst.
  - rewrite Hc. split; [reflexivity|]. split; [reflexivity|]. exists []. rewrite app_nil_r.
    reflexivity.
  - cbn. split; [reflexivity|]. split; [reflexivity|]. eexists. reflexivity.
Qed.

Lemma handle_call_effect (call : v_rpc_msg) (call_body : bytes) s t
    (r : result unit) s1 t1 :
  handle_call call call_body (s, t) = (r, (s1, t1)) ->
  reader t1 = reader t /\ writer_closing t1 = writer_closing t
  /\ (exists w', writer t1 = writer t ++ w')
  /\ (exists inv', invoked s1 = invoked s ++ inv').
Proof.
  assert (Hnil : forall l : bytes, exists w', l = l ++ w')
    by (intros l; exists []; rewrite app_nil_r; reflexivity).
  unfold handle_call. destruct (cbody (header call)) as [cb|].
  2: { intros E. inversion E; subst. repeat (split; [reflexivity|]).
       split; [apply Hnil|]. exists []. rewrite app_nil_r. reflexivity. }
  pose proof (handle_proc_call_invoked s (proc cb) call_body) as Hinv.
  assert (Hinv' : exists inv', invoked (snd (handle_proc_call (proc cb) call_body s))
                               = invoked s ++ inv').
  { destruct Hinv as [->|(n & argl & ->)]; [exists []; rewrite app_nil_r|eexists]; reflexivity. }
  destruct (handle_proc_call (proc cb) call_body s) as [[reply_body|e] s'];
    cbn [snd] in Hinv'.
  - destruct (write_msg _ reply_body t) as [r' t'] eqn:Ew. intros E. inversion E; subst.
    destruct (write_msg_effect _ _ _ _ _ Ew) as (Hr & Hc & Hw). auto.
  - intros E. inversion E; subst. repeat (split; [reflexivity|]). split; [apply Hnil|exact Hinv'].
Qed.

(** X13 (how the connection loop ends).  Whatever [handle_connection]
    returns, the server has only appended to what was written before and to
    its record of invocations.  When it returns normally the transport is
    closed, and, unless the writer was closing from the start, nothing is
    left in the reader: the loop never returns normally before the end of
    the stream. *)
Theorem X13_normal_return_closes_at_end_of_stream (polls : list poll) :
  forall s t (r : result unit) s' t',
    handle_connection polls (s, t) = Some (r, (s', t')) ->
    (exists w', writer t' = writer t ++ w')
    /\ (exists inv', invoked s' = invoked s ++ inv')
    /\ (r = Ok tt ->
        writer_closing t' = true /\ (writer_closing t = false -> reader t' = [])).
Proof.
  assert (Hnil : forall A (l : list A), exists w', l = l ++ w')
    by (intros A l; exists []; rewrite app_nil_r; reflexivity).
  assert (Htrans : forall A (l1 l2 l3 : list A),
             (exists w, l2 = l1 ++ w) -> (exists w, l3 = l2 ++ w) -> exists w, l3 = l1 ++ w).
  { intros A l1 l2 l3 [w1 ->] [w2 ->]. exists (w1 ++ w2). rewrite app_assoc. reflexivity. }
  assert (Hexit : forall s t r s' t',
             closed t = true -> Some (Ok tt, (s, close t)) = Some (r, (s', t')) ->
             (exists w', writer t' = writer t ++ w')
             /\ (exists inv', invoked s' = invoked s ++ inv')
             /\ (r = Ok tt ->
                 writer_closing t' = true /\ (writer_closing t = false -> reader t' = []))).
  { intros s t r s' t' Hcl E. inversion E; subst.
    split; [apply Hnil|]. split; [apply Hnil|]. intros _. split; [reflexivity|].
    intros Hc. unfold closed in Hcl. rewrite Hc, orb_false_r in Hcl.
    unfold at_eof in Hcl. apply andb_true_iff in Hcl as [_ Hcl].
    apply bool_decide_eq_true_1 in Hcl. exact Hcl. }
  induction polls as [|p polls IH]; intros s t r s' t' E; cbn [handle_connection] in E.
  - destruct (closed t) eqn:Hcl; [|discriminate]. exact (Hexit _ _ _ _ _ Hcl E).
  - assert (Hread : after_read (handle_connection polls) s (read_msg t) = Some (r, (s', t')) ->
                    (exists w', writer t' = writer t ++ w')
                    /\ (exists inv', invoked s' = invoked s ++ inv')
                    /\ (r = Ok tt ->
                        writer_closing t' = true
                        /\ (writer_closing t = false -> reader t' = []))).
    { clear E. unfold after_read. intros E.
      destruct (read_msg t) as [[[call call_body]|e] t1] eqn:Er.
      2: { inversion E; subst. destruct (read_msg_writer _ _ _ Er) as [Hw _].
           split; [rewrite Hw; apply Hnil|]. split; [apply Hnil|]. discriminate. }
      destruct (read_msg_writer _ _ _ Er) as [Hw Hwc].
      destruct (negb _).
      { destruct (IH _ _ _ _ _ E) as (Hw' & Hi' & Hok). rewrite Hw in Hw'.
        rewrite Hwc in Hok. auto. }
      destruct (handle_call call call_body (s, t1)) as [[[]|e] [s2 t2]] eqn:Eh.
      + destruct (handle_call_effect _ _ _ _ _ _ _ Eh) as (_ & Hc2 & Hw2 & Hi2).
        destruct (IH _ _ _ _ _ E) as (Hw' & Hi' & Hok).
        rewrite Hw in Hw2. rewrite Hc2, Hwc in Hok.
        split; [eapply Htrans; eassumption|]. split; [eapply Htrans; eassumption|]. exact Hok.
      + destruct (handle_call_effect _ _ _ _ _ _ _ Eh) as (_ & _ & Hw2 & Hi2).
        rewrite Hw in Hw2.
        destruct (write_msg _ [] t2) as [[[]|e'] t3] eqn:Ew; inversion E; subst;
          destruct (write_msg_effect _ _ _ _ _ Ew) as (_ & _ & Hw3).
        * split; [cbn [close writer]; eapply Htrans; eassumption|].
          split; [exact Hi2|]. discriminate.
        * split; [eapply Htrans; eassumption|]. split; [exact Hi2|]. discriminate. }
    destruct p as [k| |].
    + destruct (closed t) eqn:Hcl; [exact (Hexit _ _ _ _ _ Hcl E)|].
      unfold cancelled_read in E. destruct (reader_eof t); [exact (Hread E)|].
      destruct (read_suspensions _ _ _ !! k) as [rd'|]; [|exact (Hread E)].
      exact (IH _ _ _ _ _ E).
    + destruct (closed t) eqn:Hcl; [exact (Hexit _ _ _ _ _ Hcl E)|]. exact (Hread E).
    + exact (IH _ _ _ _ _ E).
Qed.
End LoopExtras.

(** ** A call from end to end *)

Section EndToEnd.
Context `{HeaderCodec} {value app : Type}.

Lemma alter_last {A} (f : A -> A) (l : list A) (x : A) :
  alter f (length l) (l ++ [x]) = l ++ [f x].
Proof.
  replace (length l) with (length l + 0)%nat at 1 by lia. rewrite alter_app_r. reflexivity.
Qed.

Lemma send_call_ok (c : TCPClient value) (tc : TCPTransport) (proc_id : Z)
    (args : list value) (xid : option Z) (rand : Z) (conn : result TCPTransport)
    (ab hb : bytes) :
  let x := match xid with None => gen_xid rand | Some x => x end in
  transport c = Some tc ->
  writer_closing tc = false ->
  pack_args proc_id args c = Ok ab ->
  rpc_msg_pack (call_msg c x proc_id) = Ok hb ->
  len hb + len (xdr_pad ab) < 2 ^ 31 ->
  send_call proc_id args xid rand conn c
    = (Ok (length (calls c)),
       mkClient (prog c) (vers c) (procs c)
         (Some (mkTransport (reader tc) (reader_eof tc)
                  (writer tc ++ record_mark [hb ++ xdr_pad ab]) false))
         (<[x := length (calls c)]> (xid_map c))
         (calls c ++ [mkCall x proc_id Pending true])).
Proof.
  intros x Ht Hc Hp Hh Hl. unfold send_call. fold x.
  unfold mbind, io_bind, bind, mret, io_ret, ret.
  rewrite bool_decide_eq_false_2 by (rewrite Ht; discriminate).
  rewrite send_call_register_eq. unfold send_call_write.
  cbn [transport set_xid_map set_calls]. rewrite Ht.
  change (pack_args proc_id args (set_xid_map _ (set_calls _ c)))
    with (pack_args proc_id args c).
  rewrite Hp.
  change (call_msg (set_xid_map _ (set_calls _ c)) x proc_id) with (call_msg c x proc_id).
  rewrite (write_msg_ok _ hb ab tc Hh Hl Hc).
  unfold mark_written, set_transport, set_calls, set_xid_map.
  cbn [prog vers procs transport xid_map calls].
  rewrite alter_last. reflexivity.
Qed.

(** X15 (a call that is sent).  On a connected client whose writer is open,
    when the arguments pack and the call header packs, [send_call] writes
    exactly one record (the header followed by the packed arguments, padded
    to a multiple of four), enters a new pending future in the table under
    the transaction id, and suspends on that future; nothing else of the
    client changes. *)
Theorem X15_send_call_writes_one_record (c : TCPClient value) (tc : TCPTransport)
    (proc_id : Z) (args : list value) (xid : option Z) (rand : Z)
    (conn : result TCPTransport) (ab hb : bytes) :
  let x := match xid with None => gen_xid rand | Some x => x end in
  transport c = Some tc ->
  writer_closing tc = false ->
  pack_args proc_id args c = Ok ab ->
  rpc_msg_pack (call_msg c x proc_id) = Ok hb ->
  len hb + len (xdr_pad ab) < 2 ^ 31 ->
  send_call proc_id args xid rand conn c
    = (Ok (length (calls c)),
       mkClient (prog c) (vers c) (procs c)
         (Some (mkTransport (reader tc) (reader_eof tc)
                  (writer tc ++ record_mark [hb ++ xdr_pad ab]) false))
         (<[x := length (calls c)]> (xid_map c))
         (calls c ++ [mkCall x proc_id Pending true])).
Proof. apply send_call_ok. Qed.
End EndToEnd.

Section EndToEndCall.
Context `{HeaderCodec} {value app : Type}.

Lemma record_stream_single (bs : bytes) : record_stream [bs] = record_mark [bs].
Proof. unfold record_stream. cbn [map concat]. apply app_nil_r. Qed.

Lemma pack_args_decodes (c : TCPClient value) (proc_id : Z) (p : Proc value)
    (args : list value) (ab : bytes) :
  procs c !! proc_id = Some p ->
  Forall codec_round_trips (arg_types p) ->
  pack_args proc_id args c = Ok ab ->
  unpack_each (arg_types p) ab = Ok (args, []).
Proof.
  intros Hp Hrt. unfold pack_args. rewrite Hp. case_bool_decide as Hl; [discriminate|].
  intros Hpk. rewrite <- (app_nil_r ab). apply pack_each_unpack_each; [|exact Hrt|exact Hpk].
  destruct (decide (length args = length (arg_types p))); [assumption|contradiction].
Qed.

Lemma handle_proc_call_returns (s : Server value app) (proc_id : Z) (p : Proc value)
    (h : handler value app) (args : list value) (rest ab rb : bytes) (rv : value) (a : app) :
  s_procs s !! proc_id = Some (Some p) ->
  unpack_each (arg_types p) ab = Ok (args, rest) ->
  methods s !! name p = Some h ->
  h args (app_state s) = (Ok rv, a) ->
  pack (ret_type p) rv = Ok rb ->
  handle_proc_call proc_id ab s = (Ok rb, record_invocation (name p) args a s).
Proof.
  intros Hp Hu Hm Hh Hr. unfold handle_proc_call, get_handler. rewrite Hp. cbv beta iota.
  rewrite Hu. cbv beta iota. rewrite Hm. cbv beta iota. rewrite Hh, Hr. reflexivity.
Qed.

(** X14 (a call from end to end).  A client sends a call of a procedure that
    both tables declare, the server reads what the client wrote, and the
    client then reads what the server wrote.  When the codecs of the
    procedure undo each other and produce multiples of four bytes, the
    header codec packs and unpacks the two headers, and the messages are
    within the size limit: in the iteration that reads the call the
    server's handler is invoked once, with exactly the arguments given to
    [send_call], and the reply is written; when the pump has read the
    reply, [send_call] returns it together with exactly the value the
    handler returned.  How the two loops end is decided by the arrival of
    the end of stream: the server's loop and the client's pump return
    normally if it has been received before they test [closed] again, and
    end with [IncompleteReadError] if it arrives while they wait in their
    next read. *)
Theorem X14_call_returns_handler_result
    (c : TCPClient value) (s : Server value app) (tc : TCPTransport)
    (proc_id x : Z) (p : Proc value) (h : handler value app) (args : list value)
    (ab hb rb hrb : bytes) (rv : value) (a : app) (rand : Z)
    (conn : result TCPTransport) :
  transport c = Some tc -> writer_closing tc = false -> table_sound c ->
  procs c !! proc_id = Some p ->
  pack_args proc_id args c = Ok ab -> len ab mod 4 = 0 ->
  rpc_msg_pack (call_msg c x proc_id) = Ok hb ->
  rpc_msg_unpack (hb ++ ab) = Ok (call_msg c x proc_id, ab) ->
  len hb + len ab <= 100000 ->
  s_procs s !! proc_id = Some (Some p) -> methods s !! name p = Some h ->
  Forall codec_round_trips (arg_types p) -> codec_round_trips (ret_type p) ->
  h args (app_state s) = (Ok rv, a) ->
  pack (ret_type p) rv = Ok rb -> len rb mod 4 = 0 ->
  rpc_msg_pack (make_reply x 0 0) = Ok hrb ->
  rpc_msg_unpack (hrb ++ rb) = Ok (make_reply x 0 0, rb) ->
  len hrb + len rb <= 100000 ->
  reader tc = record_mark [hrb ++ rb] ->
  exists c1 s1,
    send_call proc_id args (Some x) rand conn c = (Ok (length (calls c)), c1)
    /\ (writer <$> transport c1) = Some (writer tc ++ record_mark [hb ++ ab])
    /\ (forall polls,
          handle_connection (Ready :: polls) (s, receiving (record_mark [hb ++ ab]))
          = handle_connection polls
              (s1, mkTransport [] false (record_mark [hrb ++ rb]) false))
    /\ invoked s1 = invoked s ++ [(name p, args)]
    /\ app_state s1 = a
    /\ (forall polls,
          handle_connection (Ready :: Ready :: polls) (s, receiving (record_mark [hb ++ ab]))
          = Some (Raise IncompleteReadError,
                  (s1, mkTransport [] true (record_mark [hrb ++ rb]) false)))
    /\ (forall polls,
          handle_connection (Ready :: EndOfStream :: polls)
            (s, receiving (record_mark [hb ++ ab]))
          = Some (Ok tt, (s1, mkTransport [] true (record_mark [hrb ++ rb]) true)))
    /\ (forall eofs : list bool, length eofs = 2%nat ->
          exists c2,
            pump_replies eofs c1
              = Some (if reader_eof tc || existsb id eofs
                      then Ok tt else Raise IncompleteReadError, c2)
            /\ send_call_resume (length (calls c)) c2
                 = Some (Ok (mkUnpacked (make_reply x 0 0) (Some rv)))).
Proof.
  intros Htc Hwc Hs Hp Hargs Hab Hhb Hub Hlc Hsp Hm Hrt Hrr Hh Hrb Hrbl Hhrb Hur Hlr Hrd.
  pose proof (xdr_pad_aligned ab Hab) as Epa. pose proof (xdr_pad_aligned rb Hrbl) as Epr.
  set (n := length (calls c)).
  set (c1 := mkClient (prog c) (vers c) (procs c)
               (Some (mkTransport (reader tc) (reader_eof tc)
                        (writer tc ++ record_mark [hb ++ ab]) false))
               (<[x := n]> (xid_map c)) (calls c ++ [mkCall x proc_id Pending true])).
  set (s1 := record_invocation (name p) args a s).
  set (m := (make_reply x 0 0, rb) : SPLIT_MSG).
  assert (Hs1 : table_sound c1)
    by (apply (table_sound_extend c c1 x proc_id true Hs); reflexivity).
  assert (Hf2 : Forall2 (fun bs m0 => len bs <= 100000 /\ rpc_msg_unpack bs = Ok m0)
                  [hrb ++ rb] [m]).
  { constructor; [|constructor]. split; [rewrite len_app; exact Hlr|exact Hur]. }
  pose proof (send_call_ok c tc proc_id args (Some x) rand conn ab hb Htc Hwc Hargs Hhb)
    as Hsend.
  rewrite Epa in Hsend. specialize (Hsend ltac:(lia)).
  assert (Hserve : forall polls,
             handle_connection (Ready :: polls) (s, receiving (record_mark [hb ++ ab]))
             = handle_connection polls
                 (s1, mkTransport [] false (record_mark [hrb ++ rb]) false)).
  { intros polls.
    pose proof (handle_connection_answers s (mkTransport (record_stream [hb ++ ab]) false [] false)
                  polls (call_msg c x proc_id) ab
                  (mkTransport (record_stream []) false [] false)
                  (mk_call_body 2 (prog c) (vers c) proc_id
                     (mk_opaque_auth AUTH_NONE []) (mk_opaque_auth AUTH_NONE []))
                  rb s1 hrb) as Hone.
    rewrite Epr in Hone. rewrite record_stream_single in Hone.
    destruct Hone as [Hone _].
    { rewrite <- record_stream_single. apply record_stream_cons_not_closed. }
    { rewrite <- record_stream_single.
      rewrite read_msg_record_stream by (rewrite len_app; exact Hlc). rewrite Hub. reflexivity. }
    { reflexivity. }
    { reflexivity. }
    { cbn [proc]. apply (handle_proc_call_returns s proc_id p h args [] ab rb rv a);
        try assumption. exact (pack_args_decodes c proc_id p args ab Hp Hrt Hargs). }
    { exact Hhrb. }
    { lia. }
    exact Hone. }
  exists c1, s1. split; [exact Hsend|]. split; [reflexivity|]. split; [exact Hserve|].
  split; [reflexivity|]. split; [reflexivity|].
  split; [intros polls; rewrite Hserve; apply handle_connection_awaits_eof|].
  split; [intros polls; rewrite Hserve; cbn [handle_connection];
          apply handle_connection_at_eof|].
  intros eofs Hn.
  pose proof (pump_replies_stream [hrb ++ rb] [m] c1
                (mkTransport (reader tc) (reader_eof tc)
                   (writer tc ++ record_mark [hb ++ ab]) false) eofs
                Hs1 eq_refl eq_refl) as Hpump.
  cbn [reader reader_eof writer length] in Hpump. rewrite record_stream_single in Hpump.
  specialize (Hpump Hrd Hf2 Hn).
  eexists. split; [exact Hpump|].
  cbn [map client_run fold_left client_step].
  rewrite (pump_reply_hit_state c1 m n (mkCall x proc_id Pending true));
    [|reflexivity|apply lookup_insert_eq|apply list_lookup_middle; reflexivity|reflexivity].
  unfold send_call_resume. subst m.
  cbn [snd set_transport set_calls set_xid_map calls c1 fst].
  rewrite list_lookup_insert_eq by (rewrite length_app; cbn; lia).
  cbv beta iota. cbn [header make_reply mtype rbody stat c_proc].
  rewrite bool_decide_eq_false_2 by (intros Hc; apply Hc; reflexivity).
  rewrite bool_decide_eq_false_2 by (intros Hc; apply Hc; reflexivity).
  unfold unpack_return, set_transport, set_calls, set_xid_map. subst c1.
  cbn [procs]. rewrite Hp.
  pose proof (Hrr rv rb [] Hrb) as Eu. rewrite app_nil_r in Eu. rewrite Eu. reflexivity.
Qed.
End EndToEndCall.

Section DispatchExtras.
Context `{HeaderCodec} {value app : Type}.

(** X7 (what a dispatch can do).  Whatever [handle_proc_call] returns, one
    of two things happened.  Either it raised before any handler ran, and
    the server object is unchanged; or the procedure is in the table, every
    argument was decoded from the call body in declaration order, the
    callable bound under the procedure's name was invoked exactly once with
    those arguments, and the result is the return codec's packing of what
    the handler returned, or the handler's exception.  No handler ever runs
    on a call whose arguments did not all decode. *)
Theorem X7_dispatch_is_all_or_nothing (s : Server value app) (proc_id : Z)
    (call_body : bytes) (r : result bytes) (s' : Server value app) :
  handle_proc_call proc_id call_body s = (r, s') ->
  (s' = s /\ exists e, r = Raise e)
  \/ exists (p : Proc value) (h : handler value app) (argl : list value) (rest : bytes),
       s_procs s !! proc_id = Some (Some p)
       /\ decoded (arg_types p) call_body argl rest
       /\ methods s !! name p = Some h
       /\ invoked s' = invoked s ++ [(name p, argl)]
       /\ app_state s' = snd (h argl (app_state s))
       /\ r = (fst (h argl (app_state s)) ≫= pack (ret_type p)).
Proof.
  unfold handle_proc_call, get_handler.
  destruct (s_procs s !! proc_id) as [[p|]|] eqn:Hp;
    [|intros E; inversion E; left; eauto|intros E; inversion E; left; eauto].
  destruct (unpack_each (arg_types p) call_body) as [[argl rest]|e] eqn:Hu;
    [|intros E; inversion E; left; eauto].
  destruct (methods s !! name p) as [h|] eqn:Hm; [|intros E; inversion E; left; eauto].
  apply unpack_each_decoded in Hu.
  destruct (h argl (app_state s)) as [[rv|e] a] eqn:Hh; intros E; inversion E; subst;
    right; exists p, h, argl, rest; rewrite Hh; cbn; auto 10.
Qed.
End DispatchExtras.

Section AcceptStatus.
Context `{HeaderCodec} {value app : Type}.

(** X17 (the accept status is not looked at).  [success] and [send_call]
    test only whether the reply was accepted.  A reply that [make_reply]
    builds as accepted counts as a success whatever its accept status is,
    [SYSTEM_ERR] included: [send_call] decodes its payload with the return
    codec of the procedure, and raises what the codec raises on that
    payload instead of returning the reply. *)
Theorem X17_accept_status_is_ignored (c : TCPClient value) (fut : nat) (k : call)
    (x msg_stat : Z) (reply_body : bytes) (b : option value) :
  calls c !! fut = Some k ->
  c_fut k = Result (make_reply x MSG_ACCEPTED msg_stat, reply_body) ->
  success (mkUnpacked (make_reply x MSG_ACCEPTED msg_stat) b) = Ok true
  /\ send_call_resume fut c
       = Some (v ← unpack_return (c_proc k) reply_body c;
               Ok (mkUnpacked (make_reply x MSG_ACCEPTED msg_stat) (Some v))).
Proof.
  intros Hk Hf. split; [reflexivity|].
  unfold send_call_resume. rewrite Hk. destruct k as [kx kp kf kw]. cbn [c_fut c_proc] in *.
  subst kf. reflexivity.
Qed.
End AcceptStatus.

Section EndToEndFailure.
Context `{HeaderCodec} {value app : Type}.

(** X18 (a failed call from end to end).  A client sends a call, the server
    reads what the client wrote and its dispatch raises (whatever the
    reason), and the client then reads what the server wrote.  The server
    answers with the [SYSTEM_ERR] reply and an empty payload, closes the
    connection and ends its loop with the exception.  On the client the
    reply counts as accepted: when the pump has read it, [send_call] hands
    the empty payload to the return codec of the procedure, so that the
    caller gets what that codec makes of no bytes (a value, or the codec's
    own exception), and neither the server's exception nor an error status.
    The pump itself returns normally if the end of stream has been received
    before it tests [closed] again, and ends with [IncompleteReadError] if
    it arrives while the pump waits in its next read. *)
Theorem X18_failed_call_decodes_empty_payload
    (c : TCPClient value) (s s2 : Server value app) (tc : TCPTransport)
    (proc_id x : Z) (args : list value) (ab hb hrb : bytes) (e : exn) (rand : Z)
    (conn : result TCPTransport) :
  transport c = Some tc -> writer_closing tc = false -> table_sound c ->
  pack_args proc_id args c = Ok ab -> len ab mod 4 = 0 ->
  rpc_msg_pack (call_msg c x proc_id) = Ok hb ->
  rpc_msg_unpack (hb ++ ab) = Ok (call_msg c x proc_id, ab) ->
  len hb + len ab <= 100000 ->
  handle_proc_call proc_id ab s = (Raise e, s2) ->
  rpc_msg_pack (make_reply x MSG_ACCEPTED SYSTEM_ERR) = Ok hrb ->
  rpc_msg_unpack hrb = Ok (make_reply x MSG_ACCEPTED SYSTEM_ERR, []) ->
  len hrb <= 100000 ->
  reader tc = record_mark [hrb] ->
  exists c1,
    send_call proc_id args (Some x) rand conn c = (Ok (length (calls c)), c1)
    /\ (forall polls,
          handle_connection (Ready :: polls) (s, receiving (record_mark [hb ++ ab]))
          = Some (Raise e, (s2, mkTransport [] false (record_mark [hrb]) true)))
    /\ (forall eofs : list bool, length eofs = 2%nat ->
          exists c2,
            pump_replies eofs c1
              = Some (if reader_eof tc || existsb id eofs
                      then Ok tt else Raise IncompleteReadError, c2)
            /\ send_call_resume (length (calls c)) c2
                 = Some (v ← unpack_return proc_id [] c;
                         Ok (mkUnpacked (make_reply x MSG_ACCEPTED SYSTEM_ERR) (Some v)))).
Proof.
  intros Htc Hwc Hs Hargs Hab Hhb Hub Hlc Hd Hhrb Hur Hlr Hrd.
  pose proof (xdr_pad_aligned ab Hab) as Epa.
  set (n := length (calls c)).
  set (c1 := mkClient (prog c) (vers c) (procs c)
               (Some (mkTransport (reader tc) (reader_eof tc)
                        (writer tc ++ record_mark [hb ++ ab]) false))
               (<[x := n]> (xid_map c)) (calls c ++ [mkCall x proc_id Pending true])).
  set (m := (make_reply x MSG_ACCEPTED SYSTEM_ERR, []) : SPLIT_MSG).
  assert (Hs1 : table_sound c1)
    by (apply (table_sound_extend c c1 x proc_id true Hs); reflexivity).
  assert (Hf2 : Forall2 (fun bs m0 => len bs <= 100000 /\ rpc_msg_unpack bs = Ok m0)
                  [hrb] [m]).
  { constructor; [|constructor]. split; [exact Hlr|exact Hur]. }
  pose proof (send_call_ok c tc proc_id args (Some x) rand conn ab hb Htc Hwc Hargs Hhb)
    as Hsend.
  rewrite Epa in Hsend. specialize (Hsend ltac:(lia)).
  exists c1. split; [exact Hsend|]. split.
  - intros polls. unfold receiving. rewrite <- record_stream_single.
    cbn [handle_connection]. rewrite record_stream_cons_not_closed. unfold after_read.
    rewrite read_msg_record_stream by (rewrite len_app; exact Hlc). rewrite Hub.
    rewrite bool_decide_eq_true_2 by reflexivity. cbn [negb].
    unfold handle_call. cbn [call_msg header cbody proc xid]. rewrite Hd.
    rewrite (write_msg_empty_body _ hrb _ Hhrb) by (first [lia|reflexivity]).
    reflexivity.
  - intros eofs Hn.
    pose proof (pump_replies_stream [hrb] [m] c1
                  (mkTransport (reader tc) (reader_eof tc)
                     (writer tc ++ record_mark [hb ++ ab]) false) eofs
                  Hs1 eq_refl eq_refl) as Hpump.
    cbn [reader reader_eof writer length] in Hpump. rewrite record_stream_single in Hpump.
    specialize (Hpump Hrd Hf2 Hn).
    eexists. split; [exact Hpump|].
    cbn [map client_run fold_left client_step].
    rewrite (pump_reply_hit_state c1 m n (mkCall x proc_id Pending true));
      [|reflexivity|apply lookup_insert_eq|apply list_lookup_middle; reflexivity|reflexivity].
    unfold send_call_resume. subst m.
    cbn [snd set_transport set_calls set_xid_map calls c1 fst].
    rewrite list_lookup_insert_eq by (rewrite length_app; cbn; lia).
    cbv beta iota. cbn [header make_reply mtype rbody stat c_proc].
    rewrite bool_decide_eq_false_2 by (intros Hc; apply Hc; reflexivity).
    rewrite bool_decide_eq_false_2 by (intros Hc; apply Hc; reflexivity).
    reflexivity.
Qed.
End EndToEndFailure.

Section ConnectOnDemand.
Context `{HeaderCodec} {value : Type}.

(** X19 (connecting on demand).  [send_call] connects only when the client
    has no transport.  When that connection attempt fails, [send_call]
    raises its exception and leaves the client as it was: no future is
    entered in the pending-call table.  When it succeeds, the call goes on
    as on a client connected to that transport.  A client that has a
    transport never opens another one. *)
Theorem X19_send_call_connects_on_demand (c : TCPClient value) (proc_id : Z)
    (args : list value) (xid : option Z) (rand : Z) (conn : result TCPTransport) :
  (transport c = None ->
     match conn with
     | Raise e => send_call proc_id args xid rand conn c = (Raise e, c)
     | Ok t => send_call proc_id args xid rand conn c
               = send_call proc_id args xid rand conn (set_transport t c)
     end)
  /\ (transport c <> None ->
      forall conn', send_call proc_id args xid rand conn c
                    = send_call proc_id args xid rand conn' c).
Proof.
  split.
  - intros Hn. destruct conn as [t|e]; unfold send_call, mbind, io_bind, bind.
    + rewrite bool_decide_eq_true_2 by exact Hn.
      rewrite bool_decide_eq_false_2 by discriminate. reflexivity.
    + rewrite bool_decide_eq_true_2 by exact Hn. reflexivity.
  - intros Hn conn'. unfold send_call. rewrite !bool_decide_eq_false_2 by exact Hn.
    reflexivity.
Qed.
End ConnectOnDemand.

(** ** Waits that expire *)

Section Timeouts.
Context `{HeaderCodec} {value app : Type}.
Implicit Types (s : Server value app) (t : TCPTransport).

Lemma read_suspensions_word (fuel : nat) (total w : Z) (rest : bytes) :
  0 <= w < 2 ^ 32 ->
  read_suspensions (S fuel) total (be32 w ++ rest) =
    (be32 w ++ rest) ::
    let last_frag := Z.land w (Z.shiftl 1 31) in
    let frag_len := Z.land w (Z.lnot (Z.shiftl 1 31)) in
    if bool_decide (total + frag_len > MAX_MSG_BYTES) then []
    else
      (if bool_decide (frag_len = 0) then [] else [rest]) ++
      match readexactly frag_len rest with
      | (Raise _, _) => []
      | (Ok _, rd2) =>
          if bool_decide (last_frag <> 0) then []
          else read_suspensions fuel (total + frag_len) rd2
      end.
Proof.
  intros Hw. cbn [read_suspensions].
  rewrite readexactly_be32, struct_unpack_be32 by exact Hw. reflexivity.
Qed.

(** X20 (waits that expire).  A wait that expires before the read has
    consumed anything leaves the connection as it was.  A wait that expires
    when the read has taken the length word of a message and waits for its
    bytes loses the length word: the loop goes on with the bytes of the
    message at the head of the stream, where the next read takes them for a
    length word.  Once the end of stream has been received no read waits,
    and an iteration is the same whether or not a wait was to expire. *)
Theorem X20_expired_wait_loses_the_length_word s (polls : list poll) :
  (forall t, closed t = false -> reader_eof t = false ->
     handle_connection (TimedOut 0 :: polls) (s, t) = handle_connection polls (s, t))
  /\ (forall (m rest w : bytes), 0 < len m <= 100000 ->
        handle_connection (TimedOut 1 :: polls)
          (s, mkTransport (record_mark [m] ++ rest) false w false)
        = handle_connection polls (s, mkTransport (m ++ rest) false w false))
  /\ (forall t (n : nat), reader_eof t = true ->
        handle_connection (TimedOut n :: polls) (s, t)
        = handle_connection (Ready :: polls) (s, t)).
Proof.
  split; [|split].
  - intros t Hcl He. cbn [handle_connection]. rewrite Hcl.
    unfold cancelled_read. rewrite He. cbn [read_suspensions lookup list_lookup].
    destruct t as [rd e w c]. cbn in He. subst e. reflexivity.
  - intros m rest w Hm. cbn [handle_connection].
    rewrite closed_nonempty;
      [|cbn [reader]; rewrite record_mark_last; unfold be32; discriminate|reflexivity].
    unfold cancelled_read. cbn [reader reader_eof writer writer_closing].
    rewrite record_mark_last, <- app_assoc.
    rewrite read_suspensions_word by (rewrite lor_bit31 by lia; lia).
    cbv zeta. rewrite last_word_len by lia.
    rewrite bool_decide_eq_false_2 by (unfold MAX_MSG_BYTES; lia).
    rewrite (bool_decide_eq_false_2 (len m = 0)) by lia.
    reflexivity.
  - intros t n He. cbn [handle_connection]. rewrite (cancelled_read_eof n t He).
    reflexivity.
Qed.
End Timeouts.

(** ** Instances of the further properties *)

(** The unsigned-integer codec of the examples undoes its own packing. *)
Lemma uint_codec_round_trips : codec_round_trips uint_codec.
Proof.
  intros v b rest Hp. cbn [pack uint_codec] in Hp. unfold struct_pack_L in Hp.
  case_bool_decide as Hv; [|discriminate]. inversion Hp; subst b.
  pose proof (struct_unpack_be32 v Hv) as E. unfold be32 in *.
  cbn [app unpack uint_codec]. rewrite E. reflexivity.
Qed.

(** X1 on three messages, the second one empty. *)
Lemma X1_messages_keep_their_boundaries_witness :
  let ms := [[x01; x02]; []; [x03]] in
  Forall (fun m => len m <= 100000) ms
  /\ writer_closing fresh_transport = false
  /\ write_all ms fresh_transport
       = (Ok tt, mkTransport [] false (record_stream ms) false)
  /\ read_n 3 (receiving (record_stream ms)) = (Ok ms, receiving [])
  /\ read_n 4 (receiving (record_stream ms))
       = (Raise IncompleteReadError, mkTransport [] true [] false).
Proof.
  intros ms.
  assert (Hall : Forall (fun m => len m <= 100000) ms)
    by (repeat constructor; vm_compute; discriminate).
  assert (Hc : writer_closing fresh_transport = false) by reflexivity.
  split; [exact Hall|]. split; [exact Hc|].
  exact (X1_messages_keep_their_boundaries ms fresh_transport Hall Hc).
Defined.

(** X2 on a two-fragment message cut after five bytes, inside its first
    fragment. *)
Lemma X2_truncated_record_is_refused_witness :
  let frags := [[x01; x02]; [x03]] in
  frags <> []
  /\ len (concat frags) <= 100000
  /\ (5 < length (record_mark frags))%nat
  /\ take 5 (record_mark frags) = [x00; x00; x00; x02; x01]
  /\ read_msg_bytes (mkTransport [x00; x00; x00; x02; x01] false [] false)
       = (Raise IncompleteReadError, mkTransport [] true [] false).
Proof.
  intros frags.
  assert (Hne : frags <> []) by discriminate.
  assert (Hl : len (concat frags) <= 100000) by (vm_compute; discriminate).
  assert (Hn : (5 < length (record_mark frags))%nat) by (vm_compute; lia).
  split; [exact Hne|]. split; [exact Hl|]. split; [exact Hn|]. split; [reflexivity|].
  exact (X2_truncated_record_is_refused frags 5 false [] false Hne Hl Hn).
Defined.

(** X3 on a message of 100,001 bytes. *)
Lemma X3_write_side_has_no_limit_witness :
  let m := replicate (Z.to_nat 100001) x00 in
  100000 < len m < 2 ^ 31
  /\ writer_closing fresh_transport = false
  /\ write_msg_bytes m fresh_transport
       = (Ok tt, mkTransport [] false (record_mark [m]) false)
  /\ read_msg_bytes (receiving (record_mark [m] ++ []))
       = (Raise (OverlyLarge (len m) (len m)), receiving (m ++ [])).
Proof.
  intros m.
  assert (Hm : 100000 < len m < 2 ^ 31)
    by (unfold m; rewrite len_replicate by lia; split; reflexivity).
  assert (Hc : writer_closing fresh_transport = false) by reflexivity.
  split; [exact Hm|]. split; [exact Hc|].
  generalize dependent m. intros m Hm.
  exact (X3_write_side_has_no_limit m [] fresh_transport Hm Hc).
Defined.

(** X4 at the example client: an unknown procedure, [ADD] with one argument,
    and [ADD(2, 3)]. *)
Lemma X4_pack_args_checks_and_round_trips_witness :
  procs example_client !! 9 = None
  /\ @pack_args Z 9 [] example_client = Raise (KeyError 9)
  /\ procs example_client !! 1 = Some ADD_proc
  /\ length [2] <> length (arg_types ADD_proc)
  /\ @pack_args Z 1 [2] example_client = Raise (ValueError "Wrong number of arguments!")
  /\ Forall codec_round_trips (arg_types ADD_proc)
  /\ @pack_args Z 1 [2; 3] example_client = Ok (be32 2 ++ be32 3)
  /\ unpack_each (arg_types ADD_proc) ((be32 2 ++ be32 3) ++ [x09]) = Ok ([2; 3], [x09]).
Proof.
  assert (H9 : procs example_client !! 9 = None) by reflexivity.
  assert (H1 : procs example_client !! 1 = Some ADD_proc) by reflexivity.
  assert (Hne : length [2] <> length (arg_types ADD_proc)) by (cbn; lia).
  assert (Hrt : Forall codec_round_trips (arg_types ADD_proc))
    by (repeat constructor; apply uint_codec_round_trips).
  assert (Hp : @pack_args Z 1 [2; 3] example_client = Ok (be32 2 ++ be32 3)) by reflexivity.
  split; [exact H9|].
  split; [exact (proj1 (X4_pack_args_checks_and_round_trips example_client 9 []) H9)|].
  split; [exact H1|]. split; [exact Hne|].
  split; [exact (proj1 (proj2 (X4_pack_args_checks_and_round_trips example_client 1 [2]))
                   ADD_proc H1 Hne)|].
  split; [exact Hrt|]. split; [exact Hp|].
  exact (proj2 (proj2 (proj2 (X4_pack_args_checks_and_round_trips example_client 1 [2; 3]))
                  ADD_proc (be32 2 ++ be32 3) [x09] H1 Hrt Hp)).
Defined.

(** X5 after two calls and the reply to the second. *)
Lemma X5_calls_get_their_own_reply_witness :
  let m : SPLIT_MSG := (make_reply 7 MSG_ACCEPTED SUCCESS, []) in
  let ops := [OpSendCall 0 [] (Some 5) 0 (Ok fresh_transport);
              OpSendCall 0 [] (Some 7) 0 (Ok fresh_transport);
              OpPumpReply m] in
  let c := @client_run Rfc1831.codec Z ops (TCPClient_init 100003 3 example_procs) in
  let k := mkCall 7 0 (Result m) true in
  calls c !! 1%nat = Some k
  /\ c_fut k = Result m
  /\ mtype (header m.1) = REPLY /\ xid m.1 = c_xid k /\ OpPumpReply m ∈ ops.
Proof.
  intros m ops c k.
  assert (Hk : calls c !! 1%nat = Some k) by (vm_compute; reflexivity).
  assert (Hr : c_fut k = Result m) by reflexivity.
  split; [exact Hk|]. split; [exact Hr|].
  exact (@X5_calls_get_their_own_reply Rfc1831.codec Z 100003 3 example_procs ops 1%nat k m
           Hk Hr).
Defined.

(** X6 on two outstanding calls and their replies. *)
Lemma X6_replies_commute_witness :
  let ops := [OpSendCall 0 [] (Some 5) 0 (Ok fresh_transport);
              OpSendCall 0 [] (Some 7) 0 (Ok fresh_transport)] in
  let c := @client_run Rfc1831.codec Z ops example_client in
  let m1 : SPLIT_MSG := (make_reply 5 MSG_ACCEPTED SUCCESS, []) in
  let m2 : SPLIT_MSG := (make_reply 7 MSG_ACCEPTED SUCCESS, []) in
  table_sound c
  /\ xid m1.1 <> xid m2.1
  /\ (_ ← pump_reply m1; pump_reply m2) c = (_ ← pump_reply m2; pump_reply m1) c
  /\ fst ((_ ← pump_reply m1; pump_reply m2) c) = Ok tt.
Proof.
  intros ops c m1 m2.
  assert (Hs : table_sound c)
    by (apply client_run_table_sound, table_sound_init).
  assert (Hne : xid m1.1 <> xid m2.1) by discriminate.
  split; [exact Hs|]. split; [exact Hne|].
  clearbody c.
  exact (X6_replies_commute c m1 m2 Hs Hne).
Defined.

(** X8 on an accepted reply to [ADD(2, 3)] and a denied reply to [NULL]. *)
Lemma X8_returned_body_follows_success_witness :
  let ops := [OpSendCall 1 [2; 3] (Some 5) 0 (Ok fresh_transport);
              OpPumpReply (make_reply 5 MSG_ACCEPTED SUCCESS, be32 5);
              OpSendCall 0 [] (Some 7) 0 (Ok fresh_transport);
              OpPumpReply (make_reply 7 MSG_DENIED 0, [])] in
  let c := @client_run Rfc1831.codec Z ops example_client in
  let u := mkUnpacked (make_reply 5 MSG_ACCEPTED SUCCESS) (Some 5) in
  let u' := mkUnpacked (make_reply 7 MSG_DENIED 0) (@None Z) in
  send_call_resume 0 c = Some (Ok u)
  /\ send_call_resume 1 c = Some (Ok u')
  /\ (exists k reply_body,
        calls c !! 0%nat = Some k
        /\ c_fut k = Result (msg u, reply_body)
        /\ ((success u = Ok true
             /\ exists v, u_body u = Some v /\ unpack_return (c_proc k) reply_body c = Ok v)
            \/ (success u = Ok false /\ u_body u = None)))
  /\ (exists k reply_body,
        calls c !! 1%nat = Some k
        /\ c_fut k = Result (msg u', reply_body)
        /\ ((success u' = Ok true
             /\ exists v, u_body u' = Some v /\ unpack_return (c_proc k) reply_body c = Ok v)
            \/ (success u' = Ok false /\ u_body u' = None))).
Proof.
  intros ops c u u'.
  assert (H0 : send_call_resume 0 c = Some (Ok u)) by (vm_compute; reflexivity).
  assert (H1 : send_call_resume 1 c = Some (Ok u')) by (vm_compute; reflexivity).
  split; [exact H0|]. split; [exact H1|].
  clearbody c.
  split; [exact (X8_returned_body_follows_success c 0 u H0)|].
  exact (X8_returned_body_follows_success c 1 u' H1).
Defined.

(** X9 at a connected example client and a procedure id that is not in its
    table. *)
Lemma X9_failed_send_leaves_its_entry_witness :
  let c := set_transport fresh_transport example_client in
  transport c = Some fresh_transport
  /\ @pack_args Z 9 [] c = Raise (KeyError 9)
  /\ exists c',
       @send_call Rfc1831.codec Z 9 [] (Some 5) 0 (Ok fresh_transport) c
         = (Raise (KeyError 9), c')
       /\ transport c' = Some fresh_transport
       /\ xid_map c' = <[5 := length (calls c)]> (xid_map c)
       /\ calls c' = calls c ++ [mkCall 5 9 Pending false].
Proof.
  intros c.
  assert (Ht : transport c = Some fresh_transport) by reflexivity.
  assert (Hp : @pack_args Z 9 [] c = Raise (KeyError 9)) by reflexivity.
  split; [exact Ht|]. split; [exact Hp|].
  exact (@X9_failed_send_leaves_its_entry Rfc1831.codec Z c fresh_transport 9 [] (Some 5) 0
           (Ok fresh_transport) (KeyError 9) Ht Hp).
Defined.

(** X7 at the example server: [ADD(2, 3)], and [ADD] with one argument
    missing. *)
Lemma X7_dispatch_is_all_or_nothing_witness :
  let s' := record_invocation "ADD" [2; 3] 1 example_server in
  handle_proc_call 1 (be32 2 ++ be32 3) example_server = (Ok (be32 5), s')
  /\ handle_proc_call 1 (be32 2) example_server = (Raise EOFError, example_server)
  /\ invoked s' = [("ADD"%string, [2; 3])]
  /\ ((example_server = example_server /\ exists e, Raise EOFError = @Raise bytes e)
      \/ exists (p : Proc Z) (h : handler Z Z) (argl : list Z) (rest : bytes),
           s_procs example_server !! 1 = Some (Some p)
           /\ decoded (arg_types p) (be32 2) argl rest
           /\ methods example_server !! name p = Some h
           /\ invoked example_server = invoked example_server ++ [(name p, argl)]
           /\ app_state example_server = snd (h argl (app_state example_server))
           /\ Raise EOFError = (fst (h argl (app_state example_server)) ≫= pack (ret_type p))).
Proof.
  intros s'.
  assert (H1 : handle_proc_call 1 (be32 2 ++ be32 3) example_server = (Ok (be32 5), s'))
    by reflexivity.
  assert (H2 : handle_proc_call 1 (be32 2) example_server = (Raise EOFError, example_server))
    by reflexivity.
  split; [exact H1|]. split; [exact H2|]. split.
  - destruct (X7_dispatch_is_all_or_nothing example_server 1 (be32 2 ++ be32 3)
                (Ok (be32 5)) s' H1) as [[_ [e He]]|(p & h & argl & rest & Hp & Hd & _)];
      [discriminate He|reflexivity].
  - exact (X7_dispatch_is_all_or_nothing example_server 1 (be32 2) (Raise EOFError)
             example_server H2).
Defined.

(** X10 at the example server, on a connection that delivers [ADD(2, 3)] and
    then its end of stream. *)
Lemma X10_successful_call_is_answered_once_witness :
  let t := receiving example_call_record in
  let call := call_msg example_client 77 1 in
  let cb := {| rpcvers := 2; cb_prog := 100003; cb_vers := 3; proc := 1;
               cred := {| flavor := AUTH_NONE; body := [] |};
               verf := {| flavor := AUTH_NONE; body := [] |} |} in
  let s1 := record_invocation "ADD" [2; 3] 1 example_server in
  let hb := be32 77 ++ be32 1 ++ be32 0 ++ be32 0 ++ be32 0 ++ be32 0 in
  closed t = false
  /\ @read_msg Rfc1831.codec t = (Ok (call, be32 2 ++ be32 3), receiving [])
  /\ mtype (header call) = CALL
  /\ cbody (header call) = Some cb
  /\ handle_proc_call (proc cb) (be32 2 ++ be32 3) example_server = (Ok (be32 5), s1)
  /\ Rfc1831.pack_rpc_msg (make_reply (xid call) 0 0) = Ok hb
  /\ len hb + len (xdr_pad (be32 5)) < 2 ^ 31
  /\ @handle_connection Rfc1831.codec Z Z [Ready; EndOfStream] (example_server, t)
       = Some (Ok tt, (s1, mkTransport [] true (record_mark [hb ++ be32 5]) true)).
Proof.
  intros t call cb s1 hb.
  assert (Hc : closed t = false) by reflexivity.
  assert (Hr : @read_msg Rfc1831.codec t = (Ok (call, be32 2 ++ be32 3), receiving []))
    by (vm_compute; reflexivity).
  assert (Hm : mtype (header call) = CALL) by reflexivity.
  assert (Hcb : cbody (header call) = Some cb) by reflexivity.
  assert (Hd : handle_proc_call (proc cb) (be32 2 ++ be32 3) example_server = (Ok (be32 5), s1))
    by reflexivity.
  assert (Hp : Rfc1831.pack_rpc_msg (make_reply (xid call) 0 0) = Ok hb)
    by (vm_compute; reflexivity).
  assert (Hl : len hb + len (xdr_pad (be32 5)) < 2 ^ 31) by (vm_compute; reflexivity).
  do 7 (split; [assumption|]).
  rewrite (proj1 (@X10_successful_call_is_answered_once Rfc1831.codec Z Z example_server t
                    [EndOfStream] call (be32 2 ++ be32 3) (receiving []) cb (be32 5) s1 hb
                    Hc Hr Hm Hcb Hd Hp Hl)).
  reflexivity.
Defined.

(** X11 on a connection that delivers two replies to the server: with the
    end of stream received from the start, and with the end of stream
    arriving after the two messages, in a read or before it. *)
Lemma X11_non_calls_are_ignored_witness :
  let bs := be32 77 ++ be32 1 ++ be32 0 ++ be32 0 ++ be32 0 ++ be32 0 ++ be32 5 in
  let bss := [bs; bs] in
  let polls := [TimedOut 1; EndOfStream; Ready; TimedOut 0] in
  Forall (fun bs => len bs <= 100000
                    /\ exists m : SPLIT_MSG, Rfc1831.unpack_rpc_msg bs = Ok m
                                             /\ mtype (header m.1) <> CALL) bss
  /\ (length bss <= iterations polls)%nat
  /\ @handle_connection Rfc1831.codec Z Z polls
       (example_server, mkTransport (record_stream bss) true [] false)
     = Some (Ok tt, (example_server, mkTransport [] true [] true))
  /\ @handle_connection Rfc1831.codec Z Z [Ready; Ready; Ready]
       (example_server, mkTransport (record_stream bss) false [] false)
     = Some (Raise IncompleteReadError, (example_server, mkTransport [] true [] false))
  /\ @handle_connection Rfc1831.codec Z Z [Ready; Ready; EndOfStream]
       (example_server, mkTransport (record_stream bss) false [] false)
     = Some (Ok tt, (example_server, mkTransport [] true [] true)).
Proof.
  intros bs bss polls.
  assert (Hbs : len bs <= 100000
                /\ exists m : SPLIT_MSG, Rfc1831.unpack_rpc_msg bs = Ok m
                                         /\ mtype (header m.1) <> CALL).
  { split; [vm_compute; discriminate|].
    exists (make_reply 77 MSG_ACCEPTED SUCCESS, be32 5).
    split; [vm_compute; reflexivity|discriminate]. }
  assert (Hall : Forall (fun bs => len bs <= 100000
                    /\ exists m : SPLIT_MSG, Rfc1831.unpack_rpc_msg bs = Ok m
                                             /\ mtype (header m.1) <> CALL) bss)
    by (repeat constructor; apply Hbs).
  assert (Hn : (length bss <= iterations polls)%nat) by (vm_compute; lia).
  split; [exact Hall|]. split; [exact Hn|].
  destruct (@X11_non_calls_are_ignored Rfc1831.codec Z Z bss example_server [] Hall)
    as (Hearly & _ & Hlate & Hbetween).
  split; [exact (Hearly polls Hn)|]. split; [exact (Hlate [])|exact (Hbetween [])].
Defined.

(** X12 on a message cut after five bytes and on a message of 100,001 bytes.
    *)
Lemma X12_transport_fault_ends_loop_unclosed_witness :
  let frags := [[x01; x02]; [x03]] in
  let big := [replicate (Z.to_nat 100001) x00] in
  (frags <> [] /\ Forall (fun f => len f < 2 ^ 31) frags
   /\ len (concat frags) <= 100000
   /\ (0 < 5 < length (record_mark frags))%nat
   /\ @handle_connection Rfc1831.codec Z Z [Ready]
        (example_server, mkTransport (take 5 (record_mark frags)) false [] false)
      = Some (Raise IncompleteReadError, (example_server, mkTransport [] true [] false)))
  /\ (big <> [] /\ Forall (fun f => len f < 2 ^ 31) big
      /\ len (concat big) > 100000
      /\ exists total_len frag_len rd',
           @handle_connection Rfc1831.codec Z Z [Ready]
             (example_server, mkTransport (record_mark big ++ []) false [] false)
           = Some (Raise (OverlyLarge total_len frag_len),
                   (example_server, mkTransport rd' false [] false))).
Proof.
  intros frags big. split.
  - assert (Hne : frags <> []) by discriminate.
    assert (Hall : Forall (fun f => len f < 2 ^ 31) frags)
      by (repeat constructor; vm_compute; reflexivity).
    assert (Hl : len (concat frags) <= 100000) by (vm_compute; discriminate).
    assert (Hn : (0 < 5 < length (record_mark frags))%nat) by (vm_compute; lia).
    do 4 (split; [assumption|]).
    exact (proj2 (@X12_transport_fault_ends_loop_unclosed Rfc1831.codec Z Z example_server []
                    frags false [] Hne Hall) Hl 5%nat Hn).
  - clear frags. subst big.
    assert (Hlen : len (replicate (Z.to_nat 100001) x00) = 100001)
      by (apply len_replicate; lia).
    generalize dependent (replicate (Z.to_nat 100001) x00). intros m Hlen.
    assert (Hall : Forall (fun f => len f < 2 ^ 31) [m])
      by (repeat constructor; rewrite Hlen; reflexivity).
    assert (Hbig : len (concat [m]) > 100000).
    { cbn [concat]. rewrite app_nil_r, Hlen. reflexivity. }
    split; [discriminate|]. split; [exact Hall|]. split; [exact Hbig|].
    exact (proj1 (@X12_transport_fault_ends_loop_unclosed Rfc1831.codec Z Z example_server []
                    [m] false [] ltac:(discriminate) Hall) Hbig []).
Defined.

(** X13 at the example server, on a connection that delivers [ADD(2, 3)]
    twice, with a wait that expires between the two, and then its end of
    stream. *)
Lemma X13_normal_return_closes_at_end_of_stream_witness :
  let t := receiving (example_call_record ++ example_call_record) in
  let hb := be32 77 ++ be32 1 ++ be32 0 ++ be32 0 ++ be32 0 ++ be32 0 in
  let s' := record_invocation "ADD" [2; 3] 2
              (record_invocation "ADD" [2; 3] 1 example_server) in
  let t' := mkTransport [] true
              (record_mark [hb ++ be32 5] ++ record_mark [hb ++ be32 5]) true in
  let polls := [Ready; TimedOut 0; Ready; EndOfStream] in
  @handle_connection Rfc1831.codec Z Z polls (example_server, t) = Some (Ok tt, (s', t'))
  /\ (exists w', writer t' = writer t ++ w')
  /\ (exists inv', invoked s' = invoked example_server ++ inv')
  /\ writer_closing t' = true
  /\ reader t' = [].
Proof.
  intros t hb s' t' polls.
  assert (E : @handle_connection Rfc1831.codec Z Z polls (example_server, t)
              = Some (Ok tt, (s', t'))) by reflexivity.
  split; [exact E|].
  destruct (@X13_normal_return_closes_at_end_of_stream Rfc1831.codec Z Z
              polls example_server t (Ok tt) s' t' E) as (Hw & Hi & Hok).
  split; [exact Hw|]. split; [exact Hi|].
  destruct (Hok eq_refl) as [Hc Hr]. split; [exact Hc|]. exact (Hr eq_refl).
Defined.

(** X15 at a connected example client that sends [ADD(2, 3)] under the id 77.
    *)
Lemma X15_send_call_writes_one_record_witness :
  let c := set_transport fresh_transport example_client in
  let ab := be32 2 ++ be32 3 in
  transport c = Some fresh_transport
  /\ writer_closing fresh_transport = false
  /\ @pack_args Z 1 [2; 3] c = Ok ab
  /\ Rfc1831.pack_rpc_msg (call_msg c 77 1) = Ok example_call_header
  /\ len example_call_header + len (xdr_pad ab) < 2 ^ 31
  /\ @send_call Rfc1831.codec Z 1 [2; 3] (Some 77) 0 (Ok fresh_transport) c
     = (Ok 0%nat,
        mkClient 100003 3 example_procs
          (Some (mkTransport [] false example_call_record false))
          {[ 77 := 0%nat ]} [mkCall 77 1 Pending true]).
Proof.
  intros c ab.
  assert (Ht : transport c = Some fresh_transport) by reflexivity.
  assert (Hc : writer_closing fresh_transport = false) by reflexivity.
  assert (Hp : @pack_args Z 1 [2; 3] c = Ok ab) by reflexivity.
  assert (Hh : Rfc1831.pack_rpc_msg (call_msg c 77 1) = Ok example_call_header)
    by (vm_compute; reflexivity).
  assert (Hl : len example_call_header + len (xdr_pad ab) < 2 ^ 31)
    by (vm_compute; reflexivity).
  do 5 (split; [assumption|]).
  rewrite (@X15_send_call_writes_one_record Rfc1831.codec Z c fresh_transport 1 [2; 3]
             (Some 77) 0 (Ok fresh_transport) ab example_call_header Ht Hc Hp Hh Hl).
  reflexivity.
Defined.

(** X16 on a client with one outstanding call (id 5) whose connection delivers
    the replies to the ids 9 and 5: with the end of stream arriving while
    the pump waits in its third read, and with the end of stream received
    before the pump tests [closed] for the third time. *)
Lemma X16_pump_replies_delivers_stream_witness :
  let rb5 := be32 5 ++ be32 1 ++ be32 0 ++ be32 0 ++ be32 0 ++ be32 0 in
  let rb9 := be32 9 ++ be32 1 ++ be32 0 ++ be32 0 ++ be32 0 ++ be32 0 in
  let bss := [rb9; rb5] in
  let msgs : list SPLIT_MSG := [(make_reply 9 0 0, []); (make_reply 5 0 0, [])] in
  let hb := be32 5 ++ be32 0 ++ be32 2 ++ be32 100003 ++ be32 3 ++ be32 0
            ++ be32 0 ++ be32 0 ++ be32 0 ++ be32 0 in
  let t := mkTransport (record_stream bss) false (record_mark [hb]) false in
  let c := @client_run Rfc1831.codec Z
             [OpSendCall 0 [] (Some 5) 0 (Ok (receiving (record_stream bss)))]
             example_client in
  let c' := mkClient 100003 3 example_procs
              (Some (mkTransport [] true (record_mark [hb]) false)) ∅
              [mkCall 5 0 (Result (make_reply 5 0 0, [])) true] in
  table_sound c
  /\ transport c = Some t
  /\ writer_closing t = false
  /\ reader t = record_stream bss
  /\ Forall2 (fun bs m => len bs <= 100000 /\ Rfc1831.unpack_rpc_msg bs = Ok m) bss msgs
  /\ @pump_replies Rfc1831.codec Z [false; false; false] c
     = Some (Raise IncompleteReadError, c')
  /\ @pump_replies Rfc1831.codec Z [false; false; true] c = Some (Ok tt, c').
Proof.
  intros rb5 rb9 bss msgs hb t c c'.
  assert (Hs : table_sound c) by (apply client_run_table_sound, table_sound_init).
  assert (Ht : transport c = Some t) by reflexivity.
  assert (Hc : writer_closing t = false) by reflexivity.
  assert (Hr : reader t = record_stream bss) by reflexivity.
  assert (Hall : Forall2 (fun bs m => len bs <= 100000 /\ Rfc1831.unpack_rpc_msg bs = Ok m)
                   bss msgs).
  { repeat constructor; try (vm_compute; discriminate); vm_compute; reflexivity. }
  do 5 (split; [assumption|]). split.
  - refine (eq_trans (@X16_pump_replies_delivers_stream Rfc1831.codec Z bss msgs c t
                        [false; false; false] Hs Ht Hc Hr Hall eq_refl) _).
    reflexivity.
  - refine (eq_trans (@X16_pump_replies_delivers_stream Rfc1831.codec Z bss msgs c t
                        [false; false; true] Hs Ht Hc Hr Hall eq_refl) _).
    reflexivity.
Defined.

(** X14 on [ADD(2, 3)] between the example client and the example server. *)
Lemma X14_call_returns_handler_result_witness :
  let rb := be32 5 in
  let hrb := be32 77 ++ be32 1 ++ be32 0 ++ be32 0 ++ be32 0 ++ be32 0 in
  let tc := receiving (record_mark [hrb ++ rb]) in
  let c := set_transport tc example_client in
  let ab := be32 2 ++ be32 3 in
  let hb := example_call_header in
  (transport c = Some tc /\ writer_closing tc = false /\ table_sound c
   /\ procs c !! 1 = Some ADD_proc
   /\ @pack_args Z 1 [2; 3] c = Ok ab /\ len ab mod 4 = 0
   /\ Rfc1831.pack_rpc_msg (call_msg c 77 1) = Ok hb
   /\ Rfc1831.unpack_rpc_msg (hb ++ ab) = Ok (call_msg c 77 1, ab)
   /\ len hb + len ab <= 100000
   /\ s_procs example_server !! 1 = Some (Some ADD_proc)
   /\ methods example_server !! name ADD_proc = Some ADD_handler
   /\ Forall codec_round_trips (arg_types ADD_proc)
   /\ codec_round_trips (ret_type ADD_proc)
   /\ ADD_handler [2; 3] (app_state example_server) = (Ok 5, 1)
   /\ pack (ret_type ADD_proc) 5 = Ok rb /\ len rb mod 4 = 0
   /\ Rfc1831.pack_rpc_msg (make_reply 77 0 0) = Ok hrb
   /\ Rfc1831.unpack_rpc_msg (hrb ++ rb) = Ok (make_reply 77 0 0, rb)
   /\ len hrb + len rb <= 100000
   /\ reader tc = record_mark [hrb ++ rb])
  /\ exists c1 s1,
       @send_call Rfc1831.codec Z 1 [2; 3] (Some 77) 0 (Ok fresh_transport) c
         = (Ok (length (calls c)), c1)
       /\ (writer <$> transport c1) = Some (writer tc ++ record_mark [hb ++ ab])
       /\ (forall polls,
             @handle_connection Rfc1831.codec Z Z (Ready :: polls)
               (example_server, receiving (record_mark [hb ++ ab]))
             = @handle_connection Rfc1831.codec Z Z polls
                 (s1, mkTransport [] false (record_mark [hrb ++ rb]) false))
       /\ invoked s1 = invoked example_server ++ [(name ADD_proc, [2; 3])]
       /\ app_state s1 = 1
       /\ (forall polls,
             @handle_connection Rfc1831.codec Z Z (Ready :: Ready :: polls)
               (example_server, receiving (record_mark [hb ++ ab]))
             = Some (Raise IncompleteReadError,
                     (s1, mkTransport [] true (record_mark [hrb ++ rb]) false)))
       /\ (forall polls,
             @handle_connection Rfc1831.codec Z Z (Ready :: EndOfStream :: polls)
               (example_server, receiving (record_mark [hb ++ ab]))
             = Some (Ok tt, (s1, mkTransport [] true (record_mark [hrb ++ rb]) true)))
       /\ (forall eofs : list bool, length eofs = 2%nat ->
             exists c2,
               @pump_replies Rfc1831.codec Z eofs c1
                 = Some (if reader_eof tc || existsb id eofs
                         then Ok tt else Raise IncompleteReadError, c2)
               /\ send_call_resume (length (calls c)) c2
                    = Some (Ok (mkUnpacked (make_reply 77 0 0) (Some 5)))).
Proof.
  intros rb hrb tc c ab hb.
  assert (H1 : transport c = Some tc) by reflexivity.
  assert (H2 : writer_closing tc = false) by reflexivity.
  assert (H3 : table_sound c) by (apply set_transport_table_sound, table_sound_init).
  assert (H4 : procs c !! 1 = Some ADD_proc) by reflexivity.
  assert (H5 : @pack_args Z 1 [2; 3] c = Ok ab) by reflexivity.
  assert (H6 : len ab mod 4 = 0) by reflexivity.
  assert (H7 : Rfc1831.pack_rpc_msg (call_msg c 77 1) = Ok hb) by (vm_compute; reflexivity).
  assert (H8 : Rfc1831.unpack_rpc_msg (hb ++ ab) = Ok (call_msg c 77 1, ab))
    by (vm_compute; reflexivity).
  assert (H9 : len hb + len ab <= 100000) by (vm_compute; discriminate).
  assert (H10 : s_procs example_server !! 1 = Some (Some ADD_proc)) by reflexivity.
  assert (H11 : methods example_server !! name ADD_proc = Some ADD_handler) by reflexivity.
  assert (H12 : Forall codec_round_trips (arg_types ADD_proc))
    by (repeat constructor; apply uint_codec_round_trips).
  assert (H13 : codec_round_trips (ret_type ADD_proc)) by apply uint_codec_round_trips.
  assert (H14 : ADD_handler [2; 3] (app_state example_server) = (Ok 5, 1)) by reflexivity.
  assert (H15 : pack (ret_type ADD_proc) 5 = Ok rb) by reflexivity.
  assert (H16 : len rb mod 4 = 0) by reflexivity.
  assert (H17 : Rfc1831.pack_rpc_msg (make_reply 77 0 0) = Ok hrb) by (vm_compute; reflexivity).
  assert (H18 : Rfc1831.unpack_rpc_msg (hrb ++ rb) = Ok (make_reply 77 0 0, rb))
    by (vm_compute; reflexivity).
  assert (H19 : len hrb + len rb <= 100000) by (vm_compute; discriminate).
  assert (H20 : reader tc = record_mark [hrb ++ rb]) by reflexivity.
  split; [repeat (split; [assumption|]); assumption|].
  exact (@X14_call_returns_handler_result Rfc1831.codec Z Z c example_server tc 1 77 ADD_proc
           ADD_handler [2; 3] ab hb rb hrb 5 1 0 (Ok fresh_transport)
           H1 H2 H3 H4 H5 H6 H7 H8 H9 H10 H11 H12 H13 H14 H15 H16 H17 H18 H19 H20).
Defined.

(** X17 on a [SYSTEM_ERR] reply to [ADD(2, 3)]: the call raises [EOFError]. *)
Lemma X17_accept_status_is_ignored_witness :
  let ops := [OpSendCall 1 [2; 3] (Some 5) 0 (Ok fresh_transport);
              OpPumpReply (make_reply 5 MSG_ACCEPTED SYSTEM_ERR, [])] in
  let c := @client_run Rfc1831.codec Z ops example_client in
  let k := mkCall 5 1 (Result (make_reply 5 MSG_ACCEPTED SYSTEM_ERR, [])) true in
  calls c !! 0%nat = Some k
  /\ c_fut k = Result (make_reply 5 MSG_ACCEPTED SYSTEM_ERR, [])
  /\ unpack_return (c_proc k) [] c = Raise EOFError
  /\ success (mkUnpacked (make_reply 5 MSG_ACCEPTED SYSTEM_ERR) (@None Z)) = Ok true
  /\ send_call_resume 0 c = Some (Raise EOFError).
Proof.
  intros ops c k.
  assert (Hk : calls c !! 0%nat = Some k) by (vm_compute; reflexivity).
  assert (Hf : c_fut k = Result (make_reply 5 MSG_ACCEPTED SYSTEM_ERR, [])) by reflexivity.
  assert (Hu : unpack_return (c_proc k) [] c = Raise EOFError) by (vm_compute; reflexivity).
  split; [exact Hk|]. split; [exact Hf|]. split; [exact Hu|].
  clearbody c.
  destruct (X17_accept_status_is_ignored c 0 k 5 SYSTEM_ERR [] None Hk Hf) as [Hs Hr].
  split; [exact Hs|]. rewrite Hr, Hu. reflexivity.
Defined.

(** X18 on [ADD(2, 3)] between the example client and the server that has no
    callable for [ADD]. *)
Lemma X18_failed_call_decodes_empty_payload_witness :
  let hrb := be32 77 ++ be32 1 ++ be32 0 ++ be32 0 ++ be32 0 ++ be32 5 in
  let tc := receiving (record_mark [hrb]) in
  let c := set_transport tc example_client in
  let ab := be32 2 ++ be32 3 in
  let hb := example_call_header in
  (transport c = Some tc /\ writer_closing tc = false /\ table_sound c
   /\ @pack_args Z 1 [2; 3] c = Ok ab /\ len ab mod 4 = 0
   /\ Rfc1831.pack_rpc_msg (call_msg c 77 1) = Ok hb
   /\ Rfc1831.unpack_rpc_msg (hb ++ ab) = Ok (call_msg c 77 1, ab)
   /\ len hb + len ab <= 100000
   /\ handle_proc_call 1 ab incomplete_server = (Raise (AttributeError "ADD"), incomplete_server)
   /\ Rfc1831.pack_rpc_msg (make_reply 77 MSG_ACCEPTED SYSTEM_ERR) = Ok hrb
   /\ Rfc1831.unpack_rpc_msg hrb = Ok (make_reply 77 MSG_ACCEPTED SYSTEM_ERR, [])
   /\ len hrb <= 100000
   /\ reader tc = record_mark [hrb])
  /\ exists c1,
       @send_call Rfc1831.codec Z 1 [2; 3] (Some 77) 0 (Ok fresh_transport) c
         = (Ok (length (calls c)), c1)
       /\ @handle_connection Rfc1831.codec Z Z [Ready]
            (incomplete_server, receiving (record_mark [hb ++ ab]))
          = Some (Raise (AttributeError "ADD"),
                  (incomplete_server, mkTransport [] false (record_mark [hrb]) true))
       /\ (forall eofs : list bool, length eofs = 2%nat ->
             exists c2,
               @pump_replies Rfc1831.codec Z eofs c1
                 = Some (if reader_eof tc || existsb id eofs
                         then Ok tt else Raise IncompleteReadError, c2)
               /\ send_call_resume (length (calls c)) c2 = Some (Raise EOFError)).
Proof.
  intros hrb tc c ab hb.
  assert (H1 : transport c = Some tc) by reflexivity.
  assert (H2 : writer_closing tc = false) by reflexivity.
  assert (H3 : table_sound c) by (apply set_transport_table_sound, table_sound_init).
  assert (H5 : @pack_args Z 1 [2; 3] c = Ok ab) by reflexivity.
  assert (H6 : len ab mod 4 = 0) by reflexivity.
  assert (H7 : Rfc1831.pack_rpc_msg (call_msg c 77 1) = Ok hb) by (vm_compute; reflexivity).
  assert (H8 : Rfc1831.unpack_rpc_msg (hb ++ ab) = Ok (call_msg c 77 1, ab))
    by (vm_compute; reflexivity).
  assert (H9 : len hb + len ab <= 100000) by (vm_compute; discriminate).
  assert (H10 : handle_proc_call 1 ab incomplete_server
                = (Raise (AttributeError "ADD"), incomplete_server)) by reflexivity.
  assert (H17 : Rfc1831.pack_rpc_msg (make_reply 77 MSG_ACCEPTED SYSTEM_ERR) = Ok hrb)
    by (vm_compute; reflexivity).
  assert (H18 : Rfc1831.unpack_rpc_msg hrb = Ok (make_reply 77 MSG_ACCEPTED SYSTEM_ERR, []))
    by (vm_compute; reflexivity).
  assert (H19 : len hrb <= 100000) by (vm_compute; discriminate).
  assert (H20 : reader tc = record_mark [hrb]) by reflexivity.
  split; [repeat (split; [assumption|]); assumption|].
  destruct (@X18_failed_call_decodes_empty_payload Rfc1831.codec Z Z c incomplete_server
              incomplete_server tc 1 77 [2; 3] ab hb hrb (AttributeError "ADD") 0
              (Ok fresh_transport) H1 H2 H3 H5 H6 H7 H8 H9 H10 H17 H18 H19 H20)
    as (c1 & Ha & Hb & Hc).
  exists c1. split; [exact Ha|]. split; [exact (Hb [])|].
  intros eofs Hn. destruct (Hc eofs Hn) as (c2 & Hp & Hd).
  exists c2. split; [exact Hp|]. rewrite Hd. reflexivity.
Defined.

(** X19 at the example client, before and after it is connected. *)
Lemma X19_send_call_connects_on_demand_witness :
  let c := set_transport fresh_transport example_client in
  transport example_client = None
  /\ transport c <> None
  /\ @send_call Rfc1831.codec Z 0 [] (Some 5) 0 (Raise OSError) example_client
     = (Raise OSError, example_client)
  /\ @send_call Rfc1831.codec Z 0 [] (Some 5) 0 (Ok fresh_transport) example_client
     = @send_call Rfc1831.codec Z 0 [] (Some 5) 0 (Ok fresh_transport) c
  /\ @send_call Rfc1831.codec Z 0 [] (Some 5) 0 (Ok fresh_transport) c
     = @send_call Rfc1831.codec Z 0 [] (Some 5) 0 (Raise OSError) c.
Proof.
  intros c.
  assert (Hn : transport example_client = None) by reflexivity.
  assert (Hs : transport c <> None) by discriminate.
  split; [exact Hn|]. split; [exact Hs|].
  split; [exact (proj1 (@X19_send_call_connects_on_demand Rfc1831.codec Z example_client 0 []
                          (Some 5) 0 (Raise OSError)) Hn)|].
  split; [exact (proj1 (@X19_send_call_connects_on_demand Rfc1831.codec Z example_client 0 []
                          (Some 5) 0 (Ok fresh_transport)) Hn)|].
  exact (proj2 (@X19_send_call_connects_on_demand Rfc1831.codec Z c 0 [] (Some 5) 0
                  (Ok fresh_transport)) Hs (Raise OSError)).
Defined.

(** X20 at the example server, on a connection that delivers [ADD(2, 3)]: a
    wait that expires before the length word has been read changes
    nothing; a wait that expires after it loses the call, which is never
    dispatched, the next read taking the transaction id 77 for a length
    word; with the end of stream received no wait expires. *)
Lemma X20_expired_wait_loses_the_length_word_witness :
  let m := example_call_header ++ be32 2 ++ be32 3 in
  let t := receiving example_call_record in
  let hb := be32 77 ++ be32 1 ++ be32 0 ++ be32 0 ++ be32 0 ++ be32 0 in
  let s1 := record_invocation "ADD" [2; 3] 1 example_server in
  let answered := mkTransport [] true (record_mark [hb ++ be32 5]) true in
  (closed t = false /\ reader_eof t = false
   /\ @handle_connection Rfc1831.codec Z Z [TimedOut 0; Ready; EndOfStream] (example_server, t)
      = Some (Ok tt, (s1, answered)))
  /\ (0 < len m <= 100000
      /\ @handle_connection Rfc1831.codec Z Z [TimedOut 1; Ready; EndOfStream]
           (example_server, mkTransport (record_mark [m] ++ []) false [] false)
         = Some (Raise IncompleteReadError, (example_server, mkTransport [] true [] false)))
  /\ (reader_eof (feed_eof t) = true
      /\ @handle_connection Rfc1831.codec Z Z [TimedOut 1; Ready] (example_server, feed_eof t)
         = Some (Ok tt, (s1, answered))).
Proof.
  intros m t hb s1 answered.
  pose proof (@X20_expired_wait_loses_the_length_word Rfc1831.codec Z Z example_server)
    as HX.
  split; [|split].
  - assert (Hc : closed t = false) by reflexivity.
    assert (He : reader_eof t = false) by reflexivity.
    split; [exact Hc|]. split; [exact He|].
    rewrite (proj1 (HX [Ready; EndOfStream]) t Hc He). reflexivity.
  - assert (Hm : 0 < len m <= 100000) by (vm_compute; split; [reflexivity|discriminate]).
    split; [exact Hm|].
    rewrite (proj1 (proj2 (HX [Ready; EndOfStream])) m [] [] Hm). reflexivity.
  - assert (He : reader_eof (feed_eof t) = true) by reflexivity.
    split; [exact He|].
    rewrite (proj2 (proj2 (HX [Ready])) (feed_eof t) 1%nat He). reflexivity.
Defined.
